(** * Scene geometry and surface row updates of the data-visualization module

    A shallow embedding of [Q3DScene] / [Q3DScenePrivate]
    (src/datavisualization/engine/q3dscene.cpp) and of the row-range update
    of [SurfaceObject] (declared in src/datavisualization/utils/surfaceobject_p.h).

    Conventions.
    - A C++ [int] is a [Z].  Signed overflow is undefined behaviour in C++,
      so the embedding describes the executions in which no [int] operation
      overflows.
    - A C++ [float] is an IEEE-754 binary32 value, a [spec_float] handled
      with precision 24 and maximal exponent 128.
    - A pointer to a [QObject] is an [option objid]; [None] is the null
      pointer.
    - [emit sig] appends [sig] to the log of the emitting scene.  Slots of
      listeners outside the scene are not run. *)

From Stdlib Require Import ZArith Bool Lia.
From Stdlib Require Import Floats.SpecFloat.
From stdpp Require Import base option list gmap.

Local Open Scope Z_scope.

(** ** QtCore value types used by the scene *)

(** [QRect] of QtCore: the corners [x1,y1] (top left) and [x2,y2] (bottom
    right) are stored, both inclusive, so the width is [x2 - x1 + 1]. *)
Module QRect.

Record t := mk { x1 : Z; y1 : Z; x2 : Z; y2 : Z }.

(** [QRect()] *)
Definition null : t := mk 0 0 (-1) (-1).

(** [QRect(int left, int top, int width, int height)] *)
Definition make (left top w h : Z) : t :=
  mk left top (left + w - 1) (top + h - 1).

Definition x (r : t) : Z := x1 r.
Definition y (r : t) : Z := y1 r.
Definition width (r : t) : Z := x2 r - x1 r + 1.
Definition height (r : t) : Z := y2 r - y1 r + 1.

(** [setX] and [setY] move the top left corner and keep the other one. *)
Definition setX (v : Z) (r : t) : t := mk v (y1 r) (x2 r) (y2 r).
Definition setY (v : Z) (r : t) : t := mk (x1 r) v (x2 r) (y2 r).
Definition setWidth (w : Z) (r : t) : t := mk (x1 r) (y1 r) (x1 r + w - 1) (y2 r).
Definition setHeight (h : Z) (r : t) : t := mk (x1 r) (y1 r) (x2 r) (y1 r + h - 1).

Definition isNull (r : t) : bool :=
  (x2 r =? x1 r - 1) && (y2 r =? y1 r - 1).

(** [operator==] compares the four stored coordinates. *)
Definition eqb (a b : t) : bool :=
  (x1 a =? x1 b) && (x2 a =? x2 b) && (y1 a =? y1 b) && (y2 a =? y2 b).

(** [QRect::intersected], that is [operator&]. *)
Definition intersected (a r : t) : t :=
  if isNull a || isNull r then null else
  let (l1, r1) := if x2 a - x1 a + 1 <? 0 then (x2 a, x1 a) else (x1 a, x2 a) in
  let (l2, r2) := if x2 r - x1 r + 1 <? 0 then (x2 r, x1 r) else (x1 r, x2 r) in
  if (l1 >? r2) || (l2 >? r1) then null else
  let (t1, b1) := if y2 a - y1 a + 1 <? 0 then (y2 a, y1 a) else (y1 a, y2 a) in
  let (t2, b2) := if y2 r - y1 r + 1 <? 0 then (y2 r, y1 r) else (y1 r, y2 r) in
  if (t1 >? b2) || (t2 >? b1) then null else
  mk (Z.max l1 l2) (Z.max t1 t2) (Z.min r1 r2) (Z.min b1 b2).

(** [QRect::contains(const QPoint &, bool proper = false)] on the
    coordinates [px], [py] of the point. *)
Definition contains (r : t) (px py : Z) : bool :=
  let (l, rr) := if x2 r <? x1 r - 1 then (x2 r, x1 r) else (x1 r, x2 r) in
  if (px <? l) || (px >? rr) then false else
  let (tt, b) := if y2 r <? y1 r - 1 then (y2 r, y1 r) else (y1 r, y2 r) in
  if (py <? tt) || (py >? b) then false else true.

End QRect.

(** The extent of a rectangle along one axis, from the stored coordinates
    [a] and [b]: a rectangle of negative size is read with its corners
    swapped, as [intersected] and [contains] do. *)
Definition span_lo (a b : Z) : Z := if b <? a - 1 then b else a.
Definition span_hi (a b : Z) : Z := if b <? a - 1 then a else b.

Abbreviation QRect := QRect.t.

(** [QPoint] and [QSize]; [QSize()] is the invalid size (-1, -1). *)
Record QPoint := mkPoint { pt_x : Z; pt_y : Z }.
Record QSize := mkSize { sz_width : Z; sz_height : Z }.

Definition QPoint_eqb (a b : QPoint) : bool :=
  (pt_x a =? pt_x b) && (pt_y a =? pt_y b).
Definition QSize_eqb (a b : QSize) : bool :=
  (sz_width a =? sz_width b) && (sz_height a =? sz_height b).
Definition QSize_default : QSize := mkSize (-1) (-1).

(** ** Single precision arithmetic *)
Module Float32.

Definition prec : Z := 24.
Definition emax : Z := 128.

Definition t := spec_float.

(** Conversion [int -> float], rounding to nearest even. *)
Definition of_int (i : Z) : t := binary_normalize prec emax i 0 false.

Definition mul (a b : t) : t := SFmul prec emax a b.

(** [a == b] on floats: a NaN differs from everything, the two zeros are
    equal. *)
Definition eqb (a b : t) : bool := SFeqb a b.

(** Conversion [float -> int]: the fractional part is discarded.  For a NaN
    or an infinity C++ leaves the result undefined; the embedding takes 0. *)
Definition to_int (f : t) : Z :=
  match f with
  | S754_finite s m e =>
      let a := match e with
               | Zneg p => Z.pos m / 2 ^ Z.pos p
               | _ => Z.pos m * 2 ^ e
               end in
      if s then - a else a
  | _ => 0
  end.

(** [i * f] for an [int] i and a [float] f, stored into an [int]. *)
Definition scale (i : Z) (f : t) : Z := to_int (mul (of_int i) f).

(** The conversion [float -> int] is defined by C++ when the float is
    finite and its integral part is an [int] of 32 bits. *)
Definition to_int_defined (f : t) : bool :=
  match f with
  | S754_zero _ => true
  | S754_finite _ _ _ => (- 2 ^ 31 <=? to_int f) && (to_int f <? 2 ^ 31)
  | _ => false
  end.

(** The product [i * f] can be stored into an [int]. *)
Definition scale_defined (i : Z) (f : t) : bool := to_int_defined (mul (of_int i) f).

(** The literals [1.f], [2.0f] and [0.2f]. *)
Definition one : t := of_int 1.
Definition two : t := of_int 2.
Definition c0_2 : t := S754_finite false 13421773 (-26).

End Float32.

Abbreviation float := Float32.t.

(** ** Objects, pointers and signals *)

Definition objid := positive.

(** A pointer to a [QObject]; [None] is the null pointer. *)
Definition ptr := option objid.

Definition ptr_eqb (a b : ptr) : bool :=
  match a, b with
  | Some i, Some j => Pos.eqb i j
  | None, None => true
  | _, _ => false
  end.

(** The signals of [Q3DScene], and [needRender] of [Q3DScenePrivate]. *)
Module Signal.
Inductive t :=
  | viewportChanged (r : QRect)
  | primarySubViewportChanged (r : QRect)
  | secondarySubViewportChanged (r : QRect)
  | selectionQueryPositionChanged (p : QPoint)
  | slicingActiveChanged (b : bool)
  | secondarySubviewOnTopChanged (b : bool)
  | activeCameraChanged (c : ptr)
  | activeLightChanged (l : ptr)
  | devicePixelRatioChanged (f : float)
  | needRender.
End Signal.

(** ** The state of a scene *)

(** [Q3DSceneChangeBitField]: one dirty bit for each attribute.  The bits
    are the ones q3dscene.cpp reads and writes. *)
Record Q3DSceneChangeBitField := mkBits {
  viewportChanged : bool;
  primarySubViewportChanged : bool;
  secondarySubViewportChanged : bool;
  subViewportOrderChanged : bool;
  cameraChanged : bool;
  lightChanged : bool;
  slicingActivatedChanged : bool;
  devicePixelRatioChanged : bool;
  selectionQueryPositionChanged : bool;
  windowSizeChanged : bool
}.

(** The assignments to one bit.  They take the record apart, so that
    updates stacked on each other are computed one after the other. *)
Definition set_viewportChanged (v : bool) (b : Q3DSceneChangeBitField) :=
  let 'mkBits b0 b1 b2 b3 b4 b5 b6 b7 b8 b9 := b in
  mkBits v b1 b2 b3 b4 b5 b6 b7 b8 b9.
Definition set_primarySubViewportChanged (v : bool) (b : Q3DSceneChangeBitField) :=
  let 'mkBits b0 b1 b2 b3 b4 b5 b6 b7 b8 b9 := b in
  mkBits b0 v b2 b3 b4 b5 b6 b7 b8 b9.
Definition set_secondarySubViewportChanged (v : bool) (b : Q3DSceneChangeBitField) :=
  let 'mkBits b0 b1 b2 b3 b4 b5 b6 b7 b8 b9 := b in
  mkBits b0 b1 v b3 b4 b5 b6 b7 b8 b9.
Definition set_subViewportOrderChanged (v : bool) (b : Q3DSceneChangeBitField) :=
  let 'mkBits b0 b1 b2 b3 b4 b5 b6 b7 b8 b9 := b in
  mkBits b0 b1 b2 v b4 b5 b6 b7 b8 b9.
Definition set_cameraChanged (v : bool) (b : Q3DSceneChangeBitField) :=
  let 'mkBits b0 b1 b2 b3 b4 b5 b6 b7 b8 b9 := b in
  mkBits b0 b1 b2 b3 v b5 b6 b7 b8 b9.
Definition set_lightChanged (v : bool) (b : Q3DSceneChangeBitField) :=
  let 'mkBits b0 b1 b2 b3 b4 b5 b6 b7 b8 b9 := b in
  mkBits b0 b1 b2 b3 b4 v b6 b7 b8 b9.
Definition set_slicingActivatedChanged (v : bool) (b : Q3DSceneChangeBitField) :=
  let 'mkBits b0 b1 b2 b3 b4 b5 b6 b7 b8 b9 := b in
  mkBits b0 b1 b2 b3 b4 b5 v b7 b8 b9.
Definition set_devicePixelRatioChanged (v : bool) (b : Q3DSceneChangeBitField) :=
  let 'mkBits b0 b1 b2 b3 b4 b5 b6 b7 b8 b9 := b in
  mkBits b0 b1 b2 b3 b4 b5 b6 v b8 b9.
Definition set_selectionQueryPositionChanged (v : bool) (b : Q3DSceneChangeBitField) :=
  let 'mkBits b0 b1 b2 b3 b4 b5 b6 b7 b8 b9 := b in
  mkBits b0 b1 b2 b3 b4 b5 b6 b7 v b9.
Definition set_windowSizeChanged (v : bool) (b : Q3DSceneChangeBitField) :=
  let 'mkBits b0 b1 b2 b3 b4 b5 b6 b7 b8 b9 := b in
  mkBits b0 b1 b2 b3 b4 b5 b6 b7 b8 v.

(** The members of [Q3DScenePrivate].  [emitted] is the log of the signals
    emitted by the scene and its private part, oldest first. *)
Record Q3DScenePrivate := mkScene {
  q_ptr : objid;
  m_changeTracker : Q3DSceneChangeBitField;
  m_viewport : QRect;
  m_primarySubViewport : QRect;
  m_secondarySubViewport : QRect;
  m_isSecondarySubviewOnTop : bool;
  m_devicePixelRatio : float;
  m_camera : ptr;
  m_light : ptr;
  m_isUnderSideCameraEnabled : bool;
  m_isSlicingActive : bool;
  m_selectionQueryPosition : QPoint;
  m_windowSize : QSize;
  m_glViewport : QRect;
  m_glPrimarySubViewport : QRect;
  m_glSecondarySubViewport : QRect;
  m_sceneDirty : bool;
  emitted : list Signal.t
}.

(** The assignments to one member, in the same way. *)
Definition set_m_changeTracker (v : Q3DSceneChangeBitField) (s : Q3DScenePrivate)
    : Q3DScenePrivate :=
  let 'mkScene f0 f1 f2 f3 f4 f5 f6 f7 f8 f9 f10 f11 f12 f13 f14 f15 f16 f17 := s in
  mkScene f0 v f2 f3 f4 f5 f6 f7 f8 f9 f10 f11 f12 f13 f14 f15 f16 f17.
Definition set_m_viewport (v : QRect) (s : Q3DScenePrivate) : Q3DScenePrivate :=
  let 'mkScene f0 f1 f2 f3 f4 f5 f6 f7 f8 f9 f10 f11 f12 f13 f14 f15 f16 f17 := s in
  mkScene f0 f1 v f3 f4 f5 f6 f7 f8 f9 f10 f11 f12 f13 f14 f15 f16 f17.
Definition set_m_primarySubViewport (v : QRect) (s : Q3DScenePrivate) : Q3DScenePrivate :=
  let 'mkScene f0 f1 f2 f3 f4 f5 f6 f7 f8 f9 f10 f11 f12 f13 f14 f15 f16 f17 := s in
  mkScene f0 f1 f2 v f4 f5 f6 f7 f8 f9 f10 f11 f12 f13 f14 f15 f16 f17.
Definition set_m_secondarySubViewport (v : QRect) (s : Q3DScenePrivate) : Q3DScenePrivate :=
  let 'mkScene f0 f1 f2 f3 f4 f5 f6 f7 f8 f9 f10 f11 f12 f13 f14 f15 f16 f17 := s in
  mkScene f0 f1 f2 f3 v f5 f6 f7 f8 f9 f10 f11 f12 f13 f14 f15 f16 f17.
Definition set_m_isSecondarySubviewOnTop (v : bool) (s : Q3DScenePrivate) : Q3DScenePrivate :=
  let 'mkScene f0 f1 f2 f3 f4 f5 f6 f7 f8 f9 f10 f11 f12 f13 f14 f15 f16 f17 := s in
  mkScene f0 f1 f2 f3 f4 v f6 f7 f8 f9 f10 f11 f12 f13 f14 f15 f16 f17.
Definition set_m_devicePixelRatio (v : float) (s : Q3DScenePrivate) : Q3DScenePrivate :=
  let 'mkScene f0 f1 f2 f3 f4 f5 f6 f7 f8 f9 f10 f11 f12 f13 f14 f15 f16 f17 := s in
  mkScene f0 f1 f2 f3 f4 f5 v f7 f8 f9 f10 f11 f12 f13 f14 f15 f16 f17.
Definition set_m_camera (v : ptr) (s : Q3DScenePrivate) : Q3DScenePrivate :=
  let 'mkScene f0 f1 f2 f3 f4 f5 f6 f7 f8 f9 f10 f11 f12 f13 f14 f15 f16 f17 := s in
  mkScene f0 f1 f2 f3 f4 f5 f6 v f8 f9 f10 f11 f12 f13 f14 f15 f16 f17.
Definition set_m_light (v : ptr) (s : Q3DScenePrivate) : Q3DScenePrivate :=
  let 'mkScene f0 f1 f2 f3 f4 f5 f6 f7 f8 f9 f10 f11 f12 f13 f14 f15 f16 f17 := s in
  mkScene f0 f1 f2 f3 f4 f5 f6 f7 v f9 f10 f11 f12 f13 f14 f15 f16 f17.
Definition set_m_isUnderSideCameraEnabled (v : bool) (s : Q3DScenePrivate) : Q3DScenePrivate :=
  let 'mkScene f0 f1 f2 f3 f4 f5 f6 f7 f8 f9 f10 f11 f12 f13 f14 f15 f16 f17 := s in
  mkScene f0 f1 f2 f3 f4 f5 f6 f7 f8 v f10 f11 f12 f13 f14 f15 f16 f17.
Definition set_m_isSlicingActive (v : bool) (s : Q3DScenePrivate) : Q3DScenePrivate :=
  let 'mkScene f0 f1 f2 f3 f4 f5 f6 f7 f8 f9 f10 f11 f12 f13 f14 f15 f16 f17 := s in
  mkScene f0 f1 f2 f3 f4 f5 f6 f7 f8 f9 v f11 f12 f13 f14 f15 f16 f17.
Definition set_m_selectionQueryPosition (v : QPoint) (s : Q3DScenePrivate) : Q3DScenePrivate :=
  let 'mkScene f0 f1 f2 f3 f4 f5 f6 f7 f8 f9 f10 f11 f12 f13 f14 f15 f16 f17 := s in
  mkScene f0 f1 f2 f3 f4 f5 f6 f7 f8 f9 f10 v f12 f13 f14 f15 f16 f17.
Definition set_m_windowSize (v : QSize) (s : Q3DScenePrivate) : Q3DScenePrivate :=
  let 'mkScene f0 f1 f2 f3 f4 f5 f6 f7 f8 f9 f10 f11 f12 f13 f14 f15 f16 f17 := s in
  mkScene f0 f1 f2 f3 f4 f5 f6 f7 f8 f9 f10 f11 v f13 f14 f15 f16 f17.
Definition set_m_glViewport (v : QRect) (s : Q3DScenePrivate) : Q3DScenePrivate :=
  let 'mkScene f0 f1 f2 f3 f4 f5 f6 f7 f8 f9 f10 f11 f12 f13 f14 f15 f16 f17 := s in
  mkScene f0 f1 f2 f3 f4 f5 f6 f7 f8 f9 f10 f11 f12 v f14 f15 f16 f17.
Definition set_m_glPrimarySubViewport (v : QRect) (s : Q3DScenePrivate) : Q3DScenePrivate :=
  let 'mkScene f0 f1 f2 f3 f4 f5 f6 f7 f8 f9 f10 f11 f12 f13 f14 f15 f16 f17 := s in
  mkScene f0 f1 f2 f3 f4 f5 f6 f7 f8 f9 f10 f11 f12 f13 v f15 f16 f17.
Definition set_m_glSecondarySubViewport (v : QRect) (s : Q3DScenePrivate) : Q3DScenePrivate :=
  let 'mkScene f0 f1 f2 f3 f4 f5 f6 f7 f8 f9 f10 f11 f12 f13 f14 f15 f16 f17 := s in
  mkScene f0 f1 f2 f3 f4 f5 f6 f7 f8 f9 f10 f11 f12 f13 f14 v f16 f17.
Definition set_m_sceneDirty (v : bool) (s : Q3DScenePrivate) : Q3DScenePrivate :=
  let 'mkScene f0 f1 f2 f3 f4 f5 f6 f7 f8 f9 f10 f11 f12 f13 f14 f15 f16 f17 := s in
  mkScene f0 f1 f2 f3 f4 f5 f6 f7 f8 f9 f10 f11 f12 f13 f14 f15 v f17.
Definition set_emitted (v : list Signal.t) (s : Q3DScenePrivate) : Q3DScenePrivate :=
  let 'mkScene f0 f1 f2 f3 f4 f5 f6 f7 f8 f9 f10 f11 f12 f13 f14 f15 f16 f17 := s in
  mkScene f0 f1 f2 f3 f4 f5 f6 f7 f8 f9 f10 f11 f12 f13 f14 f15 f16 v.

(** ** Operations of the scene *)

(** [m_changeTracker.bit = v] *)
Definition track (bit : bool -> Q3DSceneChangeBitField -> Q3DSceneChangeBitField)
    (v : bool) (s : Q3DScenePrivate) : Q3DScenePrivate :=
  set_m_changeTracker (bit v (m_changeTracker s)) s.

Definition emit (sig : Signal.t) (s : Q3DScenePrivate) : Q3DScenePrivate :=
  set_emitted (emitted s ++ [sig]) s.

(** [Q3DScenePrivate::updateGLSubViewports] *)
Definition updateGLSubViewports (s : Q3DScenePrivate) : Q3DScenePrivate :=
  let p := m_primarySubViewport s in
  let q := m_secondarySubViewport s in
  let v := m_viewport s in
  let r := m_devicePixelRatio s in
  let h := sz_height (m_windowSize s) in
  let g := m_glPrimarySubViewport s in
  let g := QRect.setX (Float32.scale (QRect.x p + QRect.x v) r) g in
  let g := QRect.setY
             (Float32.scale (h - (QRect.y p + QRect.y v + QRect.height p)) r) g in
  let g := QRect.setWidth (Float32.scale (QRect.width p) r) g in
  let g := QRect.setHeight (Float32.scale (QRect.height p) r) g in
  let s := set_m_glPrimarySubViewport g s in
  let g := m_glSecondarySubViewport s in
  let g := QRect.setX (Float32.scale (QRect.x q) r) g in
  let g := QRect.setY
             (Float32.scale (h - (QRect.y q + QRect.y v + QRect.height q)) r) g in
  let g := QRect.setWidth (Float32.scale (QRect.width q) r) g in
  let g := QRect.setHeight (Float32.scale (QRect.height q) r) g in
  set_m_glSecondarySubViewport g s.

(** [Q3DScenePrivate::updateGLViewport] *)
Definition updateGLViewport (s : Q3DScenePrivate) : Q3DScenePrivate :=
  let v := m_viewport s in
  let r := m_devicePixelRatio s in
  let h := sz_height (m_windowSize s) in
  let g := m_glViewport s in
  let g := QRect.setX (Float32.scale (QRect.x v) r) g in
  let g := QRect.setY (Float32.scale (h - (QRect.y v + QRect.height v)) r) g in
  let g := QRect.setWidth (Float32.scale (QRect.width v) r) g in
  let g := QRect.setHeight (Float32.scale (QRect.height v) r) g in
  let s := set_m_glViewport g s in
  let s := track set_viewportChanged true s in
  let s := set_m_sceneDirty true s in
  let s := updateGLSubViewports s in
  emit (Signal.viewportChanged (m_viewport s)) s.

(** [Q3DScene::setPrimarySubViewport] *)
Definition setPrimarySubViewport (primarySubViewport : QRect) (s : Q3DScenePrivate)
    : Q3DScenePrivate :=
  let clipRect :=
    QRect.make 0 0 (QRect.width (m_viewport s)) (QRect.height (m_viewport s)) in
  let intersectedViewport := QRect.intersected primarySubViewport clipRect in
  if negb (QRect.eqb (m_primarySubViewport s) intersectedViewport) then
    let s := set_m_primarySubViewport intersectedViewport s in
    let s := updateGLSubViewports s in
    let s := track set_primarySubViewportChanged true s in
    let s := set_m_sceneDirty true s in
    let s := emit (Signal.primarySubViewportChanged intersectedViewport) s in
    emit Signal.needRender s
  else s.

(** [Q3DScene::isPointInPrimarySubView] *)
Definition isPointInPrimarySubView (point : QPoint) (s : Q3DScenePrivate) : bool :=
  let x := pt_x point in
  let y := pt_y point in
  let areaMinX := QRect.x (m_primarySubViewport s) in
  let areaMaxX := QRect.x (m_viewport s) + QRect.x (m_primarySubViewport s)
                  + QRect.width (m_primarySubViewport s) in
  let areaMaxY := QRect.y (m_viewport s) + QRect.y (m_primarySubViewport s)
                  + QRect.height (m_primarySubViewport s) in
  let areaMinY := QRect.y (m_viewport s) + QRect.y (m_primarySubViewport s) in
  (x >? areaMinX) && (x <? areaMaxX) && (y >? areaMinY) && (y <? areaMaxY).

(** [Q3DScene::isPointInSecondarySubView] *)
Definition isPointInSecondarySubView (point : QPoint) (s : Q3DScenePrivate) : bool :=
  let x := pt_x point in
  let y := pt_y point in
  let areaMinX := QRect.x (m_secondarySubViewport s) in
  let areaMaxX := QRect.x (m_viewport s) + QRect.x (m_secondarySubViewport s)
                  + QRect.width (m_secondarySubViewport s) in
  let areaMaxY := QRect.y (m_viewport s) + QRect.y (m_secondarySubViewport s)
                  + QRect.height (m_secondarySubViewport s) in
  let areaMinY := QRect.y (m_viewport s) + QRect.y (m_secondarySubViewport s) in
  (x >? areaMinX) && (x <? areaMaxX) && (y >? areaMinY) && (y <? areaMaxY).

(** [Q3DScene::setSecondarySubViewport] *)
Definition setSecondarySubViewport (secondarySubViewport : QRect) (s : Q3DScenePrivate)
    : Q3DScenePrivate :=
  let clipRect :=
    QRect.make 0 0 (QRect.width (m_viewport s)) (QRect.height (m_viewport s)) in
  let intersectedViewport := QRect.intersected secondarySubViewport clipRect in
  if negb (QRect.eqb (m_secondarySubViewport s) intersectedViewport) then
    let s := set_m_secondarySubViewport intersectedViewport s in
    let s := updateGLSubViewports s in
    let s := track set_secondarySubViewportChanged true s in
    let s := set_m_sceneDirty true s in
    let s := emit (Signal.secondarySubViewportChanged intersectedViewport) s in
    emit Signal.needRender s
  else s.

(** [Q3DScene::setSelectionQueryPosition] *)
Definition setSelectionQueryPosition (point : QPoint) (s : Q3DScenePrivate)
    : Q3DScenePrivate :=
  if negb (QPoint_eqb point (m_selectionQueryPosition s)) then
    let s := set_m_selectionQueryPosition point s in
    let s := track set_selectionQueryPositionChanged true s in
    let s := set_m_sceneDirty true s in
    let s := emit (Signal.selectionQueryPositionChanged point) s in
    emit Signal.needRender s
  else s.

(** [Q3DScene::invalidSelectionPoint] *)
Definition invalidSelectionPoint : QPoint := mkPoint (-1) (-1).

(** [Q3DScenePrivate::calculateSubViewports]; [smallerViewPortRatio] is
    [0.2f]. *)
Definition calculateSubViewports (s : Q3DScenePrivate) : Q3DScenePrivate :=
  let smallerViewPortRatio := Float32.c0_2 in
  let s :=
    if m_isSlicingActive s then
      let s := setPrimarySubViewport
                 (QRect.make 0 0
                    (Float32.scale (QRect.width (m_viewport s)) smallerViewPortRatio)
                    (Float32.scale (QRect.height (m_viewport s)) smallerViewPortRatio))
                 s in
      setSecondarySubViewport
        (QRect.make 0 0 (QRect.width (m_viewport s)) (QRect.height (m_viewport s))) s
    else
      let s := setPrimarySubViewport
                 (QRect.make 0 0 (QRect.width (m_viewport s))
                    (QRect.height (m_viewport s))) s in
      setSecondarySubViewport (QRect.make 0 0 0 0) s in
  updateGLViewport s.

(** [Q3DScene::setSlicingActive] *)
Definition setSlicingActive (isSlicing : bool) (s : Q3DScenePrivate) : Q3DScenePrivate :=
  if negb (Bool.eqb (m_isSlicingActive s) isSlicing) then
    let s := set_m_isSlicingActive isSlicing s in
    let s := track set_slicingActivatedChanged true s in
    let s := set_m_sceneDirty true s in
    let s := calculateSubViewports s in
    let s := emit (Signal.slicingActiveChanged isSlicing) s in
    emit Signal.needRender s
  else s.

(** [Q3DScene::setSecondarySubviewOnTop] *)
Definition setSecondarySubviewOnTop (isSecondaryOnTop : bool) (s : Q3DScenePrivate)
    : Q3DScenePrivate :=
  if negb (Bool.eqb (m_isSecondarySubviewOnTop s) isSecondaryOnTop) then
    let s := set_m_isSecondarySubviewOnTop isSecondaryOnTop s in
    let s := track set_subViewportOrderChanged true s in
    let s := set_m_sceneDirty true s in
    let s := emit (Signal.secondarySubviewOnTopChanged isSecondaryOnTop) s in
    emit Signal.needRender s
  else s.

(** [Q3DScene::setDevicePixelRatio] *)
Definition setDevicePixelRatio (pixelRatio : float) (s : Q3DScenePrivate)
    : Q3DScenePrivate :=
  if negb (Float32.eqb (m_devicePixelRatio s) pixelRatio) then
    let s := set_m_devicePixelRatio pixelRatio s in
    let s := track set_devicePixelRatioChanged true s in
    let s := set_m_sceneDirty true s in
    let s := emit (Signal.devicePixelRatioChanged pixelRatio) s in
    let s := updateGLViewport s in
    emit Signal.needRender s
  else s.

(** [Q3DScenePrivate::setViewport] *)
Definition setViewport (viewport : QRect) (s : Q3DScenePrivate) : Q3DScenePrivate :=
  if negb (QRect.eqb (m_viewport s) viewport) then
    let s := set_m_viewport viewport s in
    let s := calculateSubViewports s in
    emit Signal.needRender s
  else s.

(** [Q3DScenePrivate::setViewportSize] *)
Definition setViewportSize (width height : Z) (s : Q3DScenePrivate) : Q3DScenePrivate :=
  if negb (QRect.width (m_viewport s) =? width)
     || negb (QRect.height (m_viewport s) =? height) then
    let s := set_m_viewport (QRect.setWidth width (m_viewport s)) s in
    let s := set_m_viewport (QRect.setHeight height (m_viewport s)) s in
    let s := calculateSubViewports s in
    emit Signal.needRender s
  else s.

(** [Q3DScenePrivate::setWindowSize] *)
Definition setWindowSize (size : QSize) (s : Q3DScenePrivate) : Q3DScenePrivate :=
  if negb (QSize_eqb (m_windowSize s) size) then
    let s := set_m_windowSize size s in
    let s := updateGLViewport s in
    let s := track set_windowSizeChanged true s in
    let s := set_m_sceneDirty true s in
    emit Signal.needRender s
  else s.

(** [Q3DScenePrivate::Q3DScenePrivate].  The initial values of the dirty
    bits and of [m_sceneDirty] are given in q3dscene_p.h; they are arguments
    here. *)
Definition Q3DScenePrivate_new (q : objid) (bits : Q3DSceneChangeBitField)
    (dirty : bool) : Q3DScenePrivate :=
  {| q_ptr := q;
     m_changeTracker := bits;
     m_viewport := QRect.null;
     m_primarySubViewport := QRect.null;
     m_secondarySubViewport := QRect.null;
     m_isSecondarySubviewOnTop := true;
     m_devicePixelRatio := Float32.one;
     m_camera := None;
     m_light := None;
     m_isUnderSideCameraEnabled := false;
     m_isSlicingActive := false;
     m_selectionQueryPosition := invalidSelectionPoint;
     m_windowSize := QSize_default;
     m_glViewport := QRect.null;
     m_glPrimarySubViewport := QRect.null;
     m_glSecondarySubViewport := QRect.null;
     m_sceneDirty := dirty;
     emitted := [] |}.

Definition allChanged : Q3DSceneChangeBitField :=
  mkBits true true true true true true true true true true.
Definition noChanges : Q3DSceneChangeBitField :=
  mkBits false false false false false false false false false false.

(** ** The active camera and the active light *)

(** The part of the [QObject] world the scene touches: the parent of each
    object, and the connections from a camera signal to the [needRender]
    signal of a scene's private part (the receiver is named by the scene). *)
Inductive CameraSignal := xRotationChanged | yRotationChanged | zoomLevelChanged.

Record Connection := mkConn {
  conn_sender : objid;
  conn_signal : CameraSignal;
  conn_receiver : objid
}.

Definition CameraSignal_eqb (a b : CameraSignal) : bool :=
  match a, b with
  | xRotationChanged, xRotationChanged
  | yRotationChanged, yRotationChanged
  | zoomLevelChanged, zoomLevelChanged => true
  | _, _ => false
  end.

Definition Connection_eqb (a b : Connection) : bool :=
  Pos.eqb (conn_sender a) (conn_sender b)
  && CameraSignal_eqb (conn_signal a) (conn_signal b)
  && Pos.eqb (conn_receiver a) (conn_receiver b).

Record QObjects := mkObjects {
  parentOf : gmap objid objid;
  connections : list Connection
}.

(** [QObject::parent] and [QObject::setParent] *)
Definition parent (o : objid) (w : QObjects) : ptr := parentOf w !! o.

Definition setParent (o p : objid) (w : QObjects) : QObjects :=
  mkObjects (<[o := p]> (parentOf w)) (connections w).

(** [QObject::connect] adds one connection; [QObject::disconnect] removes
    every connection between the given signal and slot. *)
Definition connect (c : Connection) (w : QObjects) : QObjects :=
  mkObjects (parentOf w) (connections w ++ [c]).

Definition disconnect (c : Connection) (w : QObjects) : QObjects :=
  mkObjects (parentOf w)
    (List.filter (fun d => negb (Connection_eqb c d)) (connections w)).

(** A call either returns or stops at a failed [Q_ASSERT]. *)
Inductive Result (A : Type) :=
  | Ok (a : A)
  | AssertionFailed.
Arguments Ok {A} a.
Arguments AssertionFailed {A}.

(** [Q3DScene::setActiveCamera] *)
Definition setActiveCamera (camera : ptr) (w : QObjects) (s : Q3DScenePrivate)
    : Result (QObjects * Q3DScenePrivate) :=
  match camera with
  | None => AssertionFailed
  | Some c =>
      let w := if negb (ptr_eqb (parent c w) (Some (q_ptr s)))
               then setParent c (q_ptr s) w else w in
      if negb (ptr_eqb camera (m_camera s)) then
        let w :=
          match m_camera s with
          | Some old =>
              let w := disconnect (mkConn old xRotationChanged (q_ptr s)) w in
              let w := disconnect (mkConn old yRotationChanged (q_ptr s)) w in
              disconnect (mkConn old zoomLevelChanged (q_ptr s)) w
          | None => w
          end in
        let s := set_m_camera camera s in
        let s := track set_cameraChanged true s in
        let s := set_m_sceneDirty true s in
        let w := connect (mkConn c xRotationChanged (q_ptr s)) w in
        let w := connect (mkConn c yRotationChanged (q_ptr s)) w in
        let w := connect (mkConn c zoomLevelChanged (q_ptr s)) w in
        let s := emit (Signal.activeCameraChanged camera) s in
        let s := emit Signal.needRender s in
        Ok (w, s)
      else Ok (w, s)
  end.

(** [Q3DScene::setActiveLight] *)
Definition setActiveLight (light : ptr) (w : QObjects) (s : Q3DScenePrivate)
    : Result (QObjects * Q3DScenePrivate) :=
  match light with
  | None => AssertionFailed
  | Some l =>
      let w := if negb (ptr_eqb (parent l w) (Some (q_ptr s)))
               then setParent l (q_ptr s) w else w in
      if negb (ptr_eqb light (m_light s)) then
        let s := set_m_light light s in
        let s := track set_lightChanged true s in
        let s := set_m_sceneDirty true s in
        let s := emit (Signal.activeLightChanged light) s in
        Ok (w, s)
      else Ok (w, s)
  end.

(** ** Synchronisation of two scenes *)

Section Sync.

(** The cameras and lights are objects of classes defined outside
    q3dscene.cpp.  Their store and the two operations [sync] calls on them
    are left abstract: [setDirty(true)] on the object behind a pointer, and
    the object's own [sync] towards the object of the other scene. *)
Variable ObjStore : Type.
Variable camera_setDirty : ptr -> bool -> ObjStore -> ObjStore.
Variable camera_sync : ptr -> ptr -> ObjStore -> ObjStore.
Variable light_setDirty : ptr -> bool -> ObjStore -> ObjStore.
Variable light_sync : ptr -> ptr -> ObjStore -> ObjStore.

(** The blocks of [Q3DScenePrivate::sync], in the order of the source; each
    takes and returns the caller ([this]) and the other scene. *)
Definition sync_windowSize (p : Q3DScenePrivate * Q3DScenePrivate) :=
  let '(this, other) := p in
  if windowSizeChanged (m_changeTracker this) then
    let other := setWindowSize (m_windowSize this) other in
    (track set_windowSizeChanged false this, track set_windowSizeChanged false other)
  else (this, other).

Definition sync_viewport (p : Q3DScenePrivate * Q3DScenePrivate) :=
  let '(this, other) := p in
  if viewportChanged (m_changeTracker this) then
    let other := setViewport (m_viewport this) other in
    (track set_viewportChanged false this, track set_viewportChanged false other)
  else (this, other).

Definition sync_subViewportOrder (p : Q3DScenePrivate * Q3DScenePrivate) :=
  let '(this, other) := p in
  if subViewportOrderChanged (m_changeTracker this) then
    let other := setSecondarySubviewOnTop (m_isSecondarySubviewOnTop this) other in
    (track set_subViewportOrderChanged false this,
     track set_subViewportOrderChanged false other)
  else (this, other).

Definition sync_primarySubViewport (p : Q3DScenePrivate * Q3DScenePrivate) :=
  let '(this, other) := p in
  if primarySubViewportChanged (m_changeTracker this) then
    let other := setPrimarySubViewport (m_primarySubViewport this) other in
    (track set_primarySubViewportChanged false this,
     track set_primarySubViewportChanged false other)
  else (this, other).

Definition sync_secondarySubViewport (p : Q3DScenePrivate * Q3DScenePrivate) :=
  let '(this, other) := p in
  if secondarySubViewportChanged (m_changeTracker this) then
    let other := setSecondarySubViewport (m_secondarySubViewport this) other in
    (track set_secondarySubViewportChanged false this,
     track set_secondarySubViewportChanged false other)
  else (this, other).

Definition sync_selectionQueryPosition (p : Q3DScenePrivate * Q3DScenePrivate) :=
  let '(this, other) := p in
  if selectionQueryPositionChanged (m_changeTracker this) then
    let other := setSelectionQueryPosition (m_selectionQueryPosition this) other in
    (track set_selectionQueryPositionChanged false this,
     track set_selectionQueryPositionChanged false other)
  else (this, other).

Definition sync_camera (h : ObjStore) (p : Q3DScenePrivate * Q3DScenePrivate) :=
  let '(this, other) := p in
  let '(h, this, other) :=
    if cameraChanged (m_changeTracker this) then
      (camera_setDirty (m_camera this) true h,
       track set_cameraChanged false this, track set_cameraChanged false other)
    else (h, this, other) in
  (camera_sync (m_camera this) (m_camera other) h, (this, other)).

Definition sync_light (h : ObjStore) (p : Q3DScenePrivate * Q3DScenePrivate) :=
  let '(this, other) := p in
  let '(h, this, other) :=
    if lightChanged (m_changeTracker this) then
      (light_setDirty (m_light this) true h,
       track set_lightChanged false this, track set_lightChanged false other)
    else (h, this, other) in
  (light_sync (m_light this) (m_light other) h, (this, other)).

Definition sync_slicingActive (p : Q3DScenePrivate * Q3DScenePrivate) :=
  let '(this, other) := p in
  if slicingActivatedChanged (m_changeTracker this) then
    let other := setSlicingActive (m_isSlicingActive this) other in
    (track set_slicingActivatedChanged false this,
     track set_slicingActivatedChanged false other)
  else (this, other).

Definition sync_devicePixelRatio (p : Q3DScenePrivate * Q3DScenePrivate) :=
  let '(this, other) := p in
  if devicePixelRatioChanged (m_changeTracker this) then
    let other := setDevicePixelRatio (m_devicePixelRatio this) other in
    (track set_devicePixelRatioChanged false this,
     track set_devicePixelRatioChanged false other)
  else (this, other).

(** [Q3DScenePrivate::sync]: [this] is the caller.  The result is the store
    of cameras and lights, the caller and the other scene after the call. *)
Definition sync (h : ObjStore) (this other : Q3DScenePrivate)
    : ObjStore * Q3DScenePrivate * Q3DScenePrivate :=
  let p := sync_windowSize (this, other) in
  let p := sync_viewport p in
  let p := sync_subViewportOrder p in
  let p := sync_primarySubViewport p in
  let p := sync_secondarySubViewport p in
  let p := sync_selectionQueryPosition p in
  let '(h, p) := sync_camera h p in
  let '(h, p) := sync_light h p in
  let p := sync_slicingActive p in
  let p := sync_devicePixelRatio p in
  let '(this, other) := p in
  (h, set_m_sceneDirty false this, set_m_sceneDirty false other).

End Sync.

(** ** Row updates of the surface mesh *)

(** surfaceobject_p.h declares the members and the operations of
    [SurfaceObject]; the bodies are in a file that is not part of the
    sources at hand.  The types of the samples and of the vectors, the
    vertex and the normal computed for a grid cell, and the number of buffer
    entries a row takes in the flat tessellation are therefore arguments. *)
Module SurfaceObject.

Section Mesh.

Variable QVector3D : Type.
Variable QSurfaceDataArray : Type.
Variable GLfloat : Type.

(** Vertex of the cell at a row and a column, from the samples, [yRange]
    and [yMin]. *)
Variable smoothVertex : QSurfaceDataArray -> GLfloat -> GLfloat -> Z -> Z -> QVector3D.
(** Normal of the cell at a row and a column, from the vertex buffer and
    the numbers of columns and rows. *)
Variable smoothNormal : list QVector3D -> Z -> Z -> Z -> Z -> QVector3D.
(** The same for the flat tessellation, where a row of the grid takes
    [coarseRowLength columns] entries of the buffers. *)
Variable coarseRowLength : Z -> Z.
Variable coarseVertex : QSurfaceDataArray -> GLfloat -> GLfloat -> Z -> Z -> QVector3D.
Variable coarseNormal : list QVector3D -> Z -> Z -> Z -> Z -> QVector3D.

Record t := mk {
  m_columns : Z;
  m_rows : Z;
  m_vertices : list QVector3D;
  m_normals : list QVector3D
}.

(** [buf[k] = v]; a write outside the buffer is dropped. *)
Definition store (k : Z) (v : QVector3D) (buf : list QVector3D) : list QVector3D :=
  if 0 <=? k then <[Z.to_nat k := v]> buf else buf.

(** The entries of row [i], [rowLength] of them, are overwritten. *)
Definition fillRow (rowLength : Z) (f : Z -> QVector3D) (i : Z)
    (buf : list QVector3D) : list QVector3D :=
  foldl (fun b j => store (i * rowLength + j) (f j) b) buf (seqZ 0 rowLength).

(** [for (i = startRow; i < endRow; i++)] over the rows of the range. *)
Definition fillRows (rowLength : Z) (f : Z -> Z -> QVector3D) (startRow endRow : Z)
    (buf : list QVector3D) : list QVector3D :=
  foldl (fun b i => fillRow rowLength (f i) i b) buf
    (seqZ startRow (endRow - startRow)).

(** Modelled from the spec: the body of [SurfaceObject::updateSmoothRows],
    which is not in the sources.  The update is restricted to the rows
    [startRow <= i < endRow]: their vertices are recomputed from the
    samples, then their normals from the new vertex buffer; the rest of both
    buffers is left as it is. *)
Definition updateSmoothRows (dataArray : QSurfaceDataArray) (startRow endRow : Z)
    (yRange yMin : GLfloat) (o : t) : t :=
  let vertices :=
    fillRows (m_columns o) (smoothVertex dataArray yRange yMin) startRow endRow
      (m_vertices o) in
  let normals :=
    fillRows (m_columns o) (smoothNormal vertices (m_columns o) (m_rows o))
      startRow endRow (m_normals o) in
  mk (m_columns o) (m_rows o) vertices normals.

(** Modelled from the spec: the body of [SurfaceObject::updateCoarseRows],
    which is not in the sources.  As [updateSmoothRows], on the buffers of
    the flat tessellation, where every row takes
    [coarseRowLength (m_columns o)] entries. *)
Definition updateCoarseRows (dataArray : QSurfaceDataArray) (startRow endRow : Z)
    (yRange yMin : GLfloat) (o : t) : t :=
  let n := coarseRowLength (m_columns o) in
  let vertices :=
    fillRows n (coarseVertex dataArray yRange yMin) startRow endRow (m_vertices o) in
  let normals :=
    fillRows n (coarseNormal vertices (m_columns o) (m_rows o)) startRow endRow
      (m_normals o) in
  mk (m_columns o) (m_rows o) vertices normals.

(** Modelled from the spec: the body of [SurfaceObject::vertexAt], which is
    not in the sources, for the smooth tessellation: the stored position of
    a grid cell, and a failure outside the grid. *)
Definition vertexAt (column row : Z) (o : t) : option QVector3D :=
  if (0 <=? column) && (column <? m_columns o) && (0 <=? row) && (row <? m_rows o)
  then m_vertices o !! Z.to_nat (row * m_columns o + column)
  else None.

End Mesh.

Arguments mk {QVector3D} _ _ _ _.
Arguments m_columns {QVector3D} _.
Arguments m_rows {QVector3D} _.
Arguments m_vertices {QVector3D} _.
Arguments m_normals {QVector3D} _.
Arguments store {QVector3D} _ _ _.
Arguments fillRow {QVector3D} _ _ _ _.
Arguments fillRows {QVector3D} _ _ _ _ _.
Arguments updateSmoothRows {QVector3D QSurfaceDataArray GLfloat} _ _ _ _ _ _ _ _.
Arguments updateCoarseRows {QVector3D QSurfaceDataArray GLfloat} _ _ _ _ _ _ _ _ _.
Arguments vertexAt {QVector3D} _ _ _.

End SurfaceObject.

(** ** Statements of the specification, and example scenes *)

(** The rectangle the specification gives for the GPU space: rectangle [R],
    window height [H], pixel ratio [P]. *)
Definition specGLRect (R : QRect) (H : Z) (P : float) : QRect :=
  QRect.make (Float32.scale (QRect.x R) P)
    (Float32.scale (H - (QRect.y R + QRect.height R)) P)
    (Float32.scale (QRect.width R) P)
    (Float32.scale (QRect.height R) P).

(** A sub-viewport is placed inside the viewport: its GPU rectangle is taken
    at the offset [dx], [dy]. *)
Definition offsetGLRect (R : QRect) (dx dy : Z) (H : Z) (P : float) : QRect :=
  QRect.make (Float32.scale (QRect.x R + dx) P)
    (Float32.scale (H - (QRect.y R + dy + QRect.height R)) P)
    (Float32.scale (QRect.width R) P)
    (Float32.scale (QRect.height R) P).

(** The three derived rectangles agree with the attributes of the scene, as
    [updateGLViewport] and [updateGLSubViewports] compute them: the
    secondary one is taken at the y of the viewport, not at its x. *)
Definition glDerived (s : Q3DScenePrivate) : Prop :=
  let H := sz_height (m_windowSize s) in
  let P := m_devicePixelRatio s in
  let V := m_viewport s in
  m_glViewport s = specGLRect V H P /\
  m_glPrimarySubViewport s
    = offsetGLRect (m_primarySubViewport s) (QRect.x V) (QRect.y V) H P /\
  m_glSecondarySubViewport s
    = offsetGLRect (m_secondarySubViewport s) 0 (QRect.y V) H P.

(** The derived rectangles are placed in the viewport: the one of the
    viewport is the rectangle of the specification, the ones of the two
    sub-viewports are taken at the offset of the viewport.  Of the
    secondary one the left edge is stated for a viewport whose left edge is
    at 0 only; its y, width and height are stated for every viewport. *)
Definition glPlaced (s : Q3DScenePrivate) : Prop :=
  let H := sz_height (m_windowSize s) in
  let P := m_devicePixelRatio s in
  let V := m_viewport s in
  let q := m_secondarySubViewport s in
  m_glViewport s = specGLRect V H P /\
  m_glPrimarySubViewport s
    = offsetGLRect (m_primarySubViewport s) (QRect.x V) (QRect.y V) H P /\
  (QRect.y (m_glSecondarySubViewport s)
     = Float32.scale (H - (QRect.y q + QRect.y V + QRect.height q)) P /\
   QRect.width (m_glSecondarySubViewport s) = Float32.scale (QRect.width q) P /\
   QRect.height (m_glSecondarySubViewport s) = Float32.scale (QRect.height q) P) /\
  (QRect.x V = 0 ->
   m_glSecondarySubViewport s = offsetGLRect q (QRect.x V) (QRect.y V) H P).

(** Every product [updateGLViewport] and [updateGLSubViewports] take on the
    scene can be stored into an [int]. *)
Definition glProductsDefined (s : Q3DScenePrivate) : bool :=
  let H := sz_height (m_windowSize s) in
  let P := m_devicePixelRatio s in
  let V := m_viewport s in
  let p := m_primarySubViewport s in
  let q := m_secondarySubViewport s in
  forallb (fun i => Float32.scale_defined i P)
    [QRect.x V; H - (QRect.y V + QRect.height V); QRect.width V; QRect.height V;
     QRect.x p + QRect.x V; H - (QRect.y p + QRect.y V + QRect.height p);
     QRect.width p; QRect.height p;
     QRect.x q; H - (QRect.y q + QRect.y V + QRect.height q);
     QRect.width q; QRect.height q].

(** The point test of the specification: [p] is strictly inside the
    rectangle [R] moved by the offset of the viewport [V]. *)
Definition strictlyInsideOffset (R V : QRect) (p : QPoint) : bool :=
  (QRect.x V + QRect.x R <? pt_x p)
  && (pt_x p <? QRect.x V + QRect.x R + QRect.width R)
  && (QRect.y V + QRect.y R <? pt_y p)
  && (pt_y p <? QRect.y V + QRect.y R + QRect.height R).

(** Two rectangles are disjoint when no point is in both. *)
Definition disjoint (a b : QRect) : Prop :=
  forall px py, QRect.contains a px py && QRect.contains b px py = false.

(** A scene as constructed, then in a window of 800 x 600 with the viewport
    on the whole window. *)
Definition scene_new : Q3DScenePrivate := Q3DScenePrivate_new 1%positive allChanged true.

Definition scene_800x600 : Q3DScenePrivate :=
  setViewport (QRect.make 0 0 800 600) (setWindowSize (mkSize 800 600) scene_new).

(** A viewport of 3 x 10. *)
Definition scene_3x10 : Q3DScenePrivate :=
  setViewport (QRect.make 0 0 3 10) (setWindowSize (mkSize 3 10) scene_new).

(** A viewport placed at (100, 50) in a window of 1000 x 700, with the
    slice view active. *)
Definition scene_offset : Q3DScenePrivate :=
  setSlicingActive true
    (setViewport (QRect.make 100 50 800 600)
       (setWindowSize (mkSize 1000 700) scene_new)).

(** A viewport placed at (50, 0), the two sub-viewports side by side. *)
Definition scene_side_by_side : Q3DScenePrivate :=
  setSecondarySubViewport (QRect.make 100 0 100 100)
    (setPrimarySubViewport (QRect.make 0 0 100 100)
       (setViewport (QRect.make 50 0 200 100)
          (setWindowSize (mkSize 300 100) scene_new))).

(** The number of connections of a camera signal to [needRender] of a
    scene. *)
Definition countConnections (c : Connection) (w : QObjects) : nat :=
  length (List.filter (Connection_eqb c) (connections w)).

(** No object has a parent, nothing is connected. *)
Definition world_empty : QObjects := mkObjects ∅ [].

(** The scene as constructed, once the camera 2 is its active camera. *)
Definition scene_with_camera : QObjects * Q3DScenePrivate :=
  match setActiveCamera (Some 2%positive) world_empty scene_new with
  | Ok r => r
  | AssertionFailed => (world_empty, scene_new)
  end.

(** The sub-viewports of the default layout, as [calculateSubViewports]
    stores them for a viewport [V]. *)
Definition layoutPrimary (slicing : bool) (V : QRect) : QRect :=
  QRect.intersected
    (if slicing
     then QRect.make 0 0 (Float32.scale (QRect.width V) Float32.c0_2)
            (Float32.scale (QRect.height V) Float32.c0_2)
     else QRect.make 0 0 (QRect.width V) (QRect.height V))
    (QRect.make 0 0 (QRect.width V) (QRect.height V)).

Definition layoutSecondary (slicing : bool) (V : QRect) : QRect :=
  QRect.intersected
    (if slicing
     then QRect.make 0 0 (QRect.width V) (QRect.height V)
     else QRect.make 0 0 0 0)
    (QRect.make 0 0 (QRect.width V) (QRect.height V)).

(** The parts of a scene whose fate under [sync] is followed: the
    attributes, and the dirty bits that no setter of another attribute
    writes. *)
Inductive Part :=
  | AWindowSize | AViewport | AOrder | APrimary | ASecondary | ASelection
  | ASlicing | ARatio | ACamera | ALight
  | BWindowSize | BOrder | BSelection | BCamera | BLight | BSlicing | BRatio.

(** The part [a] has the same value in [o'] as in [o]. *)
Definition kept (a : Part) (o o' : Q3DScenePrivate) : Prop :=
  match a with
  | AWindowSize => m_windowSize o' = m_windowSize o
  | AViewport => m_viewport o' = m_viewport o
  | AOrder => m_isSecondarySubviewOnTop o' = m_isSecondarySubviewOnTop o
  | APrimary => m_primarySubViewport o' = m_primarySubViewport o
  | ASecondary => m_secondarySubViewport o' = m_secondarySubViewport o
  | ASelection => m_selectionQueryPosition o' = m_selectionQueryPosition o
  | ASlicing => m_isSlicingActive o' = m_isSlicingActive o
  | ARatio => m_devicePixelRatio o' = m_devicePixelRatio o
  | ACamera => m_camera o' = m_camera o
  | ALight => m_light o' = m_light o
  | BWindowSize =>
      windowSizeChanged (m_changeTracker o') = windowSizeChanged (m_changeTracker o)
  | BOrder =>
      subViewportOrderChanged (m_changeTracker o')
      = subViewportOrderChanged (m_changeTracker o)
  | BSelection =>
      selectionQueryPositionChanged (m_changeTracker o')
      = selectionQueryPositionChanged (m_changeTracker o)
  | BCamera => cameraChanged (m_changeTracker o') = cameraChanged (m_changeTracker o)
  | BLight => lightChanged (m_changeTracker o') = lightChanged (m_changeTracker o)
  | BSlicing =>
      slicingActivatedChanged (m_changeTracker o')
      = slicingActivatedChanged (m_changeTracker o)
  | BRatio =>
      devicePixelRatioChanged (m_changeTracker o')
      = devicePixelRatioChanged (m_changeTracker o)
  end.

(** From [o] to [o'] only the parts selected by [touched] may differ. *)
Definition modifies (touched : Part -> bool) (o o' : Q3DScenePrivate) : Prop :=
  forall a, touched a = false -> kept a o o'.

(** One block of [sync] seen from the other scene: when the bit of the
    caller is set, the setter runs on the other scene and the bit of the
    other scene is cleared. *)
Definition pushed (flag : bool)
    (bit : bool -> Q3DSceneChangeBitField -> Q3DSceneChangeBitField)
    (setter : Q3DScenePrivate -> Q3DScenePrivate) (other : Q3DScenePrivate)
    : Q3DScenePrivate :=
  if flag then track bit false (setter other) else other.

(** The other scene after [sync], every bit and every value of the caller
    being read as it was before the call. *)
Definition syncedOther (this other : Q3DScenePrivate) : Q3DScenePrivate :=
  let bits := m_changeTracker this in
  let o := pushed (windowSizeChanged bits) set_windowSizeChanged
             (setWindowSize (m_windowSize this)) other in
  let o := pushed (viewportChanged bits) set_viewportChanged
             (setViewport (m_viewport this)) o in
  let o := pushed (subViewportOrderChanged bits) set_subViewportOrderChanged
             (setSecondarySubviewOnTop (m_isSecondarySubviewOnTop this)) o in
  let o := pushed (primarySubViewportChanged bits) set_primarySubViewportChanged
             (setPrimarySubViewport (m_primarySubViewport this)) o in
  let o := pushed (secondarySubViewportChanged bits) set_secondarySubViewportChanged
             (setSecondarySubViewport (m_secondarySubViewport this)) o in
  let o := pushed (selectionQueryPositionChanged bits) set_selectionQueryPositionChanged
             (setSelectionQueryPosition (m_selectionQueryPosition this)) o in
  let o := pushed (cameraChanged bits) set_cameraChanged (fun o => o) o in
  let o := pushed (lightChanged bits) set_lightChanged (fun o => o) o in
  let o := pushed (slicingActivatedChanged bits) set_slicingActivatedChanged
             (setSlicingActive (m_isSlicingActive this)) o in
  let o := pushed (devicePixelRatioChanged bits) set_devicePixelRatioChanged
             (setDevicePixelRatio (m_devicePixelRatio this)) o in
  set_m_sceneDirty false o.



(** The scene of the renderer as constructed, and the two scenes after a
    first [sync] from [scene_800x600]. *)
Definition scene_render : Q3DScenePrivate := Q3DScenePrivate_new 2%positive allChanged true.



(** The parts each block of [sync] may change in the other scene. *)
Definition touched_windowSize (a : Part) : bool :=
  match a with AWindowSize | BWindowSize => true | _ => false end.
Definition touched_viewport (a : Part) : bool :=
  match a with AViewport | APrimary | ASecondary => true | _ => false end.
Definition touched_order (a : Part) : bool :=
  match a with AOrder | BOrder => true | _ => false end.
Definition touched_primary (a : Part) : bool :=
  match a with APrimary => true | _ => false end.
Definition touched_secondary (a : Part) : bool :=
  match a with ASecondary => true | _ => false end.
Definition touched_selection (a : Part) : bool :=
  match a with ASelection | BSelection => true | _ => false end.
Definition touched_camera (a : Part) : bool :=
  match a with BCamera => true | _ => false end.
Definition touched_light (a : Part) : bool :=
  match a with BLight => true | _ => false end.
Definition touched_slicing (a : Part) : bool :=
  match a with ASlicing | BSlicing | APrimary | ASecondary => true | _ => false end.
Definition touched_ratio (a : Part) : bool :=
  match a with ARatio | BRatio => true | _ => false end.



(** A grid of 10 x 10 cells with vectors of integers, every vertex at the
    origin, and its update on the rows 2 and 3 from samples that put the
    vertex of the cell (row, column) at (column, row + column, row). *)
Definition grid_vertex (_ : unit) (_ _ : Z) (row column : Z) : Z * Z * Z :=
  (column, row + column, row).
Definition grid_normal (_ : list (Z * Z * Z)) (_ _ _ _ : Z) : Z * Z * Z := (0, 1, 0).
Definition grid_coarseRowLength (columns : Z) : Z := 2 * columns - 2.

Definition grid10 : SurfaceObject.t (Z * Z * Z) :=
  SurfaceObject.mk 10 10 (replicate 100 (0, 0, 0)) (replicate 100 (0, 1, 0)).

Definition grid10_updated : SurfaceObject.t (Z * Z * Z) :=
  SurfaceObject.updateSmoothRows grid_vertex grid_normal tt 2 4 0 0 grid10.

(** [p] holds on the [n] integers from [w] on. *)
Fixpoint allFrom (n : nat) (w : Z) (p : Z -> bool) : bool :=
  match n with
  | O => true
  | S k => p w && allFrom k (w + 1) p
  end.

(** ** Calls on a scene, and what they keep *)

(** The setters of [Q3DScene] and [Q3DScenePrivate] that work on the scene
    alone, as values, so that a statement can range over all of them. *)
Inductive Setter :=
  | SetViewport (viewport : QRect)
  | SetViewportSize (width height : Z)
  | SetWindowSize (size : QSize)
  | SetPrimarySubViewport (primarySubViewport : QRect)
  | SetSecondarySubViewport (secondarySubViewport : QRect)
  | SetSelectionQueryPosition (point : QPoint)
  | SetSlicingActive (isSlicing : bool)
  | SetSecondarySubviewOnTop (isSecondaryOnTop : bool)
  | SetDevicePixelRatio (pixelRatio : float).

Definition applySetter (c : Setter) (s : Q3DScenePrivate) : Q3DScenePrivate :=
  match c with
  | SetViewport viewport => setViewport viewport s
  | SetViewportSize width height => setViewportSize width height s
  | SetWindowSize size => setWindowSize size s
  | SetPrimarySubViewport r => setPrimarySubViewport r s
  | SetSecondarySubViewport r => setSecondarySubViewport r s
  | SetSelectionQueryPosition point => setSelectionQueryPosition point s
  | SetSlicingActive isSlicing => setSlicingActive isSlicing s
  | SetSecondarySubviewOnTop isSecondaryOnTop => setSecondarySubviewOnTop isSecondaryOnTop s
  | SetDevicePixelRatio pixelRatio => setDevicePixelRatio pixelRatio s
  end.

(** A call on a scene in its world of objects: a setter, or one of the two
    calls that take a pointer and may stop at their assertion. *)
Inductive Call :=
  | CallSetter (c : Setter)
  | SetActiveCamera (camera : ptr)
  | SetActiveLight (light : ptr).

Definition call (c : Call) (x : QObjects * Q3DScenePrivate)
    : Result (QObjects * Q3DScenePrivate) :=
  match c with
  | CallSetter c => Ok (fst x, applySetter c (snd x))
  | SetActiveCamera camera => setActiveCamera camera (fst x) (snd x)
  | SetActiveLight light => setActiveLight light (fst x) (snd x)
  end.

(** The calls of a list one after the other, up to the first assertion that
    fails. *)
Fixpoint run (cs : list Call) (x : QObjects * Q3DScenePrivate)
    : Result (QObjects * Q3DScenePrivate) :=
  match cs with
  | [] => Ok x
  | c :: cs =>
      match call c x with
      | Ok y => run cs y
      | AssertionFailed => AssertionFailed
      end
  end.

(** The call passes the null pointer. *)
Definition passesNull (c : Call) : bool :=
  match c with
  | SetActiveCamera None | SetActiveLight None => true
  | _ => false
  end.

(** [Q3DScene::Q3DScene]: the private part is constructed, then
    [new Q3DCamera(0)] and [new Q3DLight(0)] are made the active camera and
    the active light.  [camera] and [light] are the two objects [new]
    returns. *)
Definition Q3DScene_new (q camera light : objid) (bits : Q3DSceneChangeBitField)
    (dirty : bool) (w : QObjects) : Result (QObjects * Q3DScenePrivate) :=
  match setActiveCamera (Some camera) w (Q3DScenePrivate_new q bits dirty) with
  | Ok (w, s) => setActiveLight (Some light) w s
  | AssertionFailed => AssertionFailed
  end.

(** Every dirty bit set in [a] is set in [b]. *)
Definition bits_le (a b : Q3DSceneChangeBitField) : bool :=
  implb (viewportChanged a) (viewportChanged b)
  && implb (primarySubViewportChanged a) (primarySubViewportChanged b)
  && implb (secondarySubViewportChanged a) (secondarySubViewportChanged b)
  && implb (subViewportOrderChanged a) (subViewportOrderChanged b)
  && implb (cameraChanged a) (cameraChanged b)
  && implb (lightChanged a) (lightChanged b)
  && implb (slicingActivatedChanged a) (slicingActivatedChanged b)
  && implb (devicePixelRatioChanged a) (devicePixelRatioChanged b)
  && implb (selectionQueryPositionChanged a) (selectionQueryPositionChanged b)
  && implb (windowSizeChanged a) (windowSizeChanged b).

(** Some dirty bit is set. *)
Definition anyChange (b : Q3DSceneChangeBitField) : bool :=
  viewportChanged b || primarySubViewportChanged b || secondarySubViewportChanged b
  || subViewportOrderChanged b || cameraChanged b || lightChanged b
  || slicingActivatedChanged b || devicePixelRatioChanged b
  || selectionQueryPositionChanged b || windowSizeChanged b.

(** From [s] to [s'] no dirty bit is cleared, [m_sceneDirty] is not unset,
    and the log of signals is continued. *)
Definition neverCleared (s s' : Q3DScenePrivate) : Prop :=
  bits_le (m_changeTracker s) (m_changeTracker s') = true /\
  implb (m_sceneDirty s) (m_sceneDirty s') = true /\
  exists new, emitted s' = emitted s ++ new.

(** The box [(0, 0, width, height)] of a viewport, to which the
    sub-viewports are clipped. *)
Definition clipBox (V : QRect) : QRect :=
  QRect.make 0 0 (QRect.width V) (QRect.height V).

(** Every point of [r] is a point of the box of [V]. *)
Definition withinBox (r V : QRect) : Prop :=
  forall px py, QRect.contains r px py = true -> QRect.contains (clipBox V) px py = true.

(** Both sub-viewports of the scene lie in the box of its viewport. *)
Definition subViewportsClipped (s : Q3DScenePrivate) : Prop :=
  withinBox (m_primarySubViewport s) (m_viewport s) /\
  withinBox (m_secondarySubViewport s) (m_viewport s).

(** The signals [setPrimarySubViewport] and [setSecondarySubViewport] emit
    when the stored rectangle [old] is replaced by [new]. *)
Definition subViewportSignals (sig : QRect -> Signal.t) (old new : QRect)
    : list Signal.t :=
  if QRect.eqb old new then [] else [sig new; Signal.needRender].

(** The signals of [calculateSubViewports] on a scene with the viewport
    [V] and the sub-viewports [p] and [q], in the slice view or not. *)
Definition layoutSignals (slicing : bool) (V p q : QRect) : list Signal.t :=
  subViewportSignals Signal.primarySubViewportChanged p (layoutPrimary slicing V)
  ++ subViewportSignals Signal.secondarySubViewportChanged q (layoutSecondary slicing V)
  ++ [Signal.viewportChanged V].

(** The three signals of the active camera, and of no other object, are
    connected to [needRender] of the scene, once each. *)
Definition connectedOnce (w : QObjects) (s : Q3DScenePrivate) : Prop :=
  forall o sig,
    countConnections (mkConn o sig (q_ptr s)) w
    = if ptr_eqb (Some o) (m_camera s) then 1%nat else 0%nat.

(** The scene has a camera and a light, both children of the scene. *)
Definition hasCameraAndLight (w : QObjects) (s : Q3DScenePrivate) : Prop :=
  (exists c, m_camera s = Some c /\ parent c w = Some (q_ptr s)) /\
  (exists l, m_light s = Some l /\ parent l w = Some (q_ptr s)).

(** Two scenes that differ in their logs of signals at most. *)
Definition sameButLog (a b : Q3DScenePrivate) : Prop :=
  set_emitted [] a = set_emitted [] b.

(** Example scenes: a scene with every attribute set by its user, and a
    freshly constructed scene with the camera 2 and the light 3. *)
Definition scene_user : Q3DScenePrivate :=
  setSelectionQueryPosition (mkPoint 10 20)
    (setSecondarySubviewOnTop false
       (setDevicePixelRatio Float32.two scene_offset)).

Definition scene_constructed : Result (QObjects * Q3DScenePrivate) :=
  Q3DScene_new 1%positive 2%positive 3%positive allChanged true world_empty.

Definition calls_example : list Call :=
  [CallSetter (SetWindowSize (mkSize 800 600));
   CallSetter (SetViewport (QRect.make 0 0 800 600));
   SetActiveCamera (Some 4%positive);
   CallSetter (SetSlicingActive true);
   SetActiveLight (Some 5%positive);
   CallSetter (SetPrimarySubViewport (QRect.make 700 500 400 300));
   SetActiveCamera (Some 2%positive)].

(** The world and the scene after these calls on the scene as constructed. *)
Definition scene_after_calls : QObjects * Q3DScenePrivate :=
  match run calls_example (world_empty, scene_new) with
  | Ok y => y
  | AssertionFailed => (world_empty, scene_new)
  end.

(** The setter passes a NaN as pixel ratio. *)
Definition passesNaN (c : Setter) : bool :=
  match c with
  | SetDevicePixelRatio S754_nan => true
  | _ => false
  end.

(** The sub-viewports of the scene are the ones of the default layout. *)
Definition defaultLayout (s : Q3DScenePrivate) : bool :=
  QRect.eqb (m_primarySubViewport s) (layoutPrimary (m_isSlicingActive s) (m_viewport s))
  && QRect.eqb (m_secondarySubViewport s)
       (layoutSecondary (m_isSlicingActive s) (m_viewport s)).

(** The viewport and the two sub-viewports of [t] are those of [s]. *)
Definition sameGeometry (s t : Q3DScenePrivate) : Prop :=
  m_viewport t = m_viewport s /\
  m_primarySubViewport t = m_primarySubViewport s /\
  m_secondarySubViewport t = m_secondarySubViewport s.

(** The world and the scene the constructor returns for the scene 1 with
    the new camera 2 and the new light 3, and after [calls_example]. *)
Definition scene_built : QObjects * Q3DScenePrivate :=
  match scene_constructed with
  | Ok y => y
  | AssertionFailed => (world_empty, scene_new)
  end.

Definition scene_built_after_calls : QObjects * Q3DScenePrivate :=
  match run calls_example (fst scene_built, snd scene_built) with
  | Ok y => y
  | AssertionFailed => scene_built
  end.

(** The setters of a list one after the other. *)
Definition applySetters (cs : list Setter) (s : Q3DScenePrivate) : Q3DScenePrivate :=
  foldl (fun s c => applySetter c s) s cs.

(** Two pixel ratios agree when they are the same float or compare equal
    (the two zeros do). *)
Definition ratioAgrees (a b : float) : Prop := a = b \/ Float32.eqb a b = true.

(** Every attribute of [s] that [sync] copies by its value has its dirty
    bit set or the value it has in [o]. *)
Definition flaggedOrEqual (s o : Q3DScenePrivate) : Prop :=
  (windowSizeChanged (m_changeTracker s) = true \/ m_windowSize s = m_windowSize o) /\
  (viewportChanged (m_changeTracker s) = true \/ m_viewport s = m_viewport o) /\
  (subViewportOrderChanged (m_changeTracker s) = true
   \/ m_isSecondarySubviewOnTop s = m_isSecondarySubviewOnTop o) /\
  (selectionQueryPositionChanged (m_changeTracker s) = true
   \/ m_selectionQueryPosition s = m_selectionQueryPosition o) /\
  (slicingActivatedChanged (m_changeTracker s) = true
   \/ m_isSlicingActive s = m_isSlicingActive o) /\
  (devicePixelRatioChanged (m_changeTracker s) = true
   \/ ratioAgrees (m_devicePixelRatio o) (m_devicePixelRatio s)).

(** The scene [o] has the window size, the viewport, the sub-viewport
    order, the selection position, the slicing mode and the pixel ratio of
    [s]. *)
Definition mirrors (s o : Q3DScenePrivate) : Prop :=
  m_windowSize o = m_windowSize s /\
  m_viewport o = m_viewport s /\
  m_isSecondarySubviewOnTop o = m_isSecondarySubviewOnTop s /\
  m_selectionQueryPosition o = m_selectionQueryPosition s /\
  m_isSlicingActive o = m_isSlicingActive s /\
  ratioAgrees (m_devicePixelRatio o) (m_devicePixelRatio s).

(** From [s] to [t], every one of these attributes is the same or has its
    dirty bit set in [t]. *)
Definition changesFlagged (s t : Q3DScenePrivate) : Prop :=
  (m_windowSize t = m_windowSize s \/ windowSizeChanged (m_changeTracker t) = true) /\
  (m_viewport t = m_viewport s \/ viewportChanged (m_changeTracker t) = true) /\
  (m_isSecondarySubviewOnTop t = m_isSecondarySubviewOnTop s
   \/ subViewportOrderChanged (m_changeTracker t) = true) /\
  (m_selectionQueryPosition t = m_selectionQueryPosition s
   \/ selectionQueryPositionChanged (m_changeTracker t) = true) /\
  (m_isSlicingActive t = m_isSlicingActive s
   \/ slicingActivatedChanged (m_changeTracker t) = true) /\
  (m_devicePixelRatio t = m_devicePixelRatio s
   \/ devicePixelRatioChanged (m_changeTracker t) = true).

(** Setters called by the user of a scene. *)
Definition setters_example : list Setter :=
  [SetWindowSize (mkSize 1000 700); SetViewport (QRect.make 100 50 800 600);
   SetDevicePixelRatio Float32.two; SetSlicingActive true;
   SetSelectionQueryPosition (mkPoint 10 20); SetViewportSize 640 480].

(** The scene as constructed once its window size and its viewport are
    set. *)
Definition scene_plain : Q3DScenePrivate :=
  applySetter (SetViewport (QRect.make 0 0 800 600))
    (applySetter (SetWindowSize (mkSize 800 600)) scene_new).

(** * Properties *)

(** ** Rectangles *)

(** Case analysis on the integer comparisons of a goal, one at a time;
    the impossible cases are closed as they appear. *)
Ltac zcase :=
  match goal with
  | |- context [ (?a >? ?b) ] => rewrite (Z.gtb_ltb a b)
  | |- context [ (?a <? ?b) ] => destruct (Z.ltb_spec a b)
  | |- context [ (?a <=? ?b) ] => destruct (Z.leb_spec a b)
  | |- context [ (?a =? ?b) ] => destruct (Z.eqb_spec a b)
  end.
Ltac zcases := repeat (zcase; cbn [andb orb negb]; try lia; try reflexivity).

Lemma QRect_eqb_eq (a b : QRect) : QRect.eqb a b = true <-> a = b.
Proof.
  destruct a, b; unfold QRect.eqb; cbn. split.
  - rewrite !andb_true_iff, !Z.eqb_eq. intros [[[-> ->] ->] ->]. reflexivity.
  - intros [= -> -> -> ->]. rewrite !Z.eqb_refl. reflexivity.
Qed.

Lemma QRect_eqb_refl (a : QRect) : QRect.eqb a a = true.
Proof. apply QRect_eqb_eq. reflexivity. Qed.

Lemma span_order (a b : Z) : span_lo a b <= span_hi a b + 1.
Proof. unfold span_lo, span_hi. zcases. Qed.

Lemma span_plain (a b : Z) : a - 1 <= b -> span_lo a b = a /\ span_hi a b = b.
Proof. unfold span_lo, span_hi. zcases. Qed.

Lemma contains_span (r : QRect) (px py : Z) :
  QRect.contains r px py = true <->
  (span_lo (QRect.x1 r) (QRect.x2 r) <= px <= span_hi (QRect.x1 r) (QRect.x2 r)) /\
  (span_lo (QRect.y1 r) (QRect.y2 r) <= py <= span_hi (QRect.y1 r) (QRect.y2 r)).
Proof.
  destruct r as [a b c d]. unfold QRect.contains, span_lo, span_hi.
  cbn [QRect.x1 QRect.x2 QRect.y1 QRect.y2].
  destruct (Z.ltb_spec c (a - 1)), (Z.ltb_spec d (b - 1)); zcases;
    split; try discriminate; try lia; reflexivity.
Qed.

Lemma intersected_span (a r : QRect) :
  QRect.intersected a r =
  let l1 := span_lo (QRect.x1 a) (QRect.x2 a) in
  let r1 := span_hi (QRect.x1 a) (QRect.x2 a) in
  let l2 := span_lo (QRect.x1 r) (QRect.x2 r) in
  let r2 := span_hi (QRect.x1 r) (QRect.x2 r) in
  let t1 := span_lo (QRect.y1 a) (QRect.y2 a) in
  let b1 := span_hi (QRect.y1 a) (QRect.y2 a) in
  let t2 := span_lo (QRect.y1 r) (QRect.y2 r) in
  let b2 := span_hi (QRect.y1 r) (QRect.y2 r) in
  if QRect.isNull a || QRect.isNull r then QRect.null
  else if (l1 >? r2) || (l2 >? r1) then QRect.null
  else if (t1 >? b2) || (t2 >? b1) then QRect.null
  else QRect.mk (Z.max l1 l2) (Z.max t1 t2) (Z.min r1 r2) (Z.min b1 b2).
Proof.
  destruct a as [a1 a2 a3 a4], r as [c1 c2 c3 c4].
  unfold QRect.intersected, span_lo, span_hi.
  cbn [QRect.x1 QRect.x2 QRect.y1 QRect.y2].
  destruct (Z.ltb_spec (a3 - a1 + 1) 0), (Z.ltb_spec a3 (a1 - 1)); try lia;
  destruct (Z.ltb_spec (c3 - c1 + 1) 0), (Z.ltb_spec c3 (c1 - 1)); try lia;
  destruct (Z.ltb_spec (a4 - a2 + 1) 0), (Z.ltb_spec a4 (a2 - 1)); try lia;
  destruct (Z.ltb_spec (c4 - c2 + 1) 0), (Z.ltb_spec c4 (c2 - 1)); try lia;
  reflexivity.
Qed.

(** [intersected] is the intersection of the two sets of points. *)
Lemma intersected_contains (a r : QRect) (px py : Z) :
  QRect.contains (QRect.intersected a r) px py
  = QRect.contains a px py && QRect.contains r px py.
Proof.
  apply eq_iff_eq_true. rewrite andb_true_iff, !contains_span, intersected_span.
  pose proof (span_order (QRect.x1 a) (QRect.x2 a)).
  pose proof (span_order (QRect.x1 r) (QRect.x2 r)).
  pose proof (span_order (QRect.y1 a) (QRect.y2 a)).
  pose proof (span_order (QRect.y1 r) (QRect.y2 r)).
  pose proof (span_plain (QRect.x1 a) (QRect.x2 a)).
  pose proof (span_plain (QRect.x1 r) (QRect.x2 r)).
  pose proof (span_plain (QRect.y1 a) (QRect.y2 a)).
  pose proof (span_plain (QRect.y1 r) (QRect.y2 r)).
  cbv zeta. unfold QRect.isNull.
  generalize dependent (span_lo (QRect.x1 a) (QRect.x2 a)).
  generalize dependent (span_hi (QRect.x1 a) (QRect.x2 a)).
  generalize dependent (span_lo (QRect.x1 r) (QRect.x2 r)).
  generalize dependent (span_hi (QRect.x1 r) (QRect.x2 r)).
  generalize dependent (span_lo (QRect.y1 a) (QRect.y2 a)).
  generalize dependent (span_hi (QRect.y1 a) (QRect.y2 a)).
  generalize dependent (span_lo (QRect.y1 r) (QRect.y2 r)).
  generalize dependent (span_hi (QRect.y1 r) (QRect.y2 r)).
  intros.
  repeat (zcase; cbn [andb orb negb]);
    cbn [QRect.null QRect.x1 QRect.x2 QRect.y1 QRect.y2];
    try (change (span_lo 0 (-1)) with 0; change (span_hi 0 (-1)) with (-1); lia).
  all: match goal with
       | |- context [span_lo (Z.max ?a ?b) (Z.min ?c ?d)] =>
           destruct (span_plain (Z.max a b) (Z.min c d)) as [-> ->]; [lia|]
       end.
  all: match goal with
       | |- context [span_lo (Z.max ?a ?b) (Z.min ?c ?d)] =>
           destruct (span_plain (Z.max a b) (Z.min c d)) as [-> ->]; [lia|]
       end.
  all: lia.
Qed.

(** The clipped rectangle lies in the box [(0, 0, w, h)] it is clipped to. *)
Lemma intersected_within (R : QRect) (w h : Z) :
  0 <= w -> 0 <= h ->
  let c := QRect.intersected R (QRect.make 0 0 w h) in
  (0 <= QRect.x c /\ 0 <= QRect.width c /\ QRect.x c + QRect.width c <= w) /\
  (0 <= QRect.y c /\ 0 <= QRect.height c /\ QRect.y c + QRect.height c <= h).
Proof.
  intros Hw Hh c. subst c. rewrite intersected_span.
  unfold QRect.make, QRect.x, QRect.y, QRect.width, QRect.height.
  cbn [QRect.x1 QRect.x2 QRect.y1 QRect.y2].
  destruct (span_plain 0 (0 + w - 1)) as [-> ->]; [lia|].
  destruct (span_plain 0 (0 + h - 1)) as [-> ->]; [lia|].
  pose proof (span_order (QRect.x1 R) (QRect.x2 R)).
  pose proof (span_order (QRect.y1 R) (QRect.y2 R)).
  generalize dependent (span_lo (QRect.x1 R) (QRect.x2 R)).
  generalize dependent (span_hi (QRect.x1 R) (QRect.x2 R)).
  generalize dependent (span_lo (QRect.y1 R) (QRect.y2 R)).
  generalize dependent (span_hi (QRect.y1 R) (QRect.y2 R)).
  intros. cbv zeta.
  destruct (QRect.isNull R || QRect.isNull _); [cbn; lia|].
  repeat (zcase; cbn [andb orb negb]); cbn; lia.
Qed.

(** A rectangle of positive size inside the box is not changed by the
    clipping. *)
Lemma intersected_inside (w' h' w h : Z) :
  0 < w' <= w -> 0 < h' <= h ->
  QRect.intersected (QRect.make 0 0 w' h') (QRect.make 0 0 w h) = QRect.make 0 0 w' h'.
Proof.
  intros Hw Hh. unfold QRect.intersected, QRect.isNull, QRect.make.
  cbn [QRect.x1 QRect.x2 QRect.y1 QRect.y2].
  zcases. f_equal; lia.
Qed.

(** A rectangle at the origin that is empty in one direction is clipped to
    the null rectangle. *)
Lemma intersected_empty (w' h' w h : Z) :
  0 <= w' -> 0 <= h' -> w' = 0 \/ h' = 0 -> 0 < w -> 0 < h ->
  QRect.intersected (QRect.make 0 0 w' h') (QRect.make 0 0 w h) = QRect.null.
Proof.
  intros Hw' Hh' H0 Hw Hh. unfold QRect.intersected, QRect.isNull, QRect.make.
  cbn [QRect.x1 QRect.x2 QRect.y1 QRect.y2].
  zcases; try reflexivity; lia.
Qed.

Lemma intersected_null_l (r : QRect) : QRect.intersected (QRect.make 0 0 0 0) r = QRect.null.
Proof. reflexivity. Qed.

(** ** Sub-viewports *)

(** Takes a scene and its dirty bits apart. *)
Ltac open_scene s :=
  let t := fresh "bits" in
  destruct s as [? t ? ? ? ? ? ? ? ? ? ? ? ? ? ? ? ?]; destruct t.

#[local] Arguments Float32.scale : simpl never.
#[local] Arguments QRect.intersected : simpl never.
#[local] Arguments QRect.make : simpl never.

Lemma setPrimarySubViewport_stored (R : QRect) (s : Q3DScenePrivate) :
  m_primarySubViewport (setPrimarySubViewport R s)
  = QRect.intersected R
      (QRect.make 0 0 (QRect.width (m_viewport s)) (QRect.height (m_viewport s))).
Proof.
  destruct s. unfold setPrimarySubViewport.
  destruct (QRect.eqb _ _) eqn:E; cbn; [|reflexivity].
  apply QRect_eqb_eq in E. exact E.
Qed.

Lemma setSecondarySubViewport_stored (R : QRect) (s : Q3DScenePrivate) :
  m_secondarySubViewport (setSecondarySubViewport R s)
  = QRect.intersected R
      (QRect.make 0 0 (QRect.width (m_viewport s)) (QRect.height (m_viewport s))).
Proof.
  destruct s. unfold setSecondarySubViewport.
  destruct (QRect.eqb _ _) eqn:E; cbn; [|reflexivity].
  apply QRect_eqb_eq in E. exact E.
Qed.

Lemma QRect_eqb_neq (a b : QRect) : a <> b -> QRect.eqb a b = false.
Proof.
  intros H. destruct (QRect.eqb a b) eqn:E; [|reflexivity].
  apply QRect_eqb_eq in E. contradiction.
Qed.

(** C2. For every viewport and every rectangle [R], [setPrimarySubViewport]
    and [setSecondarySubViewport] store the intersection of [R] with the box
    [(0, 0, viewport width, viewport height)]: the stored rectangle holds
    exactly the points of both, no point outside the box, and it lies
    within the bounds of the box when the viewport has no negative size.
    The setters return a scene for every [R] (there is no failure), and
    they return the scene unchanged, with no dirty bit and no signal, when
    the clipped rectangle is the stored one; otherwise the dirty bit is set
    and the change is signalled. *)
Theorem C2_setSubViewport_clips (R : QRect) (s : Q3DScenePrivate) :
  let V := m_viewport s in
  let box := QRect.make 0 0 (QRect.width V) (QRect.height V) in
  let clipped := QRect.intersected R box in
  (m_primarySubViewport (setPrimarySubViewport R s) = clipped /\
   m_secondarySubViewport (setSecondarySubViewport R s) = clipped) /\
  (forall px py,
     QRect.contains clipped px py = QRect.contains R px py && QRect.contains box px py) /\
  (forall px py, QRect.contains clipped px py = true -> QRect.contains box px py = true) /\
  (0 <= QRect.width V -> 0 <= QRect.height V ->
     (0 <= QRect.x clipped /\ 0 <= QRect.width clipped /\
      QRect.x clipped + QRect.width clipped <= QRect.width V) /\
     (0 <= QRect.y clipped /\ 0 <= QRect.height clipped /\
      QRect.y clipped + QRect.height clipped <= QRect.height V)) /\
  (m_primarySubViewport s = clipped -> setPrimarySubViewport R s = s) /\
  (m_secondarySubViewport s = clipped -> setSecondarySubViewport R s = s) /\
  (m_primarySubViewport s <> clipped ->
     primarySubViewportChanged (m_changeTracker (setPrimarySubViewport R s)) = true /\
     emitted (setPrimarySubViewport R s)
     = emitted s ++ [Signal.primarySubViewportChanged clipped; Signal.needRender]) /\
  (m_secondarySubViewport s <> clipped ->
     secondarySubViewportChanged (m_changeTracker (setSecondarySubViewport R s)) = true /\
     emitted (setSecondarySubViewport R s)
     = emitted s ++ [Signal.secondarySubViewportChanged clipped; Signal.needRender]).
Proof.
  intros V box clipped.
  split; [split; [apply setPrimarySubViewport_stored|apply setSecondarySubViewport_stored]|].
  split; [intros; apply intersected_contains|].
  split.
  { intros px py H. unfold clipped in H. rewrite intersected_contains in H.
    apply andb_true_iff in H. tauto. }
  split; [intros; apply intersected_within; assumption|].
  split.
  { intros H. unfold setPrimarySubViewport. fold V. fold box. fold clipped.
    rewrite H, QRect_eqb_refl. reflexivity. }
  split.
  { intros H. unfold setSecondarySubViewport. fold V. fold box. fold clipped.
    rewrite H, QRect_eqb_refl. reflexivity. }
  split.
  - intros H. unfold setPrimarySubViewport. fold V. fold box. fold clipped.
    rewrite (QRect_eqb_neq _ _ H). clearbody clipped. clear. open_scene s. cbn.
    rewrite <- app_assoc. split; reflexivity.
  - intros H. unfold setSecondarySubViewport. fold V. fold box. fold clipped.
    rewrite (QRect_eqb_neq _ _ H). clearbody clipped. clear. open_scene s. cbn.
    rewrite <- app_assoc. split; reflexivity.
Qed.

(** A rectangle that reaches beyond the viewport (0,0,800,600) is cut to
    the part inside; one that covers the whole viewport changes nothing. *)
Lemma C2_setSubViewport_clips_witness :
  let R := QRect.make 700 500 200 200 in
  (m_primarySubViewport (setPrimarySubViewport R scene_800x600)
   = QRect.make 700 500 100 100 /\
   secondarySubViewportChanged
     (m_changeTracker (setSecondarySubViewport R scene_800x600)) = true) /\
  setPrimarySubViewport (QRect.make (-10) (-10) 900 700) scene_800x600 = scene_800x600 /\
  QRect.x (QRect.intersected R (QRect.make 0 0 800 600))
  + QRect.width (QRect.intersected R (QRect.make 0 0 800 600)) <= 800.
Proof.
  intros R.
  destruct (C2_setSubViewport_clips R scene_800x600)
    as ([Hp _] & _ & _ & Hbox & _ & _ & _ & Hchg).
  destruct (C2_setSubViewport_clips (QRect.make (-10) (-10) 900 700) scene_800x600)
    as (_ & _ & _ & _ & Hsame & _).
  split; [split|split].
  - rewrite Hp. vm_compute. reflexivity.
  - apply Hchg. vm_compute. discriminate.
  - apply Hsame. vm_compute. reflexivity.
  - apply Hbox; vm_compute; discriminate.
Defined.

(** ** The layout for the slice view *)

(** Unfolds an operation of the scene and takes its conditions apart;
    closes the goals that say a member is left as it is. *)
Ltac frame :=
  intros;
  repeat match goal with s : Q3DScenePrivate |- _ => open_scene s end;
  unfold setSlicingActive, setViewport, setViewportSize, calculateSubViewports,
    setWindowSize, setDevicePixelRatio, setSecondarySubviewOnTop,
    setSelectionQueryPosition, setPrimarySubViewport, setSecondarySubViewport;
  repeat match goal with
         | |- context [if ?c then _ else _] => destruct c
         end;
  reflexivity.

Lemma setPrimarySubViewport_viewport R s :
  m_viewport (setPrimarySubViewport R s) = m_viewport s.
Proof. frame. Qed.

Lemma setSecondarySubViewport_viewport R s :
  m_viewport (setSecondarySubViewport R s) = m_viewport s.
Proof. frame. Qed.

Lemma setSecondarySubViewport_primary R s :
  m_primarySubViewport (setSecondarySubViewport R s) = m_primarySubViewport s.
Proof. frame. Qed.

Lemma setPrimarySubViewport_secondary R s :
  m_secondarySubViewport (setPrimarySubViewport R s) = m_secondarySubViewport s.
Proof. frame. Qed.

Lemma setPrimarySubViewport_slicing R s :
  m_isSlicingActive (setPrimarySubViewport R s) = m_isSlicingActive s.
Proof. frame. Qed.

#[local] Arguments setPrimarySubViewport : simpl never.
#[local] Arguments setSecondarySubViewport : simpl never.
#[local] Arguments calculateSubViewports : simpl never.

Lemma updateGLViewport_primary s :
  m_primarySubViewport (updateGLViewport s) = m_primarySubViewport s.
Proof. destruct s. reflexivity. Qed.

Lemma updateGLViewport_secondary s :
  m_secondarySubViewport (updateGLViewport s) = m_secondarySubViewport s.
Proof. destruct s. reflexivity. Qed.

(** The sub-viewports [calculateSubViewports] asks for, before clipping. *)
Lemma calculateSubViewports_primary s :
  m_primarySubViewport (calculateSubViewports s) =
  QRect.intersected
    (if m_isSlicingActive s
     then QRect.make 0 0 (Float32.scale (QRect.width (m_viewport s)) Float32.c0_2)
            (Float32.scale (QRect.height (m_viewport s)) Float32.c0_2)
     else QRect.make 0 0 (QRect.width (m_viewport s)) (QRect.height (m_viewport s)))
    (QRect.make 0 0 (QRect.width (m_viewport s)) (QRect.height (m_viewport s))).
Proof.
  unfold calculateSubViewports. rewrite updateGLViewport_primary.
  destruct (m_isSlicingActive s);
    rewrite setSecondarySubViewport_primary, setPrimarySubViewport_stored; reflexivity.
Qed.

Lemma calculateSubViewports_secondary s :
  m_secondarySubViewport (calculateSubViewports s) =
  QRect.intersected
    (if m_isSlicingActive s
     then QRect.make 0 0 (QRect.width (m_viewport s)) (QRect.height (m_viewport s))
     else QRect.make 0 0 0 0)
    (QRect.make 0 0 (QRect.width (m_viewport s)) (QRect.height (m_viewport s))).
Proof.
  unfold calculateSubViewports. rewrite updateGLViewport_secondary.
  destruct (m_isSlicingActive s);
    rewrite setSecondarySubViewport_stored, !setPrimarySubViewport_viewport; reflexivity.
Qed.

Lemma allFrom_spec (n : nat) (w : Z) (p : Z -> bool) :
  allFrom n w p = true -> forall x, w <= x < w + Z.of_nat n -> p x = true.
Proof.
  revert w. induction n as [|n IH]; intros w H x Hx; [lia|].
  cbn [allFrom] in H. apply andb_true_iff in H as [Hw Hrest].
  destruct (Z.eq_dec x w) as [->|Hne]; [exact Hw|].
  apply (IH (w + 1) Hrest). lia.
Qed.

(** The product with [0.2f], cut to an [int], is the fifth of the size for
    every size below 65536. *)
Lemma scale_fifth_checked :
  allFrom (Z.to_nat 65536) 0 (fun w => Float32.scale w Float32.c0_2 =? w / 5) = true.
Proof. vm_compute. reflexivity. Qed.

Lemma scale_fifth (w : Z) : 0 <= w < 65536 -> Float32.scale w Float32.c0_2 = w / 5.
Proof.
  intros Hw. apply Z.eqb_eq.
  apply (allFrom_spec (Z.to_nat 65536) 0
           (fun w => Float32.scale w Float32.c0_2 =? w / 5) scale_fifth_checked).
  rewrite Z2Nat.id; lia.
Qed.

(** The sub-viewports after a change of the slicing flag. *)
Lemma setSlicingActive_changed (b : bool) (s : Q3DScenePrivate) :
  m_isSlicingActive s = negb b ->
  setSlicingActive b s =
  emit Signal.needRender
    (emit (Signal.slicingActiveChanged b)
       (calculateSubViewports
          (set_m_sceneDirty true
             (track set_slicingActivatedChanged true (set_m_isSlicingActive b s))))).
Proof.
  intros H. unfold setSlicingActive. rewrite H. destruct b; reflexivity.
Qed.

Lemma emit_primary sig s : m_primarySubViewport (emit sig s) = m_primarySubViewport s.
Proof. destruct s. reflexivity. Qed.

Lemma emit_secondary sig s :
  m_secondarySubViewport (emit sig s) = m_secondarySubViewport s.
Proof. destruct s. reflexivity. Qed.

Lemma setSlicingActive_primary (b : bool) (s : Q3DScenePrivate) :
  m_isSlicingActive s = negb b ->
  m_primarySubViewport (setSlicingActive b s) =
  QRect.intersected
    (if b
     then QRect.make 0 0 (Float32.scale (QRect.width (m_viewport s)) Float32.c0_2)
            (Float32.scale (QRect.height (m_viewport s)) Float32.c0_2)
     else QRect.make 0 0 (QRect.width (m_viewport s)) (QRect.height (m_viewport s)))
    (QRect.make 0 0 (QRect.width (m_viewport s)) (QRect.height (m_viewport s))).
Proof.
  intros H. rewrite (setSlicingActive_changed b s H), !emit_primary.
  rewrite calculateSubViewports_primary. destruct s. reflexivity.
Qed.

Lemma setSlicingActive_secondary (b : bool) (s : Q3DScenePrivate) :
  m_isSlicingActive s = negb b ->
  m_secondarySubViewport (setSlicingActive b s) =
  QRect.intersected
    (if b
     then QRect.make 0 0 (QRect.width (m_viewport s)) (QRect.height (m_viewport s))
     else QRect.make 0 0 0 0)
    (QRect.make 0 0 (QRect.width (m_viewport s)) (QRect.height (m_viewport s))).
Proof.
  intros H. rewrite (setSlicingActive_changed b s H), !emit_secondary.
  rewrite calculateSubViewports_secondary. destruct s. reflexivity.
Qed.

(** C4, as amended.  On a viewport of positive width and height, entering
    the slice view ([setSlicingActive true] on a scene where it is off)
    stores the whole box of the viewport as secondary sub-viewport, and as
    primary sub-viewport the rectangle at the origin whose width and height
    are the products of the viewport's width and height with [0.2f],
    clipped to the box.  That is this rectangle itself when both products
    are positive and not above the viewport's size; for widths and heights
    below 65536 the products are the fifths, rounded down, so the primary
    sub-viewport is [(0, 0, width / 5, height / 5)] when both sizes are at
    least 5, and the null rectangle when one of them is below 5.  Leaving
    the slice view stores the whole box as primary and the empty rectangle
    (0,0,0,0) as secondary sub-viewport. *)
Theorem C4_slicing_layout (s : Q3DScenePrivate) :
  let vw := QRect.width (m_viewport s) in
  let vh := QRect.height (m_viewport s) in
  let pw := Float32.scale vw Float32.c0_2 in
  let ph := Float32.scale vh Float32.c0_2 in
  0 < vw -> 0 < vh ->
  (m_isSlicingActive s = false ->
     m_secondarySubViewport (setSlicingActive true s) = QRect.make 0 0 vw vh /\
     m_primarySubViewport (setSlicingActive true s)
     = QRect.intersected (QRect.make 0 0 pw ph) (QRect.make 0 0 vw vh) /\
     (0 < pw <= vw -> 0 < ph <= vh ->
        m_primarySubViewport (setSlicingActive true s) = QRect.make 0 0 pw ph) /\
     (5 <= vw < 65536 -> 5 <= vh < 65536 ->
        m_primarySubViewport (setSlicingActive true s)
        = QRect.make 0 0 (vw / 5) (vh / 5)) /\
     (vw < 65536 -> vh < 65536 -> vw < 5 \/ vh < 5 ->
        m_primarySubViewport (setSlicingActive true s) = QRect.null)) /\
  (m_isSlicingActive s = true ->
     m_primarySubViewport (setSlicingActive false s) = QRect.make 0 0 vw vh /\
     m_secondarySubViewport (setSlicingActive false s) = QRect.make 0 0 0 0).
Proof.
  intros vw vh pw ph Hvw Hvh. split.
  - intros Hs.
    rewrite setSlicingActive_primary, setSlicingActive_secondary by exact Hs.
    fold vw vh. fold pw ph.
    split; [apply intersected_inside; lia|]. split; [reflexivity|].
    split; [|split].
    + intros Hpw Hph. apply intersected_inside; lia.
    + intros Hw Hh.
      assert (pw = vw / 5) as Epw by (apply scale_fifth; lia).
      assert (ph = vh / 5) as Eph by (apply scale_fifth; lia).
      rewrite Epw, Eph. apply intersected_inside.
      * split; [apply Z.div_str_pos; lia|]. apply Z.div_le_upper_bound; lia.
      * split; [apply Z.div_str_pos; lia|]. apply Z.div_le_upper_bound; lia.
    + intros Hw Hh Hsmall.
      assert (pw = vw / 5) as Epw by (apply scale_fifth; lia).
      assert (ph = vh / 5) as Eph by (apply scale_fifth; lia).
      rewrite Epw, Eph. apply intersected_empty; try lia.
      * apply Z.div_pos; lia.
      * apply Z.div_pos; lia.
      * destruct Hsmall as [H5|H5]; [left|right]; apply Z.div_small; lia.
  - intros Hs.
    rewrite setSlicingActive_primary, setSlicingActive_secondary by exact Hs.
    fold vw vh. rewrite intersected_inside by lia. split; reflexivity.
Qed.

(** The example of the specification: the viewport (0,0,800,600); and the
    secondary sub-viewport on a viewport of 3 x 10. *)
Lemma C4_slicing_layout_witness :
  m_primarySubViewport (setSlicingActive true scene_800x600) = QRect.make 0 0 160 120 /\
  m_secondarySubViewport (setSlicingActive true scene_800x600) = QRect.make 0 0 800 600 /\
  m_primarySubViewport (setSlicingActive false (setSlicingActive true scene_800x600))
  = QRect.make 0 0 800 600 /\
  m_secondarySubViewport (setSlicingActive false (setSlicingActive true scene_800x600))
  = QRect.make 0 0 0 0 /\
  m_secondarySubViewport (setSlicingActive true scene_3x10) = QRect.make 0 0 3 10 /\
  m_primarySubViewport (setSlicingActive true scene_3x10) = QRect.null.
Proof.
  destruct (C4_slicing_layout scene_800x600) as (Hin & _);
    [vm_compute; reflexivity | vm_compute; reflexivity |].
  destruct (C4_slicing_layout (setSlicingActive true scene_800x600)) as (_ & Hout);
    [vm_compute; reflexivity | vm_compute; reflexivity |].
  destruct (C4_slicing_layout scene_3x10) as (Hsmall & _);
    [vm_compute; reflexivity | vm_compute; reflexivity |].
  destruct Hin as (Hs & _ & _ & Hp & _); [vm_compute; reflexivity|].
  destruct Hout as [Hp' Hs']; [vm_compute; reflexivity|].
  destruct Hsmall as (Hs3 & _ & _ & _ & Hp3); [vm_compute; reflexivity|].
  split; [|split; [|split; [|split; [|split]]]].
  - rewrite Hp; [vm_compute; reflexivity|vm_compute; split; [discriminate|reflexivity]..].
  - rewrite Hs. vm_compute. reflexivity.
  - rewrite Hp'. vm_compute. reflexivity.
  - rewrite Hs'. vm_compute. reflexivity.
  - rewrite Hs3. vm_compute. reflexivity.
  - apply Hp3; [vm_compute; reflexivity..|left; vm_compute; reflexivity].
Defined.

(** C4 as it is written fails on a viewport of 3 x 10: a fifth of the
    height is 2, and the stored primary sub-viewport is the null rectangle,
    of height 0. *)
Lemma C4_counterexample :
  m_isSlicingActive scene_3x10 = false /\
  m_viewport scene_3x10 = QRect.make 0 0 3 10 /\
  m_primarySubViewport (setSlicingActive true scene_3x10) = QRect.null /\
  QRect.height (m_primarySubViewport (setSlicingActive true scene_3x10)) <> 10 / 5 /\
  m_primarySubViewport (setSlicingActive true scene_3x10)
  <> QRect.make 0 0 (3 / 5) (10 / 5).
Proof. vm_compute. repeat split; discriminate. Qed.

(** ** The rectangles in GPU space *)

(** The four setters of [QRect], called in the order of the source, give
    the rectangle of the four values whatever the rectangle was before. *)
Lemma QRect_set_all (x y w h : Z) (g : QRect) :
  QRect.setHeight h (QRect.setWidth w (QRect.setY y (QRect.setX x g)))
  = QRect.make x y w h.
Proof. reflexivity. Qed.

Lemma updateGLSubViewports_gl (s : Q3DScenePrivate) :
  let H := sz_height (m_windowSize s) in
  let P := m_devicePixelRatio s in
  let V := m_viewport s in
  m_glPrimarySubViewport (updateGLSubViewports s)
  = offsetGLRect (m_primarySubViewport s) (QRect.x V) (QRect.y V) H P /\
  m_glSecondarySubViewport (updateGLSubViewports s)
  = offsetGLRect (m_secondarySubViewport s) 0 (QRect.y V) H P.
Proof.
  open_scene s. unfold updateGLSubViewports, offsetGLRect. cbn.
  rewrite !QRect_set_all, Z.add_0_r. split; reflexivity.
Qed.

Lemma updateGLViewport_gl (s : Q3DScenePrivate) :
  let H := sz_height (m_windowSize s) in
  let P := m_devicePixelRatio s in
  let V := m_viewport s in
  m_glViewport (updateGLViewport s) = specGLRect V H P /\
  m_glPrimarySubViewport (updateGLViewport s)
  = offsetGLRect (m_primarySubViewport s) (QRect.x V) (QRect.y V) H P /\
  m_glSecondarySubViewport (updateGLViewport s)
  = offsetGLRect (m_secondarySubViewport s) 0 (QRect.y V) H P.
Proof.
  open_scene s. unfold updateGLViewport, updateGLSubViewports, offsetGLRect, specGLRect.
  cbn. rewrite !QRect_set_all, Z.add_0_r. repeat split; reflexivity.
Qed.

Lemma glDerived_updateGLViewport (s : Q3DScenePrivate) : glDerived (updateGLViewport s).
Proof.
  destruct (updateGLViewport_gl s) as (Hv & Hp & Hs). unfold glDerived.
  rewrite Hv, Hp, Hs. open_scene s. repeat split; reflexivity.
Qed.

Lemma glDerived_emit sig (s : Q3DScenePrivate) : glDerived s -> glDerived (emit sig s).
Proof. open_scene s. intros H. exact H. Qed.

Lemma glDerived_mark bit v d (s : Q3DScenePrivate) :
  glDerived s -> glDerived (set_m_sceneDirty d (track bit v s)).
Proof. destruct s. intros H. exact H. Qed.

Lemma glDerived_order b (s : Q3DScenePrivate) :
  glDerived s -> glDerived (set_m_isSecondarySubviewOnTop b s).
Proof. destruct s. intros H. exact H. Qed.

Lemma glDerived_selection p (s : Q3DScenePrivate) :
  glDerived s -> glDerived (set_m_selectionQueryPosition p s).
Proof. destruct s. intros H. exact H. Qed.

Lemma glDerived_calculateSubViewports (s : Q3DScenePrivate) :
  glDerived (calculateSubViewports s).
Proof.
  unfold calculateSubViewports. destruct (m_isSlicingActive s);
    apply glDerived_updateGLViewport.
Qed.

Lemma glDerived_updateGLSubViewports_primary R (s : Q3DScenePrivate) :
  glDerived s -> glDerived (updateGLSubViewports (set_m_primarySubViewport R s)).
Proof.
  intros (Hv & _ & _).
  destruct (updateGLSubViewports_gl (set_m_primarySubViewport R s)) as (Hp & Hs).
  unfold glDerived. rewrite Hp, Hs. open_scene s. repeat split. exact Hv.
Qed.

Lemma glDerived_updateGLSubViewports_secondary R (s : Q3DScenePrivate) :
  glDerived s -> glDerived (updateGLSubViewports (set_m_secondarySubViewport R s)).
Proof.
  intros (Hv & _ & _).
  destruct (updateGLSubViewports_gl (set_m_secondarySubViewport R s)) as (Hp & Hs).
  unfold glDerived. rewrite Hp, Hs. open_scene s. repeat split. exact Hv.
Qed.

Lemma glDerived_setPrimarySubViewport R (s : Q3DScenePrivate) :
  glDerived s -> glDerived (setPrimarySubViewport R s).
Proof.
  intros H. unfold setPrimarySubViewport. destruct (negb _); [|exact H].
  do 2 apply glDerived_emit. apply glDerived_mark.
  apply glDerived_updateGLSubViewports_primary, H.
Qed.

Lemma glDerived_setSecondarySubViewport R (s : Q3DScenePrivate) :
  glDerived s -> glDerived (setSecondarySubViewport R s).
Proof.
  intros H. unfold setSecondarySubViewport. destruct (negb _); [|exact H].
  do 2 apply glDerived_emit. apply glDerived_mark.
  apply glDerived_updateGLSubViewports_secondary, H.
Qed.

(** *** The rectangles, placed in the viewport *)

Lemma QRect_make_size (x y w h : Z) :
  QRect.x (QRect.make x y w h) = x /\ QRect.y (QRect.make x y w h) = y /\
  QRect.width (QRect.make x y w h) = w /\ QRect.height (QRect.make x y w h) = h.
Proof.
  unfold QRect.make, QRect.x, QRect.y, QRect.width, QRect.height.
  cbn [QRect.x1 QRect.x2 QRect.y1 QRect.y2]. repeat split; lia.
Qed.

Lemma glPlaced_of_glDerived (s : Q3DScenePrivate) : glDerived s -> glPlaced s.
Proof.
  intros (Hv & Hp & Hs). unfold glPlaced. cbv zeta.
  split; [exact Hv|]. split; [exact Hp|]. split.
  - rewrite Hs. unfold offsetGLRect.
    match goal with
    | |- context [QRect.make ?x ?y ?w ?h] =>
        destruct (QRect_make_size x y w h) as (_ & -> & -> & ->)
    end.
    repeat split.
  - intros Hx. rewrite Hs, Hx. reflexivity.
Qed.

Lemma glPlaced_emit sig (s : Q3DScenePrivate) : glPlaced s -> glPlaced (emit sig s).
Proof. destruct s. exact (fun H => H). Qed.

Lemma glPlaced_mark bit v d (s : Q3DScenePrivate) :
  glPlaced s -> glPlaced (set_m_sceneDirty d (track bit v s)).
Proof. destruct s. exact (fun H => H). Qed.

Lemma glPlaced_order b (s : Q3DScenePrivate) :
  glPlaced s -> glPlaced (set_m_isSecondarySubviewOnTop b s).
Proof. destruct s. exact (fun H => H). Qed.

Lemma glPlaced_selection p (s : Q3DScenePrivate) :
  glPlaced s -> glPlaced (set_m_selectionQueryPosition p s).
Proof. destruct s. exact (fun H => H). Qed.

(** After a sub-viewport is set, the two rectangles of the sub-viewports
    are computed anew; the one of the viewport stays. *)
Lemma glPlaced_setPrimarySubViewport R (s : Q3DScenePrivate) :
  glPlaced s -> glPlaced (setPrimarySubViewport R s).
Proof.
  intros G. unfold setPrimarySubViewport. cbv zeta. destruct (negb _); [|exact G].
  destruct G as (Hv & _).
  apply glPlaced_of_glDerived. do 2 apply glDerived_emit. apply glDerived_mark.
  match goal with
  | |- glDerived (updateGLSubViewports ?t) =>
      destruct (updateGLSubViewports_gl t) as (Hp & Hs)
  end.
  unfold glDerived. rewrite Hp, Hs. open_scene s. repeat split. exact Hv.
Qed.

Lemma glPlaced_setSecondarySubViewport R (s : Q3DScenePrivate) :
  glPlaced s -> glPlaced (setSecondarySubViewport R s).
Proof.
  intros G. unfold setSecondarySubViewport. cbv zeta. destruct (negb _); [|exact G].
  destruct G as (Hv & _).
  apply glPlaced_of_glDerived. do 2 apply glDerived_emit. apply glDerived_mark.
  match goal with
  | |- glDerived (updateGLSubViewports ?t) =>
      destruct (updateGLSubViewports_gl t) as (Hp & Hs)
  end.
  unfold glDerived. rewrite Hp, Hs. open_scene s. repeat split. exact Hv.
Qed.

(** C3, as amended.  Whenever the derived rectangles are recomputed
    ([updateGLViewport]), with window height [H] and pixel ratio [P], every
    product being taken in single precision and cut to an [int], and every
    such product being one C++ can store into an [int]:
    the GPU rectangle of the viewport [V] is
    [(V.x*P, (H - (V.y + V.height))*P, V.width*P, V.height*P)];
    the one of the primary sub-viewport [R] is placed at the offset of the
    viewport, [((R.x + V.x)*P, (H - (R.y + V.y + R.height))*P, R.width*P,
    R.height*P)]; the one of the secondary sub-viewport [R] has the y
    [(H - (R.y + V.y + R.height))*P], the width [R.width*P] and the height
    [R.height*P], and, for a viewport whose left edge is at 0, it is placed
    like the primary one.  For a viewport at the origin these are the
    rectangles of the specification.
    The three derived rectangles are in this relation to the attributes
    after every call that recomputes them, on a new scene as on any other
    (a change of the window size, of the viewport, of the slicing mode or of
    the pixel ratio), and every setter of the scene keeps them in it. *)
Theorem C3_gl_rectangles (s : Q3DScenePrivate) :
  let H := sz_height (m_windowSize s) in
  let P := m_devicePixelRatio s in
  let V := m_viewport s in
  let p := m_primarySubViewport s in
  let q := m_secondarySubViewport s in
  let g := updateGLViewport s in
  (glProductsDefined s = true ->
   m_glViewport g = specGLRect V H P /\
   m_glPrimarySubViewport g
   = QRect.make (Float32.scale (QRect.x p + QRect.x V) P)
       (Float32.scale (H - (QRect.y p + QRect.y V + QRect.height p)) P)
       (Float32.scale (QRect.width p) P) (Float32.scale (QRect.height p) P) /\
   (QRect.y (m_glSecondarySubViewport g)
    = Float32.scale (H - (QRect.y q + QRect.y V + QRect.height q)) P /\
    QRect.width (m_glSecondarySubViewport g) = Float32.scale (QRect.width q) P /\
    QRect.height (m_glSecondarySubViewport g) = Float32.scale (QRect.height q) P) /\
   (QRect.x V = 0 ->
    m_glSecondarySubViewport g
    = QRect.make (Float32.scale (QRect.x q + QRect.x V) P)
        (Float32.scale (H - (QRect.y q + QRect.y V + QRect.height q)) P)
        (Float32.scale (QRect.width q) P) (Float32.scale (QRect.height q) P)) /\
   (QRect.x V = 0 -> QRect.y V = 0 ->
    m_glPrimarySubViewport g = specGLRect p H P /\
    m_glSecondarySubViewport g = specGLRect q H P)) /\
  (glPlaced g /\
   (forall size, QSize_eqb (m_windowSize s) size = false ->
      glPlaced (setWindowSize size s)) /\
   (forall v, QRect.eqb V v = false -> glPlaced (setViewport v s)) /\
   (forall w h, negb (QRect.width V =? w) || negb (QRect.height V =? h) = true ->
      glPlaced (setViewportSize w h s)) /\
   (forall b, Bool.eqb (m_isSlicingActive s) b = false ->
      glPlaced (setSlicingActive b s)) /\
   (forall r, Float32.eqb P r = false -> glPlaced (setDevicePixelRatio r s))) /\
  (glPlaced s ->
   (forall v, glPlaced (setViewport v s)) /\
   (forall w h, glPlaced (setViewportSize w h s)) /\
   (forall size, glPlaced (setWindowSize size s)) /\
   (forall r, glPlaced (setDevicePixelRatio r s)) /\
   (forall R, glPlaced (setPrimarySubViewport R s)) /\
   (forall R, glPlaced (setSecondarySubViewport R s)) /\
   (forall b, glPlaced (setSlicingActive b s)) /\
   (forall b, glPlaced (setSecondarySubviewOnTop b s)) /\
   (forall p, glPlaced (setSelectionQueryPosition p s))).
Proof.
  intros H P V p q g.
  assert (Hwin : forall size, QSize_eqb (m_windowSize s) size = false ->
                 glPlaced (setWindowSize size s)).
  { intros size E. unfold setWindowSize. rewrite E. cbn [negb].
    apply glPlaced_of_glDerived, glDerived_emit, glDerived_mark,
      glDerived_updateGLViewport. }
  assert (Hview : forall v, QRect.eqb V v = false -> glPlaced (setViewport v s)).
  { intros v E. unfold setViewport. fold V. rewrite E. cbn [negb].
    apply glPlaced_of_glDerived, glDerived_emit, glDerived_calculateSubViewports. }
  assert (Hsize : forall w h,
            negb (QRect.width V =? w) || negb (QRect.height V =? h) = true ->
            glPlaced (setViewportSize w h s)).
  { intros w h E. unfold setViewportSize. fold V. rewrite E.
    apply glPlaced_of_glDerived, glDerived_emit, glDerived_calculateSubViewports. }
  assert (Hslice : forall b, Bool.eqb (m_isSlicingActive s) b = false ->
                   glPlaced (setSlicingActive b s)).
  { intros b E. unfold setSlicingActive. rewrite E. cbn [negb].
    apply glPlaced_of_glDerived. do 2 apply glDerived_emit.
    apply glDerived_calculateSubViewports. }
  assert (Hratio : forall r, Float32.eqb P r = false ->
                   glPlaced (setDevicePixelRatio r s)).
  { intros r E. unfold setDevicePixelRatio. fold P. rewrite E. cbn [negb].
    apply glPlaced_of_glDerived, glDerived_emit, glDerived_updateGLViewport. }
  split; [|split].
  - intros _. destruct (updateGLViewport_gl s) as (Hv & Hp & Hs).
    fold H P V p q g in Hv, Hp, Hs.
    split; [exact Hv|]. split; [exact Hp|]. split; [|split].
    + rewrite Hs. unfold offsetGLRect.
      match goal with
      | |- context [QRect.make ?x ?y ?w ?h] =>
          destruct (QRect_make_size x y w h) as (_ & -> & -> & ->)
      end.
      repeat split.
    + intros Hx. rewrite Hs, Hx. unfold offsetGLRect. rewrite Z.add_0_r. reflexivity.
    + intros Hx Hy. rewrite Hp, Hs, Hx, Hy. unfold offsetGLRect, specGLRect.
      rewrite !Z.add_0_r. split; reflexivity.
  - split; [apply glPlaced_of_glDerived, glDerived_updateGLViewport|].
    split; [exact Hwin|]. split; [exact Hview|]. split; [exact Hsize|].
    split; [exact Hslice|exact Hratio].
  - intros G.
    split; [|split; [|split; [|split; [|split; [|split; [|split; [|split]]]]]]]; intros.
    + destruct (QRect.eqb V v) eqn:E; [|exact (Hview v E)].
      unfold setViewport. fold V. rewrite E. exact G.
    + destruct (negb (QRect.width V =? w) || negb (QRect.height V =? h)) eqn:E;
        [exact (Hsize w h E)|].
      unfold setViewportSize. fold V. rewrite E. exact G.
    + destruct (QSize_eqb (m_windowSize s) size) eqn:E; [|exact (Hwin size E)].
      unfold setWindowSize. rewrite E. exact G.
    + destruct (Float32.eqb P r) eqn:E; [|exact (Hratio r E)].
      unfold setDevicePixelRatio. fold P. rewrite E. exact G.
    + apply glPlaced_setPrimarySubViewport, G.
    + apply glPlaced_setSecondarySubViewport, G.
    + destruct (Bool.eqb (m_isSlicingActive s) b) eqn:E; [|exact (Hslice b E)].
      unfold setSlicingActive. rewrite E. exact G.
    + unfold setSecondarySubviewOnTop. destruct (negb _); [|exact G].
      do 2 apply glPlaced_emit. apply glPlaced_mark, glPlaced_order, G.
    + unfold setSelectionQueryPosition. destruct (negb _); [|exact G].
      do 2 apply glPlaced_emit. apply glPlaced_mark, glPlaced_selection, G.
Qed.

(** The example of the specification: the viewport (0,0,800,600) in a
    window of that size, then the pixel ratio 2.0; and the rectangles
    computed anew on that scene. *)
Lemma C3_gl_rectangles_witness :
  let s := setDevicePixelRatio Float32.two scene_800x600 in
  m_primarySubViewport s = QRect.make 0 0 800 600 /\
  m_glViewport s = QRect.make 0 0 1600 1200 /\
  m_glPrimarySubViewport s = QRect.make 0 0 1600 1200 /\
  m_glViewport (updateGLViewport s) = QRect.make 0 0 1600 1200 /\
  m_glSecondarySubViewport (updateGLViewport s) = QRect.make 0 1200 0 0.
Proof.
  intros s.
  destruct (C3_gl_rectangles scene_800x600) as (_ & (_ & _ & _ & _ & _ & Hratio) & _).
  destruct (Hratio Float32.two) as (Hv & Hp & _); [vm_compute; reflexivity|].
  fold s in Hv, Hp.
  destruct (C3_gl_rectangles s) as (Hform & _).
  destruct Hform as (Hv' & _ & _ & _ & Hspec); [vm_compute; reflexivity|].
  destruct Hspec as [_ Hs']; [vm_compute; reflexivity..|].
  split; [vm_compute; reflexivity|]. split; [|split; [|split]].
  - rewrite Hv. vm_compute. reflexivity.
  - rewrite Hp. vm_compute. reflexivity.
  - rewrite Hv'. vm_compute. reflexivity.
  - rewrite Hs'. vm_compute. reflexivity.
Defined.

(** C3 as it is written fails for a viewport that is not at the origin:
    in [scene_offset] the viewport is at (100, 50) and the primary
    sub-viewport is (0,0,160,120); its GPU rectangle starts at (100, 530),
    the rectangle of the specification at (0, 580). *)
Lemma C3_counterexample :
  let s := scene_offset in
  let H := sz_height (m_windowSize s) in
  let P := m_devicePixelRatio s in
  glProductsDefined s = true /\
  glPlaced s /\
  m_viewport s = QRect.make 100 50 800 600 /\
  m_primarySubViewport s = QRect.make 0 0 160 120 /\
  m_glPrimarySubViewport s = QRect.make 100 530 160 120 /\
  specGLRect (m_primarySubViewport s) H P = QRect.make 0 580 160 120 /\
  m_glPrimarySubViewport s <> specGLRect (m_primarySubViewport s) H P.
Proof.
  cbv zeta. split; [vm_compute; reflexivity|]. split.
  - apply glPlaced_of_glDerived. split; [|split]; vm_compute; reflexivity.
  - vm_compute. repeat split; discriminate.
Qed.

(** ** The point tests *)

(** What the two tests compare: the left bound is the one of the
    sub-viewport itself, the other three are moved by the viewport. *)
Lemma isPointInPrimarySubView_bounds (p : QPoint) (s : Q3DScenePrivate) :
  let R := m_primarySubViewport s in
  let V := m_viewport s in
  isPointInPrimarySubView p s = true <->
  QRect.x R < pt_x p < QRect.x V + QRect.x R + QRect.width R /\
  QRect.y V + QRect.y R < pt_y p < QRect.y V + QRect.y R + QRect.height R.
Proof.
  unfold isPointInPrimarySubView. cbv zeta.
  rewrite !andb_true_iff, !Z.gtb_ltb, !Z.ltb_lt. lia.
Qed.

Lemma isPointInSecondarySubView_bounds (p : QPoint) (s : Q3DScenePrivate) :
  let R := m_secondarySubViewport s in
  let V := m_viewport s in
  isPointInSecondarySubView p s = true <->
  QRect.x R < pt_x p < QRect.x V + QRect.x R + QRect.width R /\
  QRect.y V + QRect.y R < pt_y p < QRect.y V + QRect.y R + QRect.height R.
Proof.
  unfold isPointInSecondarySubView. cbv zeta.
  rewrite !andb_true_iff, !Z.gtb_ltb, !Z.ltb_lt. lia.
Qed.

Lemma strictlyInsideOffset_bounds (R V : QRect) (p : QPoint) :
  strictlyInsideOffset R V p = true <->
  QRect.x V + QRect.x R < pt_x p < QRect.x V + QRect.x R + QRect.width R /\
  QRect.y V + QRect.y R < pt_y p < QRect.y V + QRect.y R + QRect.height R.
Proof.
  unfold strictlyInsideOffset. rewrite !andb_true_iff, !Z.ltb_lt. lia.
Qed.

(** With a viewport whose left edge is at 0 the tests are the ones of the
    specification. *)
Lemma point_tests_at_left_edge (p : QPoint) (s : Q3DScenePrivate) :
  QRect.x (m_viewport s) = 0 ->
  isPointInPrimarySubView p s
  = strictlyInsideOffset (m_primarySubViewport s) (m_viewport s) p /\
  isPointInSecondarySubView p s
  = strictlyInsideOffset (m_secondarySubViewport s) (m_viewport s) p.
Proof.
  intros Hx. split; apply eq_iff_eq_true.
  - rewrite isPointInPrimarySubView_bounds, strictlyInsideOffset_bounds, Hx. lia.
  - rewrite isPointInSecondarySubView_bounds, strictlyInsideOffset_bounds, Hx. lia.
Qed.

(** C5, at a failing input.  In [scene_offset] the viewport is
    (100,50,800,600), the primary sub-viewport (0,0,160,120) and the
    secondary one (0,0,800,600).  The point (50,100) is left of the
    viewport, so it is not strictly inside either sub-viewport moved by the
    offset of the viewport; [isPointInPrimarySubView] and
    [isPointInSecondarySubView] both answer true for it. *)
Theorem C5_point_tests_left_bound :
  let s := scene_offset in
  let p := mkPoint 50 100 in
  m_viewport s = QRect.make 100 50 800 600 /\
  m_primarySubViewport s = QRect.make 0 0 160 120 /\
  m_secondarySubViewport s = QRect.make 0 0 800 600 /\
  isPointInPrimarySubView p s = true /\
  strictlyInsideOffset (m_primarySubViewport s) (m_viewport s) p = false /\
  isPointInSecondarySubView p s = true /\
  strictlyInsideOffset (m_secondarySubViewport s) (m_viewport s) p = false.
Proof. vm_compute. repeat split. Qed.

(** Without a positive offset of the viewport to the right, the two tests
    exclude each other on disjoint sub-viewports. *)
Lemma point_tests_exclusive_without_offset (p : QPoint) (s : Q3DScenePrivate) :
  QRect.x (m_viewport s) <= 0 ->
  disjoint (m_primarySubViewport s) (m_secondarySubViewport s) ->
  isPointInPrimarySubView p s && isPointInSecondarySubView p s = false.
Proof.
  intros Hx Hd.
  destruct (isPointInPrimarySubView p s) eqn:E1; [|reflexivity].
  destruct (isPointInSecondarySubView p s) eqn:E2; [|reflexivity].
  apply isPointInPrimarySubView_bounds in E1.
  apply isPointInSecondarySubView_bounds in E2.
  specialize (Hd (pt_x p) (pt_y p - QRect.y (m_viewport s))).
  apply andb_false_iff in Hd. exfalso.
  unfold QRect.x, QRect.y, QRect.width, QRect.height in *.
  destruct Hd as [Hd|Hd];
    apply not_true_iff_false in Hd; apply Hd; apply contains_span.
  - destruct (span_plain (QRect.x1 (m_primarySubViewport s))
                (QRect.x2 (m_primarySubViewport s))) as [-> ->]; [lia|].
    destruct (span_plain (QRect.y1 (m_primarySubViewport s))
                (QRect.y2 (m_primarySubViewport s))) as [-> ->]; [lia|].
    lia.
  - destruct (span_plain (QRect.x1 (m_secondarySubViewport s))
                (QRect.x2 (m_secondarySubViewport s))) as [-> ->]; [lia|].
    destruct (span_plain (QRect.y1 (m_secondarySubViewport s))
                (QRect.y2 (m_secondarySubViewport s))) as [-> ->]; [lia|].
    lia.
Qed.

(** C6, at a failing input.  In [scene_side_by_side] the viewport is
    (50,0,200,100), the primary sub-viewport (0,0,100,100) and the
    secondary one (100,0,100,100): the two are disjoint.  For the point
    (120,50) both [isPointInPrimarySubView] and [isPointInSecondarySubView]
    answer true. *)
Theorem C6_point_tests_overlap :
  let s := scene_side_by_side in
  let p := mkPoint 120 50 in
  m_viewport s = QRect.make 50 0 200 100 /\
  m_primarySubViewport s = QRect.make 0 0 100 100 /\
  m_secondarySubViewport s = QRect.make 100 0 100 100 /\
  disjoint (m_primarySubViewport s) (m_secondarySubViewport s) /\
  isPointInPrimarySubView p s = true /\
  isPointInSecondarySubView p s = true.
Proof.
  cbv zeta. split; [vm_compute; reflexivity|].
  split; [vm_compute; reflexivity|]. split; [vm_compute; reflexivity|].
  split; [|vm_compute; split; reflexivity].
  intros px py. rewrite <- intersected_contains.
  replace (QRect.intersected _ _) with QRect.null by (vm_compute; reflexivity).
  unfold QRect.contains. cbn. zcases.
Qed.

(** ** The active camera and the active light *)

Lemma ptr_eqb_eq (a b : ptr) : ptr_eqb a b = true <-> a = b.
Proof.
  destruct a as [i|], b as [j|]; cbn; try (split; congruence).
  rewrite Pos.eqb_eq. split; congruence.
Qed.

Lemma ptr_eqb_neq (a b : ptr) : a <> b -> ptr_eqb a b = false.
Proof.
  intros H. destruct (ptr_eqb a b) eqn:E; [|reflexivity].
  apply ptr_eqb_eq in E. contradiction.
Qed.

Lemma Connection_eqb_eq (a b : Connection) : Connection_eqb a b = true <-> a = b.
Proof.
  destruct a as [s1 g1 r1], b as [s2 g2 r2]. unfold Connection_eqb. cbn.
  rewrite !andb_true_iff, !Pos.eqb_eq. split.
  - intros [[-> Hg] ->]. destruct g1, g2; try discriminate; reflexivity.
  - intros [= -> -> ->]. destruct g2; repeat split; reflexivity.
Qed.

Lemma Connection_eqb_sender (a b : Connection) :
  conn_sender a <> conn_sender b -> Connection_eqb a b = false.
Proof.
  intros H. destruct (Connection_eqb a b) eqn:E; [|reflexivity].
  apply Connection_eqb_eq in E. subst. contradiction.
Qed.

Lemma count_disconnect (c d : Connection) (w : QObjects) :
  countConnections c (disconnect d w)
  = if Connection_eqb d c then 0%nat else countConnections c w.
Proof.
  unfold countConnections, disconnect. cbn.
  induction (connections w) as [|e l IH]; cbn.
  - destruct (Connection_eqb d c); reflexivity.
  - destruct (Connection_eqb d e) eqn:Ede; cbn.
    + apply Connection_eqb_eq in Ede. subst e.
      destruct (Connection_eqb c d) eqn:Ecd.
      * apply Connection_eqb_eq in Ecd. subst d.
        destruct (Connection_eqb c c) eqn:Ecc; [exact IH|].
        rewrite <- not_true_iff_false, Connection_eqb_eq in Ecc. contradiction.
      * exact IH.
    + destruct (Connection_eqb c e) eqn:Ece; cbn; [|exact IH].
      apply Connection_eqb_eq in Ece. subst e.
      rewrite Ede in IH |- *. rewrite IH. reflexivity.
Qed.

Lemma count_connect (c d : Connection) (w : QObjects) :
  countConnections c (connect d w)
  = (countConnections c w + if Connection_eqb c d then 1 else 0)%nat.
Proof.
  unfold countConnections, connect. cbn.
  rewrite List.filter_app, length_app. cbn.
  destruct (Connection_eqb c d); reflexivity.
Qed.

Lemma count_setParent (c : Connection) (o p : objid) (w : QObjects) :
  countConnections c (setParent o p w) = countConnections c w.
Proof. reflexivity. Qed.

Lemma parent_setParent (o p : objid) (w : QObjects) : parent o (setParent o p w) = Some p.
Proof. unfold parent, setParent. cbn. apply lookup_insert_eq. Qed.

Lemma parent_setParent_other (o o' p : objid) (w : QObjects) :
  o <> o' -> parent o' (setParent o p w) = parent o' w.
Proof. intros H. unfold parent, setParent. cbn. apply lookup_insert_ne, H. Qed.

Lemma parent_connect (o : objid) (d : Connection) (w : QObjects) :
  parent o (connect d w) = parent o w.
Proof. reflexivity. Qed.

Lemma parent_disconnect (o : objid) (d : Connection) (w : QObjects) :
  parent o (disconnect d w) = parent o w.
Proof. reflexivity. Qed.

#[local] Arguments connect : simpl never.
#[local] Arguments disconnect : simpl never.
#[local] Arguments countConnections : simpl never.
#[local] Arguments parent : simpl never.

(** The parent after the first step of [setActiveCamera] and
    [setActiveLight]. *)
Lemma reparent_parent (o q : objid) (w : QObjects) :
  let w' := if negb (ptr_eqb (parent o w) (Some q)) then setParent o q w else w in
  parent o w' = Some q /\ (forall o', o <> o' -> parent o' w' = parent o' w) /\
  connections w' = connections w.
Proof.
  cbv zeta. destruct (ptr_eqb (parent o w) (Some q)) eqn:E; cbn.
  - apply ptr_eqb_eq in E. repeat split; assumption.
  - split; [apply parent_setParent|]. split; [|reflexivity].
    intros o' H. apply parent_setParent_other, H.
Qed.

Lemma Connection_eqb_signal (o q : objid) (a b : CameraSignal) :
  Connection_eqb (mkConn o a q) (mkConn o b q) = CameraSignal_eqb a b.
Proof. unfold Connection_eqb. cbn. rewrite !Pos.eqb_refl, andb_true_r. reflexivity. Qed.

(** C8.  [setActiveCamera] and [setActiveLight] stop at the assertion when
    they are passed the null pointer.  Passed an object, they return, the
    object has the scene as its parent afterwards (the parent of no other
    object changes) and is the active camera or light.  When the camera is
    not the active one already, every connection of a rotation or zoom
    signal of the previous camera to [needRender] of the scene is removed
    and each of the three signals of the new camera gets one more;
    [setActiveLight] leaves the connections as they are. *)
Theorem C8_active_camera_and_light (w : QObjects) (s : Q3DScenePrivate) :
  (setActiveCamera None w s = AssertionFailed /\
   setActiveLight None w s = AssertionFailed) /\
  (forall c, exists w' s',
     setActiveCamera (Some c) w s = Ok (w', s') /\
     parent c w' = Some (q_ptr s) /\
     (forall o, c <> o -> parent o w' = parent o w) /\
     m_camera s' = Some c /\
     (m_camera s <> Some c ->
      (forall sig,
         countConnections (mkConn c sig (q_ptr s)) w'
         = S (countConnections (mkConn c sig (q_ptr s)) w)) /\
      (forall old sig,
         m_camera s = Some old ->
         countConnections (mkConn old sig (q_ptr s)) w' = 0%nat) /\
      cameraChanged (m_changeTracker s') = true) /\
     (m_camera s = Some c -> connections w' = connections w /\ s' = s)) /\
  (forall l, exists w' s',
     setActiveLight (Some l) w s = Ok (w', s') /\
     parent l w' = Some (q_ptr s) /\
     (forall o, l <> o -> parent o w' = parent o w) /\
     m_light s' = Some l /\
     connections w' = connections w /\
     (m_light s <> Some l -> lightChanged (m_changeTracker s') = true) /\
     (m_light s = Some l -> s' = s)).
Proof.
  split; [split; reflexivity|]. split.
  - intros c. unfold setActiveCamera.
    destruct (reparent_parent c (q_ptr s) w) as (Hp & Ho & Hc).
    set (w1 := if negb (ptr_eqb (parent c w) (Some (q_ptr s)))
               then setParent c (q_ptr s) w else w) in *.
    assert (Hcount : forall d, countConnections d w1 = countConnections d w)
      by (intros d; unfold countConnections; rewrite Hc; reflexivity).
    clearbody w1.
    destruct (ptr_eqb (Some c) (m_camera s)) eqn:E; cbn [negb].
    + apply ptr_eqb_eq in E. exists w1, s.
      repeat split; try assumption; try congruence.
      all: intros H; congruence.
    + assert (Hne : m_camera s <> Some c).
      { intros H. rewrite H in E. cbn in E. rewrite Pos.eqb_refl in E. discriminate. }
      eexists _, _. split; [reflexivity|].
      destruct s as [q [] v p sec top ratio cam lgt under slicing sel ws gv gp gs d em].
      cbn in *.
      split; [destruct cam; rewrite ?parent_connect, ?parent_disconnect; exact Hp|].
      split; [intros o H; destruct cam;
              rewrite ?parent_connect, ?parent_disconnect; apply Ho, H|].
      split; [reflexivity|]. split; [|intros H; contradiction].
      intros _. split; [|split; [|reflexivity]].
      * intros sig. rewrite !count_connect, !Connection_eqb_signal.
        destruct cam as [old|].
        -- rewrite !count_disconnect, !Connection_eqb_sender, Hcount
             by (cbn; congruence).
           destruct sig; cbn; lia.
        -- rewrite Hcount. destruct sig; cbn; lia.
      * intros old sig [= ->].
        rewrite !count_connect, !Connection_eqb_sender by (cbn; congruence).
        rewrite !count_disconnect, !Connection_eqb_signal.
        destruct sig; cbn; reflexivity.
  - intros l. unfold setActiveLight.
    destruct (reparent_parent l (q_ptr s) w) as (Hp & Ho & Hc).
    set (w1 := if negb (ptr_eqb (parent l w) (Some (q_ptr s)))
               then setParent l (q_ptr s) w else w) in *.
    clearbody w1.
    destruct (ptr_eqb (Some l) (m_light s)) eqn:E; cbn [negb].
    + apply ptr_eqb_eq in E. exists w1, s.
      repeat split; try assumption; try congruence.
      all: intros H; congruence.
    + assert (Hne : m_light s <> Some l).
      { intros H. rewrite H in E. cbn in E. rewrite Pos.eqb_refl in E. discriminate. }
      eexists _, _. split; [reflexivity|]. open_scene s. cbn in *.
      repeat split; try assumption. intros H; contradiction.
Qed.

(** The camera 3 replaces the camera 2 of [scene_with_camera]; the light 4
    becomes the active light. *)
Lemma C8_active_camera_and_light_witness :
  let w := fst scene_with_camera in
  let s := snd scene_with_camera in
  m_camera s = Some 2%positive /\
  countConnections (mkConn 2%positive zoomLevelChanged 1%positive) w = 1%nat /\
  (exists w' s',
     setActiveCamera (Some 3%positive) w s = Ok (w', s') /\
     parent 3%positive w' = Some 1%positive /\
     countConnections (mkConn 3%positive zoomLevelChanged 1%positive) w' = 1%nat /\
     countConnections (mkConn 2%positive zoomLevelChanged 1%positive) w' = 0%nat) /\
  (exists w' s',
     setActiveLight (Some 4%positive) w s = Ok (w', s') /\
     lightChanged (m_changeTracker s') = true).
Proof.
  intros w s.
  destruct (C8_active_camera_and_light w s) as (_ & Hcam & Hlight).
  split; [vm_compute; reflexivity|]. split; [vm_compute; reflexivity|]. split.
  - destruct (Hcam 3%positive) as (w' & s' & Hr & Hp & _ & _ & Hnew & _).
    destruct Hnew as (Hc & Hold & _); [vm_compute; discriminate|].
    assert (Hq : q_ptr s = 1%positive) by (vm_compute; reflexivity).
    specialize (Hc zoomLevelChanged). specialize (Hold 2%positive zoomLevelChanged).
    rewrite Hq in Hp, Hc, Hold.
    exists w', s'. split; [exact Hr|]. split; [exact Hp|]. split.
    + rewrite Hc. vm_compute. reflexivity.
    + apply Hold. vm_compute. reflexivity.
  - destruct (Hlight 4%positive) as (w' & s' & Hr & _ & _ & _ & _ & Hbit & _).
    exists w', s'. split; [exact Hr|]. apply Hbit. vm_compute. discriminate.
Defined.

(** C10.  [setActiveLight] with a light that is not the active one emits
    [activeLightChanged] and nothing else, and no call of [setActiveLight]
    emits [needRender]; [setActiveCamera] with a camera that is not the
    active one emits [activeCameraChanged] and then [needRender]. *)
Theorem C10_signals_of_camera_and_light (w : QObjects) (s : Q3DScenePrivate) :
  (forall l, m_light s <> Some l ->
     exists w' s',
       setActiveLight (Some l) w s = Ok (w', s') /\
       emitted s' = emitted s ++ [Signal.activeLightChanged (Some l)]) /\
  (forall l w' s',
     setActiveLight l w s = Ok (w', s') ->
     exists new, emitted s' = emitted s ++ new /\ ~ In Signal.needRender new) /\
  (forall c, m_camera s <> Some c ->
     exists w' s',
       setActiveCamera (Some c) w s = Ok (w', s') /\
       emitted s' = emitted s
                    ++ [Signal.activeCameraChanged (Some c); Signal.needRender]).
Proof.
  split; [|split].
  - intros l Hne. unfold setActiveLight.
    rewrite (ptr_eqb_neq (Some l) (m_light s)) by congruence. cbn [negb].
    eexists _, _. split; [reflexivity|]. open_scene s. reflexivity.
  - intros [l|] w' s'; [|discriminate]. unfold setActiveLight.
    destruct (negb (ptr_eqb (Some l) (m_light s))); intros [= <- <-].
    + exists [Signal.activeLightChanged (Some l)]. split.
      * open_scene s. reflexivity.
      * intros [H|[]]. discriminate.
    + exists []. split; [symmetry; apply app_nil_r|]. intros [].
  - intros c Hne. unfold setActiveCamera.
    rewrite (ptr_eqb_neq (Some c) (m_camera s)) by congruence. cbn [negb].
    eexists _, _. split; [reflexivity|]. open_scene s. cbn.
    rewrite <- app_assoc. reflexivity.
Qed.

(** The light 4 and the camera 3 are new to [scene_with_camera]. *)
Lemma C10_signals_of_camera_and_light_witness :
  let w := fst scene_with_camera in
  let s := snd scene_with_camera in
  (exists w' s',
     setActiveLight (Some 4%positive) w s = Ok (w', s') /\
     emitted s' = emitted s ++ [Signal.activeLightChanged (Some 4%positive)]) /\
  (exists w' s',
     setActiveCamera (Some 3%positive) w s = Ok (w', s') /\
     emitted s' = emitted s
                  ++ [Signal.activeCameraChanged (Some 3%positive); Signal.needRender]).
Proof.
  intros w s.
  destruct (C10_signals_of_camera_and_light w s) as (Hl & _ & Hc).
  split.
  - apply Hl. vm_compute. discriminate.
  - apply Hc. vm_compute. discriminate.
Defined.

(** ** Synchronisation *)

#[local] Arguments setWindowSize : simpl never.
#[local] Arguments setViewport : simpl never.
#[local] Arguments setSecondarySubviewOnTop : simpl never.
#[local] Arguments setSelectionQueryPosition : simpl never.
#[local] Arguments setSlicingActive : simpl never.
#[local] Arguments setDevicePixelRatio : simpl never.

(** *** What a setter and a block may change *)

Lemma modifies_refl (o : Q3DScenePrivate) : modifies (fun _ => false) o o.
Proof. intros a _. destruct a; reflexivity. Qed.

Lemma kept_trans (a : Part) (o1 o2 o3 : Q3DScenePrivate) :
  kept a o1 o2 -> kept a o2 o3 -> kept a o1 o3.
Proof. destruct a; cbn; intros H1 H2; rewrite H2; exact H1. Qed.

Lemma modifies_trans (P Q : Part -> bool) (o1 o2 o3 : Q3DScenePrivate) :
  modifies P o1 o2 -> modifies Q o2 o3 -> modifies (fun a => P a || Q a) o1 o3.
Proof.
  intros H1 H2 a Ha. apply orb_false_iff in Ha as [Hp Hq].
  exact (kept_trans a o1 o2 o3 (H1 a Hp) (H2 a Hq)).
Qed.

(** Closes [modifies touched o (f o)] for a setter [f]: part by part, on
    every path through the setter. *)
Ltac frame_parts :=
  let a := fresh "a" in
  let Ha := fresh "Ha" in
  intros a Ha; destruct a; try discriminate Ha; clear Ha; unfold kept; frame.

(** One block on the other scene: the setter, then the bit cleared. *)
Lemma modifies_windowSize b v o :
  modifies touched_windowSize o (pushed b set_windowSizeChanged (setWindowSize v) o).
Proof. unfold pushed. destruct b; frame_parts. Qed.

Lemma modifies_viewport b v o :
  modifies touched_viewport o (pushed b set_viewportChanged (setViewport v) o).
Proof. unfold pushed. destruct b; frame_parts. Qed.

Lemma modifies_order b v o :
  modifies touched_order o
    (pushed b set_subViewportOrderChanged (setSecondarySubviewOnTop v) o).
Proof. unfold pushed. destruct b; frame_parts. Qed.

Lemma modifies_primary b v o :
  modifies touched_primary o
    (pushed b set_primarySubViewportChanged (setPrimarySubViewport v) o).
Proof. unfold pushed. destruct b; frame_parts. Qed.

Lemma modifies_secondary b v o :
  modifies touched_secondary o
    (pushed b set_secondarySubViewportChanged (setSecondarySubViewport v) o).
Proof. unfold pushed. destruct b; frame_parts. Qed.

Lemma modifies_selection b v o :
  modifies touched_selection o
    (pushed b set_selectionQueryPositionChanged (setSelectionQueryPosition v) o).
Proof. unfold pushed. destruct b; frame_parts. Qed.

Lemma modifies_camera b o :
  modifies touched_camera o (pushed b set_cameraChanged (fun o => o) o).
Proof. unfold pushed. destruct b; frame_parts. Qed.

Lemma modifies_light b o :
  modifies touched_light o (pushed b set_lightChanged (fun o => o) o).
Proof. unfold pushed. destruct b; frame_parts. Qed.

Lemma modifies_slicing b v o :
  modifies touched_slicing o
    (pushed b set_slicingActivatedChanged (setSlicingActive v) o).
Proof. unfold pushed. destruct b; frame_parts. Qed.

Lemma modifies_ratio b v o :
  modifies touched_ratio o
    (pushed b set_devicePixelRatioChanged (setDevicePixelRatio v) o).
Proof. unfold pushed. destruct b; frame_parts. Qed.

Lemma modifies_clean o : modifies (fun _ => false) o (set_m_sceneDirty false o).
Proof. frame_parts. Qed.

(** *** The blocks of [sync] *)

(** Clearing a bit that is not set changes nothing. *)
Lemma track_clear_unset (t : Q3DScenePrivate)
    (get : Q3DSceneChangeBitField -> bool)
    (bit : bool -> Q3DSceneChangeBitField -> Q3DSceneChangeBitField) :
  (forall b, get b = false -> bit false b = b) ->
  get (m_changeTracker t) = false -> track bit false t = t.
Proof. intros Hb H. unfold track. rewrite (Hb _ H). destruct t. reflexivity. Qed.

Ltac block_eq :=
  let E := fresh "E" in
  intros; unfold pushed;
  match goal with
  | |- context [if ?c then _ else _] => destruct c eqn:E
  end; [reflexivity|];
  f_equal; symmetry; eapply track_clear_unset; [|exact E];
  intros [] Hb; cbn in Hb; subst; reflexivity.

Lemma sync_windowSize_eq t o :
  sync_windowSize (t, o)
  = (track set_windowSizeChanged false t,
     pushed (windowSizeChanged (m_changeTracker t)) set_windowSizeChanged
       (setWindowSize (m_windowSize t)) o).
Proof. unfold sync_windowSize. block_eq. Qed.

Lemma sync_viewport_eq t o :
  sync_viewport (t, o)
  = (track set_viewportChanged false t,
     pushed (viewportChanged (m_changeTracker t)) set_viewportChanged
       (setViewport (m_viewport t)) o).
Proof. unfold sync_viewport. block_eq. Qed.

Lemma sync_subViewportOrder_eq t o :
  sync_subViewportOrder (t, o)
  = (track set_subViewportOrderChanged false t,
     pushed (subViewportOrderChanged (m_changeTracker t)) set_subViewportOrderChanged
       (setSecondarySubviewOnTop (m_isSecondarySubviewOnTop t)) o).
Proof. unfold sync_subViewportOrder. block_eq. Qed.

Lemma sync_primarySubViewport_eq t o :
  sync_primarySubViewport (t, o)
  = (track set_primarySubViewportChanged false t,
     pushed (primarySubViewportChanged (m_changeTracker t))
       set_primarySubViewportChanged
       (setPrimarySubViewport (m_primarySubViewport t)) o).
Proof. unfold sync_primarySubViewport. block_eq. Qed.

Lemma sync_secondarySubViewport_eq t o :
  sync_secondarySubViewport (t, o)
  = (track set_secondarySubViewportChanged false t,
     pushed (secondarySubViewportChanged (m_changeTracker t))
       set_secondarySubViewportChanged
       (setSecondarySubViewport (m_secondarySubViewport t)) o).
Proof. unfold sync_secondarySubViewport. block_eq. Qed.

Lemma sync_selectionQueryPosition_eq t o :
  sync_selectionQueryPosition (t, o)
  = (track set_selectionQueryPositionChanged false t,
     pushed (selectionQueryPositionChanged (m_changeTracker t))
       set_selectionQueryPositionChanged
       (setSelectionQueryPosition (m_selectionQueryPosition t)) o).
Proof. unfold sync_selectionQueryPosition. block_eq. Qed.

Lemma sync_slicingActive_eq t o :
  sync_slicingActive (t, o)
  = (track set_slicingActivatedChanged false t,
     pushed (slicingActivatedChanged (m_changeTracker t)) set_slicingActivatedChanged
       (setSlicingActive (m_isSlicingActive t)) o).
Proof. unfold sync_slicingActive. block_eq. Qed.

Lemma sync_devicePixelRatio_eq t o :
  sync_devicePixelRatio (t, o)
  = (track set_devicePixelRatioChanged false t,
     pushed (devicePixelRatioChanged (m_changeTracker t)) set_devicePixelRatioChanged
       (setDevicePixelRatio (m_devicePixelRatio t)) o).
Proof. unfold sync_devicePixelRatio. block_eq. Qed.

Section SyncFacts.

Variable ObjStore : Type.
Variable camera_setDirty : ptr -> bool -> ObjStore -> ObjStore.
Variable camera_sync : ptr -> ptr -> ObjStore -> ObjStore.
Variable light_setDirty : ptr -> bool -> ObjStore -> ObjStore.
Variable light_sync : ptr -> ptr -> ObjStore -> ObjStore.

Lemma sync_camera_eq h t o :
  snd (sync_camera ObjStore camera_setDirty camera_sync h (t, o))
  = (track set_cameraChanged false t,
     pushed (cameraChanged (m_changeTracker t)) set_cameraChanged (fun o => o) o).
Proof.
  unfold sync_camera, pushed.
  destruct (cameraChanged (m_changeTracker t)) eqn:E; cbn [snd]; [reflexivity|].
  f_equal; symmetry; eapply track_clear_unset; [|exact E].
  intros [] Hb; cbn in Hb; subst; reflexivity.
Qed.

Lemma sync_light_eq h t o :
  snd (sync_light ObjStore light_setDirty light_sync h (t, o))
  = (track set_lightChanged false t,
     pushed (lightChanged (m_changeTracker t)) set_lightChanged (fun o => o) o).
Proof.
  unfold sync_light, pushed.
  destruct (lightChanged (m_changeTracker t)) eqn:E; cbn [snd]; [reflexivity|].
  f_equal; symmetry; eapply track_clear_unset; [|exact E].
  intros [] Hb; cbn in Hb; subst; reflexivity.
Qed.

(** The two scenes after [sync]: the caller with every dirty bit and
    [m_sceneDirty] cleared and nothing else changed, the other scene as
    [syncedOther] gives it. *)
Lemma sync_scenes h s o :
  let r := sync ObjStore camera_setDirty camera_sync light_setDirty light_sync h s o in
  snd (fst r) = set_m_sceneDirty false (set_m_changeTracker noChanges s) /\
  snd r = syncedOther s o.
Proof.
  unfold sync.
  rewrite sync_windowSize_eq, sync_viewport_eq, sync_subViewportOrder_eq,
    sync_primarySubViewport_eq, sync_secondarySubViewport_eq,
    sync_selectionQueryPosition_eq.
  match goal with
  | |- context [sync_camera _ _ _ h (?t, ?o)] =>
      pose proof (sync_camera_eq h t o) as Hc;
      destruct (sync_camera ObjStore camera_setDirty camera_sync h (t, o)) as [h1 p1]
  end.
  cbn [snd] in Hc. subst p1.
  match goal with
  | |- context [sync_light _ _ _ h1 (?t, ?o)] =>
      pose proof (sync_light_eq h1 t o) as Hl;
      destruct (sync_light ObjStore light_setDirty light_sync h1 (t, o)) as [h2 p2]
  end.
  cbn [snd] in Hl. subst p2.
  rewrite sync_slicingActive_eq, sync_devicePixelRatio_eq.
  cbn [fst snd]. unfold syncedOther. open_scene s. split; reflexivity.
Qed.

End SyncFacts.

(** *** What the setters store *)

Lemma QSize_eqb_eq (a b : QSize) : QSize_eqb a b = true <-> a = b.
Proof.
  destruct a, b. unfold QSize_eqb. cbn. rewrite andb_true_iff, !Z.eqb_eq.
  split; [intros [-> ->]; reflexivity | intros [= -> ->]; split; reflexivity].
Qed.

Lemma QPoint_eqb_eq (a b : QPoint) : QPoint_eqb a b = true <-> a = b.
Proof.
  destruct a, b. unfold QPoint_eqb. cbn. rewrite andb_true_iff, !Z.eqb_eq.
  split; [intros [-> ->]; reflexivity | intros [= -> ->]; split; reflexivity].
Qed.

Lemma setWindowSize_value v o : m_windowSize (setWindowSize v o) = v.
Proof.
  unfold setWindowSize. destruct (QSize_eqb (m_windowSize o) v) eqn:E; cbn [negb].
  - apply QSize_eqb_eq in E. exact E.
  - open_scene o. reflexivity.
Qed.

Lemma calculateSubViewports_viewport s :
  m_viewport (calculateSubViewports s) = m_viewport s.
Proof. frame. Qed.

Lemma emit_viewport sig s : m_viewport (emit sig s) = m_viewport s.
Proof. destruct s. reflexivity. Qed.

Lemma setViewport_value v o : m_viewport (setViewport v o) = v.
Proof.
  unfold setViewport. destruct (QRect.eqb (m_viewport o) v) eqn:E; cbn [negb].
  - apply QRect_eqb_eq in E. exact E.
  - rewrite emit_viewport, calculateSubViewports_viewport. destruct o. reflexivity.
Qed.

Lemma setViewport_primary v o :
  m_primarySubViewport (setViewport v o)
  = if QRect.eqb (m_viewport o) v then m_primarySubViewport o
    else layoutPrimary (m_isSlicingActive o) v.
Proof.
  unfold setViewport. destruct (QRect.eqb (m_viewport o) v); cbn [negb]; [reflexivity|].
  rewrite emit_primary, calculateSubViewports_primary. destruct o. reflexivity.
Qed.

Lemma setViewport_secondary v o :
  m_secondarySubViewport (setViewport v o)
  = if QRect.eqb (m_viewport o) v then m_secondarySubViewport o
    else layoutSecondary (m_isSlicingActive o) v.
Proof.
  unfold setViewport. destruct (QRect.eqb (m_viewport o) v); cbn [negb]; [reflexivity|].
  rewrite emit_secondary, calculateSubViewports_secondary. destruct o. reflexivity.
Qed.

Lemma setSecondarySubviewOnTop_value v o :
  m_isSecondarySubviewOnTop (setSecondarySubviewOnTop v o) = v.
Proof.
  unfold setSecondarySubviewOnTop.
  destruct (Bool.eqb (m_isSecondarySubviewOnTop o) v) eqn:E; cbn [negb].
  - apply eqb_prop in E. exact E.
  - open_scene o. reflexivity.
Qed.

Lemma setSelectionQueryPosition_value v o :
  m_selectionQueryPosition (setSelectionQueryPosition v o) = v.
Proof.
  unfold setSelectionQueryPosition.
  destruct (QPoint_eqb v (m_selectionQueryPosition o)) eqn:E; cbn [negb].
  - apply QPoint_eqb_eq in E. symmetry. exact E.
  - open_scene o. reflexivity.
Qed.

Lemma setSlicingActive_value v o : m_isSlicingActive (setSlicingActive v o) = v.
Proof.
  unfold setSlicingActive. destruct (Bool.eqb (m_isSlicingActive o) v) eqn:E; cbn [negb].
  - apply eqb_prop in E. exact E.
  - frame.
Qed.

Lemma setSlicingActive_primary_eqb v o :
  m_primarySubViewport (setSlicingActive v o)
  = if Bool.eqb (m_isSlicingActive o) v then m_primarySubViewport o
    else layoutPrimary v (m_viewport o).
Proof.
  destruct (Bool.eqb (m_isSlicingActive o) v) eqn:E.
  - unfold setSlicingActive. rewrite E. reflexivity.
  - apply setSlicingActive_primary. destruct (m_isSlicingActive o), v; try discriminate;
      reflexivity.
Qed.

Lemma setSlicingActive_secondary_eqb v o :
  m_secondarySubViewport (setSlicingActive v o)
  = if Bool.eqb (m_isSlicingActive o) v then m_secondarySubViewport o
    else layoutSecondary v (m_viewport o).
Proof.
  destruct (Bool.eqb (m_isSlicingActive o) v) eqn:E.
  - unfold setSlicingActive. rewrite E. reflexivity.
  - apply setSlicingActive_secondary.
    destruct (m_isSlicingActive o), v; try discriminate; reflexivity.
Qed.

Lemma setDevicePixelRatio_value v o :
  m_devicePixelRatio (setDevicePixelRatio v o)
  = if Float32.eqb (m_devicePixelRatio o) v then m_devicePixelRatio o else v.
Proof.
  unfold setDevicePixelRatio.
  destruct (Float32.eqb (m_devicePixelRatio o) v); cbn [negb]; [reflexivity|].
  open_scene o. reflexivity.
Qed.

(** Setting a dirty bit leaves the attributes as they are. *)
Lemma track_values bit v s :
  m_windowSize (track bit v s) = m_windowSize s /\
  m_viewport (track bit v s) = m_viewport s /\
  m_isSecondarySubviewOnTop (track bit v s) = m_isSecondarySubviewOnTop s /\
  m_primarySubViewport (track bit v s) = m_primarySubViewport s /\
  m_secondarySubViewport (track bit v s) = m_secondarySubViewport s /\
  m_selectionQueryPosition (track bit v s) = m_selectionQueryPosition s /\
  m_isSlicingActive (track bit v s) = m_isSlicingActive s /\
  m_devicePixelRatio (track bit v s) = m_devicePixelRatio s.
Proof. destruct s. repeat split. Qed.

(** The value a block leaves in the other scene. *)
Lemma pushed_value {A} (get : Q3DScenePrivate -> A) b bit setter o :
  (forall s, get (track bit false s) = get s) ->
  get (pushed b bit setter o) = if b then get (setter o) else get o.
Proof. intros H. unfold pushed. destruct b; [apply H|reflexivity]. Qed.


(** *** The other scene after [sync] *)

Lemma set_m_sceneDirty_value v s : m_sceneDirty (set_m_sceneDirty v s) = v.
Proof. destruct s. reflexivity. Qed.

(** Names the scene after each block of [syncedOther], with what the block
    may have changed. *)
Ltac sync_chain s o :=
  unfold syncedOther; cbv zeta;
  set (bits := m_changeTracker s);
  set (o1 := pushed (windowSizeChanged bits) _ _ o);
  set (o2 := pushed (viewportChanged bits) _ _ o1);
  set (o3 := pushed (subViewportOrderChanged bits) _ _ o2);
  set (o4 := pushed (primarySubViewportChanged bits) _ _ o3);
  set (o5 := pushed (secondarySubViewportChanged bits) _ _ o4);
  set (o6 := pushed (selectionQueryPositionChanged bits) _ _ o5);
  set (o7 := pushed (cameraChanged bits) _ _ o6);
  set (o8 := pushed (lightChanged bits) _ _ o7);
  set (o9 := pushed (slicingActivatedChanged bits) _ _ o8);
  set (o10 := pushed (devicePixelRatioChanged bits) _ _ o9);
  pose proof (modifies_windowSize (windowSizeChanged bits) (m_windowSize s) o
              : modifies _ o o1) as F1;
  pose proof (modifies_viewport (viewportChanged bits) (m_viewport s) o1
              : modifies _ o1 o2) as F2;
  pose proof (modifies_order (subViewportOrderChanged bits)
                (m_isSecondarySubviewOnTop s) o2 : modifies _ o2 o3) as F3;
  pose proof (modifies_primary (primarySubViewportChanged bits)
                (m_primarySubViewport s) o3 : modifies _ o3 o4) as F4;
  pose proof (modifies_secondary (secondarySubViewportChanged bits)
                (m_secondarySubViewport s) o4 : modifies _ o4 o5) as F5;
  pose proof (modifies_selection (selectionQueryPositionChanged bits)
                (m_selectionQueryPosition s) o5 : modifies _ o5 o6) as F6;
  pose proof (modifies_camera (cameraChanged bits) o6 : modifies _ o6 o7) as F7;
  pose proof (modifies_light (lightChanged bits) o7 : modifies _ o7 o8) as F8;
  pose proof (modifies_slicing (slicingActivatedChanged bits)
                (m_isSlicingActive s) o8 : modifies _ o8 o9) as F9;
  pose proof (modifies_ratio (devicePixelRatioChanged bits)
                (m_devicePixelRatio s) o9 : modifies _ o9 o10) as F10;
  pose proof (modifies_clean o10) as F11.

(** Rewrites the part [a] after a block into the part before it. *)
Ltac keep F a :=
  let H := fresh "K" in
  pose proof (F a eq_refl) as H; cbn [kept] in H; rewrite H; clear H.

Lemma syncedOther_values s o :
  let bits := m_changeTracker s in
  let o' := syncedOther s o in
  m_sceneDirty o' = false /\
  m_windowSize o' = (if windowSizeChanged bits then m_windowSize s else m_windowSize o) /\
  m_viewport o' = (if viewportChanged bits then m_viewport s else m_viewport o) /\
  m_isSecondarySubviewOnTop o'
  = (if subViewportOrderChanged bits then m_isSecondarySubviewOnTop s
     else m_isSecondarySubviewOnTop o) /\
  m_selectionQueryPosition o'
  = (if selectionQueryPositionChanged bits then m_selectionQueryPosition s
     else m_selectionQueryPosition o) /\
  m_isSlicingActive o'
  = (if slicingActivatedChanged bits then m_isSlicingActive s else m_isSlicingActive o) /\
  m_devicePixelRatio o'
  = (if devicePixelRatioChanged bits
     then if Float32.eqb (m_devicePixelRatio o) (m_devicePixelRatio s)
          then m_devicePixelRatio o else m_devicePixelRatio s
     else m_devicePixelRatio o) /\
  m_camera o' = m_camera o /\
  m_light o' = m_light o.
Proof.
  intros bits0 o'. subst bits0 o'. sync_chain s o.
  split; [apply set_m_sceneDirty_value|]. split.
  { keep F11 AWindowSize. keep F10 AWindowSize. keep F9 AWindowSize.
    keep F8 AWindowSize. keep F7 AWindowSize. keep F6 AWindowSize.
    keep F5 AWindowSize. keep F4 AWindowSize. keep F3 AWindowSize.
    keep F2 AWindowSize. unfold o1.
    rewrite pushed_value by (intros; apply track_values).
    rewrite setWindowSize_value. reflexivity. }
  split.
  { keep F11 AViewport. keep F10 AViewport. keep F9 AViewport. keep F8 AViewport.
    keep F7 AViewport. keep F6 AViewport. keep F5 AViewport. keep F4 AViewport.
    keep F3 AViewport. unfold o2.
    rewrite pushed_value by (intros; apply track_values).
    rewrite setViewport_value. keep F1 AViewport. reflexivity. }
  split.
  { keep F11 AOrder. keep F10 AOrder. keep F9 AOrder. keep F8 AOrder.
    keep F7 AOrder. keep F6 AOrder. keep F5 AOrder. keep F4 AOrder. unfold o3.
    rewrite pushed_value by (intros; apply track_values).
    rewrite setSecondarySubviewOnTop_value. keep F2 AOrder. keep F1 AOrder.
    reflexivity. }
  split.
  { keep F11 ASelection. keep F10 ASelection. keep F9 ASelection. keep F8 ASelection.
    keep F7 ASelection. unfold o6.
    rewrite pushed_value by (intros; apply track_values).
    rewrite setSelectionQueryPosition_value.
    keep F5 ASelection. keep F4 ASelection. keep F3 ASelection. keep F2 ASelection.
    keep F1 ASelection. reflexivity. }
  split.
  { keep F11 ASlicing. keep F10 ASlicing. unfold o9.
    rewrite pushed_value by (intros; apply track_values).
    rewrite setSlicingActive_value.
    keep F8 ASlicing. keep F7 ASlicing. keep F6 ASlicing. keep F5 ASlicing.
    keep F4 ASlicing. keep F3 ASlicing. keep F2 ASlicing. keep F1 ASlicing.
    reflexivity. }
  split.
  { keep F11 ARatio. unfold o10.
    rewrite pushed_value by (intros; apply track_values).
    rewrite setDevicePixelRatio_value.
    keep F9 ARatio. keep F8 ARatio. keep F7 ARatio. keep F6 ARatio. keep F5 ARatio.
    keep F4 ARatio. keep F3 ARatio. keep F2 ARatio. keep F1 ARatio. reflexivity. }
  split.
  { keep F11 ACamera. keep F10 ACamera. keep F9 ACamera. keep F8 ACamera.
    keep F7 ACamera. keep F6 ACamera. keep F5 ACamera. keep F4 ACamera.
    keep F3 ACamera. keep F2 ACamera. keep F1 ACamera. reflexivity. }
  { keep F11 ALight. keep F10 ALight. keep F9 ALight. keep F8 ALight.
    keep F7 ALight. keep F6 ALight. keep F5 ALight. keep F4 ALight.
    keep F3 ALight. keep F2 ALight. keep F1 ALight. reflexivity. }
Qed.



(** *** The two scenes *)

Section SyncTheorems.

Variable ObjStore : Type.
Variable camera_setDirty : ptr -> bool -> ObjStore -> ObjStore.
Variable camera_sync : ptr -> ptr -> ObjStore -> ObjStore.
Variable light_setDirty : ptr -> bool -> ObjStore -> ObjStore.
Variable light_sync : ptr -> ptr -> ObjStore -> ObjStore.

(** With no dirty bit in the caller, [sync] runs the cameras' and the
    lights' own synchronisation and clears [m_sceneDirty], nothing else. *)
Lemma sync_without_changes h s o :
  m_changeTracker s = noChanges ->
  sync ObjStore camera_setDirty camera_sync light_setDirty light_sync h s o
  = (light_sync (m_light s) (m_light o) (camera_sync (m_camera s) (m_camera o) h),
     set_m_sceneDirty false s, set_m_sceneDirty false o).
Proof.
  intros H. destruct s as [? t ? ? ? ? ? ? ? ? ? ? ? ? ? ? ? ?]. cbn in H. subst t.
  reflexivity.
Qed.

Lemma set_m_sceneDirty_twice v s :
  set_m_sceneDirty v (set_m_sceneDirty v s) = set_m_sceneDirty v s.
Proof. destruct s. reflexivity. Qed.


(** C7.  A second [sync] from the same caller to the same other scene,
    right after the first, leaves both scenes as the first call left them
    (their logs of signals included); of the store of cameras and lights it
    only runs the cameras' and the lights' own synchronisation. *)
Theorem C7_sync_twice h s o :
  let r1 := sync ObjStore camera_setDirty camera_sync light_setDirty light_sync h s o in
  let h1 := fst (fst r1) in
  let s1 := snd (fst r1) in
  let o1 := snd r1 in
  sync ObjStore camera_setDirty camera_sync light_setDirty light_sync h1 s1 o1
  = (light_sync (m_light s1) (m_light o1)
       (camera_sync (m_camera s1) (m_camera o1) h1), s1, o1).
Proof.
  intros r1 h1 s1 o1.
  destruct (sync_scenes ObjStore camera_setDirty camera_sync light_setDirty light_sync
              h s o) as [Hs Ho].
  fold r1 in Hs, Ho. fold s1 in Hs. fold o1 in Ho.
  rewrite sync_without_changes by (rewrite Hs; destruct s; reflexivity).
  f_equal; [f_equal|].
  - rewrite Hs. apply set_m_sceneDirty_twice.
  - rewrite Ho. unfold syncedOther. cbv zeta. apply set_m_sceneDirty_twice.
Qed.

End SyncTheorems.



(** ** Row updates of the surface mesh *)

Section SurfaceRows.

Variable QVector3D : Type.
Variable QSurfaceDataArray : Type.
Variable GLfloat : Type.
Variable smoothVertex : QSurfaceDataArray -> GLfloat -> GLfloat -> Z -> Z -> QVector3D.
Variable smoothNormal : list QVector3D -> Z -> Z -> Z -> Z -> QVector3D.
Variable coarseRowLength : Z -> Z.
Variable coarseVertex : QSurfaceDataArray -> GLfloat -> GLfloat -> Z -> Z -> QVector3D.
Variable coarseNormal : list QVector3D -> Z -> Z -> Z -> Z -> QVector3D.

Lemma store_length (k : Z) (v : QVector3D) (buf : list QVector3D) :
  length (SurfaceObject.store k v buf) = length buf.
Proof.
  unfold SurfaceObject.store. destruct (0 <=? k); [apply length_insert|reflexivity].
Qed.

Lemma store_other (k : Z) (v : QVector3D) (buf : list QVector3D) (n : nat) :
  k <> Z.of_nat n -> SurfaceObject.store k v buf !! n = buf !! n.
Proof.
  intros H. unfold SurfaceObject.store. destruct (Z.leb_spec 0 k); [|reflexivity].
  apply list_lookup_insert_ne. lia.
Qed.

(** A sequence of writes leaves the entries it does not address, and the
    length of the buffer. *)
Lemma writes_outside {A} (idx : A -> Z) (val : A -> QVector3D) (l : list A)
    (buf : list QVector3D) (n : nat) :
  (forall a, a ∈ l -> idx a <> Z.of_nat n) ->
  foldl (fun b a => SurfaceObject.store (idx a) (val a) b) buf l !! n = buf !! n.
Proof.
  revert buf. induction l as [|a l IH]; intros buf H; cbn; [reflexivity|].
  rewrite IH by (intros b Hb; apply H; right; exact Hb).
  apply store_other, H. left.
Qed.

Lemma writes_length {A} (idx : A -> Z) (val : A -> QVector3D) (l : list A)
    (buf : list QVector3D) :
  length (foldl (fun b a => SurfaceObject.store (idx a) (val a) b) buf l) = length buf.
Proof.
  revert buf. induction l as [|a l IH]; intros buf; cbn; [reflexivity|].
  rewrite IH. apply store_length.
Qed.

Lemma fillRow_outside (rowLength : Z) (f : Z -> QVector3D) (i : Z)
    (buf : list QVector3D) (n : nat) :
  ~ (i * rowLength <= Z.of_nat n < (i + 1) * rowLength) ->
  SurfaceObject.fillRow rowLength f i buf !! n = buf !! n.
Proof.
  intros H. unfold SurfaceObject.fillRow. apply writes_outside.
  intros j Hj. apply elem_of_seqZ in Hj. lia.
Qed.

Lemma fillRow_length (rowLength : Z) (f : Z -> QVector3D) (i : Z)
    (buf : list QVector3D) :
  length (SurfaceObject.fillRow rowLength f i buf) = length buf.
Proof. apply writes_length. Qed.

Lemma rows_outside (rowLength : Z) (f : Z -> Z -> QVector3D) (rows : list Z)
    (buf : list QVector3D) (n : nat) :
  (forall i, i ∈ rows -> ~ (i * rowLength <= Z.of_nat n < (i + 1) * rowLength)) ->
  foldl (fun b i => SurfaceObject.fillRow rowLength (f i) i b) buf rows !! n = buf !! n.
Proof.
  revert buf. induction rows as [|i rows IH]; intros buf H; cbn; [reflexivity|].
  rewrite IH by (intros k Hk; apply H; right; exact Hk).
  apply fillRow_outside, H. left.
Qed.

Lemma rows_length (rowLength : Z) (f : Z -> Z -> QVector3D) (rows : list Z)
    (buf : list QVector3D) :
  length (foldl (fun b i => SurfaceObject.fillRow rowLength (f i) i b) buf rows)
  = length buf.
Proof.
  revert buf. induction rows as [|i rows IH]; intros buf; cbn; [reflexivity|].
  rewrite IH. apply fillRow_length.
Qed.

(** The entries outside the rows of the range are left as they are. *)
Lemma fillRows_outside (rowLength : Z) (f : Z -> Z -> QVector3D) (startRow endRow : Z)
    (buf : list QVector3D) (n : nat) :
  ~ (startRow * rowLength <= Z.of_nat n < endRow * rowLength) ->
  SurfaceObject.fillRows rowLength f startRow endRow buf !! n = buf !! n.
Proof.
  intros H. unfold SurfaceObject.fillRows. apply rows_outside.
  intros i Hi. apply elem_of_seqZ in Hi. nia.
Qed.

Lemma fillRows_length (rowLength : Z) (f : Z -> Z -> QVector3D) (startRow endRow : Z)
    (buf : list QVector3D) :
  length (SurfaceObject.fillRows rowLength f startRow endRow buf) = length buf.
Proof. apply rows_length. Qed.

(** C9.  [updateSmoothRows] on the rows [startRow <= row < endRow] keeps
    the numbers of columns and rows and the lengths of the buffers, and
    leaves every entry of the vertex and of the normal buffer outside the
    entries of these rows as it was; so the vertex of every cell in a row
    outside the range is the same before and after.  [updateCoarseRows]
    does the same on the buffers of the flat tessellation. *)
Theorem C9_row_update_frame (o : SurfaceObject.t QVector3D)
    (dataArray : QSurfaceDataArray) (startRow endRow : Z) (yRange yMin : GLfloat) :
  let smooth :=
    SurfaceObject.updateSmoothRows smoothVertex smoothNormal dataArray startRow endRow
      yRange yMin o in
  let coarse :=
    SurfaceObject.updateCoarseRows coarseRowLength coarseVertex coarseNormal dataArray
      startRow endRow yRange yMin o in
  let columns := SurfaceObject.m_columns o in
  let entries := coarseRowLength columns in
  (SurfaceObject.m_columns smooth = columns /\
   SurfaceObject.m_rows smooth = SurfaceObject.m_rows o /\
   length (SurfaceObject.m_vertices smooth) = length (SurfaceObject.m_vertices o) /\
   length (SurfaceObject.m_normals smooth) = length (SurfaceObject.m_normals o)) /\
  (forall n : nat,
     ~ (startRow * columns <= Z.of_nat n < endRow * columns) ->
     SurfaceObject.m_vertices smooth !! n = SurfaceObject.m_vertices o !! n /\
     SurfaceObject.m_normals smooth !! n = SurfaceObject.m_normals o !! n) /\
  (forall column row,
     ~ (startRow <= row < endRow) ->
     SurfaceObject.vertexAt column row smooth = SurfaceObject.vertexAt column row o) /\
  (SurfaceObject.m_columns coarse = columns /\
   SurfaceObject.m_rows coarse = SurfaceObject.m_rows o /\
   length (SurfaceObject.m_vertices coarse) = length (SurfaceObject.m_vertices o) /\
   length (SurfaceObject.m_normals coarse) = length (SurfaceObject.m_normals o)) /\
  (forall n : nat,
     ~ (startRow * entries <= Z.of_nat n < endRow * entries) ->
     SurfaceObject.m_vertices coarse !! n = SurfaceObject.m_vertices o !! n /\
     SurfaceObject.m_normals coarse !! n = SurfaceObject.m_normals o !! n).
Proof.
  intros smooth coarse columns entries.
  assert (Hbuf : forall n : nat,
     ~ (startRow * columns <= Z.of_nat n < endRow * columns) ->
     SurfaceObject.m_vertices smooth !! n = SurfaceObject.m_vertices o !! n /\
     SurfaceObject.m_normals smooth !! n = SurfaceObject.m_normals o !! n).
  { intros n H. split; apply fillRows_outside; exact H. }
  split; [|split; [exact Hbuf|split; [|split]]].
  - repeat split; try reflexivity; apply fillRows_length.
  - intros column row Hrow. unfold SurfaceObject.vertexAt.
    change (SurfaceObject.m_columns smooth) with columns.
    change (SurfaceObject.m_rows smooth) with (SurfaceObject.m_rows o).
    fold columns.
    destruct (Z.leb_spec 0 column); [|reflexivity].
    destruct (Z.ltb_spec column columns); [|reflexivity].
    destruct (Z.leb_spec 0 row); [|reflexivity].
    destruct (Z.ltb_spec row (SurfaceObject.m_rows o)); [|reflexivity].
    cbn [andb]. apply Hbuf. rewrite Z2Nat.id by nia. nia.
  - repeat split; try reflexivity; apply fillRows_length.
  - intros n H. split; apply fillRows_outside; exact H.
Qed.

End SurfaceRows.

(** The example of the specification: the rows 2 and 3 of a grid of
    10 x 10 are updated; the vertices of the rows 1 and 4 are as before,
    one of row 2 is new. *)
Lemma C9_row_update_frame_witness :
  SurfaceObject.vertexAt 3 1 grid10_updated = SurfaceObject.vertexAt 3 1 grid10 /\
  SurfaceObject.vertexAt 0 4 grid10_updated = SurfaceObject.vertexAt 0 4 grid10 /\
  SurfaceObject.m_vertices grid10_updated !! 19%nat
  = SurfaceObject.m_vertices grid10 !! 19%nat /\
  SurfaceObject.vertexAt 3 2 grid10_updated = Some (3, 5, 2) /\
  SurfaceObject.vertexAt 3 2 grid10 = Some (0, 0, 0).
Proof.
  destruct (C9_row_update_frame (Z * Z * Z) unit Z grid_vertex grid_normal
              grid_coarseRowLength grid_vertex grid_normal grid10 tt 2 4 0 0)
    as (_ & Hbuf & Hrow & _).
  split; [apply Hrow; lia|]. split; [apply Hrow; lia|].
  split; [apply Hbuf; vm_compute; intros [H _]; apply H; reflexivity|].
  split; vm_compute; reflexivity.
Defined.
(** * Further properties of the scene *)

#[local] Arguments Float32.scale : simpl never.
#[local] Arguments QRect.intersected : simpl never.
#[local] Arguments QRect.make : simpl never.
#[local] Arguments setPrimarySubViewport : simpl never.
#[local] Arguments setSecondarySubViewport : simpl never.
#[local] Arguments calculateSubViewports : simpl never.
#[local] Arguments updateGLViewport : simpl never.
#[local] Arguments updateGLSubViewports : simpl never.
#[local] Arguments setWindowSize : simpl never.
#[local] Arguments setViewport : simpl never.
#[local] Arguments setViewportSize : simpl never.
#[local] Arguments setSecondarySubviewOnTop : simpl never.
#[local] Arguments setSelectionQueryPosition : simpl never.
#[local] Arguments setSlicingActive : simpl never.
#[local] Arguments setDevicePixelRatio : simpl never.
#[local] Arguments connect : simpl never.
#[local] Arguments disconnect : simpl never.
#[local] Arguments countConnections : simpl never.
#[local] Arguments parent : simpl never.

(** ** What no call undoes *)

Lemma implb_trans (x y z : bool) : implb x y = true -> implb y z = true -> implb x z = true.
Proof. destruct x, y, z; auto. Qed.

Lemma bits_le_refl (b : Q3DSceneChangeBitField) : bits_le b b = true.
Proof. unfold bits_le. rewrite !implb_same. reflexivity. Qed.

Lemma bits_le_trans (a b c : Q3DSceneChangeBitField) :
  bits_le a b = true -> bits_le b c = true -> bits_le a c = true.
Proof.
  unfold bits_le. rewrite !andb_true_iff. intros H1 H2.
  repeat match goal with H : _ /\ _ |- _ => destruct H end.
  repeat split; eapply implb_trans; eassumption.
Qed.

Lemma neverCleared_refl (s : Q3DScenePrivate) : neverCleared s s.
Proof.
  split; [apply bits_le_refl|]. split; [apply implb_same|].
  exists []. symmetry. apply app_nil_r.
Qed.

Lemma neverCleared_trans (s t u : Q3DScenePrivate) :
  neverCleared s t -> neverCleared t u -> neverCleared s u.
Proof.
  intros (B1 & D1 & l1 & E1) (B2 & D2 & l2 & E2). split; [|split].
  - eapply bits_le_trans; eassumption.
  - eapply implb_trans; eassumption.
  - exists (l1 ++ l2). rewrite E2, E1, app_assoc. reflexivity.
Qed.

(** The steps the setters are made of. *)
Lemma nc_emit (sig : Signal.t) (s t : Q3DScenePrivate) :
  neverCleared s t -> neverCleared s (emit sig t).
Proof.
  intros H. apply (neverCleared_trans s t _ H). destruct t.
  split; [apply bits_le_refl|]. split; [apply implb_same|].
  exists [sig]. reflexivity.
Qed.

Lemma nc_track (bit : bool -> Q3DSceneChangeBitField -> Q3DSceneChangeBitField)
    (s t : Q3DScenePrivate) :
  (forall b, bits_le b (bit true b) = true) ->
  neverCleared s t -> neverCleared s (track bit true t).
Proof.
  intros Hbit H. apply (neverCleared_trans s t _ H). destruct t.
  split; [apply Hbit|]. split; [apply implb_same|].
  exists []. symmetry. apply app_nil_r.
Qed.

Lemma nc_dirty (s t : Q3DScenePrivate) :
  neverCleared s t -> neverCleared s (set_m_sceneDirty true t).
Proof.
  intros H. apply (neverCleared_trans s t _ H). destruct t.
  split; [apply bits_le_refl|]. split; [apply implb_true_r|].
  exists []. symmetry. apply app_nil_r.
Qed.

(** A step that writes neither the dirty bits, nor [m_sceneDirty], nor the
    log. *)
Lemma nc_silent (f : Q3DScenePrivate -> Q3DScenePrivate) (s t : Q3DScenePrivate) :
  (forall u, m_changeTracker (f u) = m_changeTracker u /\
             m_sceneDirty (f u) = m_sceneDirty u /\ emitted (f u) = emitted u) ->
  neverCleared s t -> neverCleared s (f t).
Proof.
  intros Hf H. apply (neverCleared_trans s t _ H).
  destruct (Hf t) as (B & D & E). unfold neverCleared. rewrite B, D, E.
  apply neverCleared_refl.
Qed.

Ltac bit_set :=
  intros []; unfold bits_le, anyChange; cbn;
  rewrite ?implb_same, ?implb_true_r, ?orb_true_r; reflexivity.
Ltac silent := intros []; repeat split; reflexivity.

(** One step of a setter. *)
Ltac nc_step :=
  lazymatch goal with
  | H : neverCleared ?s ?t |- neverCleared ?s ?t => exact H
  | |- neverCleared ?s ?s => apply neverCleared_refl
  | |- neverCleared _ (emit _ _) => apply nc_emit
  | |- neverCleared _ (set_m_sceneDirty true _) => apply nc_dirty
  | |- neverCleared _ (track _ true _) => apply nc_track; [bit_set|]
  | |- neverCleared _ (?f ?t) => apply (nc_silent f); [silent|]
  end.

Lemma nc_updateGLViewport (s t : Q3DScenePrivate) :
  neverCleared s t -> neverCleared s (updateGLViewport t).
Proof. intros H. unfold updateGLViewport. cbv zeta. repeat nc_step. Qed.

Lemma nc_setPrimarySubViewport (R : QRect) (s t : Q3DScenePrivate) :
  neverCleared s t -> neverCleared s (setPrimarySubViewport R t).
Proof.
  intros H. unfold setPrimarySubViewport. cbv zeta. destruct (negb _); [|exact H].
  repeat nc_step.
Qed.

Lemma nc_setSecondarySubViewport (R : QRect) (s t : Q3DScenePrivate) :
  neverCleared s t -> neverCleared s (setSecondarySubViewport R t).
Proof.
  intros H. unfold setSecondarySubViewport. cbv zeta. destruct (negb _); [|exact H].
  repeat nc_step.
Qed.

Lemma nc_calculateSubViewports (s t : Q3DScenePrivate) :
  neverCleared s t -> neverCleared s (calculateSubViewports t).
Proof.
  intros H. unfold calculateSubViewports. cbv zeta. apply nc_updateGLViewport.
  destruct (m_isSlicingActive t);
    apply nc_setSecondarySubViewport, nc_setPrimarySubViewport, H.
Qed.

Ltac nc_steps :=
  repeat lazymatch goal with
         | H : neverCleared ?s ?t |- neverCleared ?s ?t => exact H
         | |- neverCleared ?s ?s => apply neverCleared_refl
         | |- neverCleared _ (calculateSubViewports _) => apply nc_calculateSubViewports
         | |- neverCleared _ (updateGLViewport _) => apply nc_updateGLViewport
         | |- neverCleared _ (setPrimarySubViewport _ _) => apply nc_setPrimarySubViewport
         | |- neverCleared _ (setSecondarySubViewport _ _) =>
             apply nc_setSecondarySubViewport
         | |- _ => nc_step
         end.

Lemma nc_applySetter (c : Setter) (s : Q3DScenePrivate) : neverCleared s (applySetter c s).
Proof.
  destruct c; cbn [applySetter].
  - unfold setViewport. cbv zeta. destruct (negb _); nc_steps.
  - unfold setViewportSize. cbv zeta. destruct (_ || _); nc_steps.
  - unfold setWindowSize. cbv zeta. destruct (negb _); nc_steps.
  - nc_steps.
  - nc_steps.
  - unfold setSelectionQueryPosition. cbv zeta. destruct (negb _); nc_steps.
  - unfold setSlicingActive. cbv zeta. destruct (negb _); nc_steps.
  - unfold setSecondarySubviewOnTop. cbv zeta. destruct (negb _); nc_steps.
  - unfold setDevicePixelRatio. cbv zeta. destruct (negb _); nc_steps.
Qed.

Lemma nc_setActiveCamera (camera : ptr) (w w' : QObjects) (s s' : Q3DScenePrivate) :
  setActiveCamera camera w s = Ok (w', s') -> neverCleared s s'.
Proof.
  unfold setActiveCamera. destruct camera as [c|]; [|discriminate]. cbv zeta.
  destruct (negb (ptr_eqb _ (m_camera s))); intros [= _ <-]; nc_steps.
Qed.

Lemma nc_setActiveLight (light : ptr) (w w' : QObjects) (s s' : Q3DScenePrivate) :
  setActiveLight light w s = Ok (w', s') -> neverCleared s s'.
Proof.
  unfold setActiveLight. destruct light as [l|]; [|discriminate]. cbv zeta.
  destruct (negb (ptr_eqb _ (m_light s))); intros [= _ <-]; nc_steps.
Qed.

Lemma nc_call (c : Call) (x y : QObjects * Q3DScenePrivate) :
  call c x = Ok y -> neverCleared (snd x) (snd y).
Proof.
  destruct x as [w s], y as [w' s']. destruct c as [c|camera|light]; cbn [call fst snd].
  - intros [= _ <-]. apply nc_applySetter.
  - apply nc_setActiveCamera.
  - apply nc_setActiveLight.
Qed.

(** X1.  No call on a scene clears a dirty bit, unsets [m_sceneDirty] or
    drops a signal from the log: after every sequence of setters and of
    calls of [setActiveCamera] and [setActiveLight] that returns, each dirty
    bit that was set is still set, [m_sceneDirty] is still set if it was,
    and the log of signals is the former log followed by the new signals.
    (Only [sync] clears.) *)
Theorem calls_never_clear (cs : list Call) (w : QObjects) (s : Q3DScenePrivate)
    (y : QObjects * Q3DScenePrivate) :
  run cs (w, s) = Ok y -> neverCleared s (snd y).
Proof.
  revert w s. induction cs as [|c cs IH]; intros w s; cbn [run].
  - intros [= <-]. apply neverCleared_refl.
  - destruct (call c (w, s)) as [[w1 s1]|] eqn:E; [|discriminate].
    intros H. eapply neverCleared_trans; [exact (nc_call c _ _ E)|exact (IH w1 s1 H)].
Qed.

Lemma calls_never_clear_witness :
  run calls_example (world_empty, scene_new) = Ok scene_after_calls /\
  neverCleared scene_new (snd scene_after_calls).
Proof.
  assert (H : run calls_example (world_empty, scene_new) = Ok scene_after_calls)
    by (vm_compute; reflexivity).
  split; [exact H|].
  exact (calls_never_clear calls_example world_empty scene_new scene_after_calls H).
Defined.

(** ** Every change is tracked *)

Lemma emitted_emit (sig : Signal.t) (s : Q3DScenePrivate) :
  emitted (emit sig s) = emitted s ++ [sig].
Proof. destruct s. reflexivity. Qed.

Lemma dirty_emit (sig : Signal.t) (s : Q3DScenePrivate) :
  m_sceneDirty (emit sig s) = m_sceneDirty s.
Proof. destruct s. reflexivity. Qed.

Lemma tracker_emit (sig : Signal.t) (s : Q3DScenePrivate) :
  m_changeTracker (emit sig s) = m_changeTracker s.
Proof. destruct s. reflexivity. Qed.

Lemma anyChange_le (a b : Q3DSceneChangeBitField) :
  bits_le a b = true -> anyChange a = true -> anyChange b = true.
Proof.
  unfold bits_le, anyChange. rewrite !andb_true_iff, !orb_true_iff.
  intros H. repeat match goal with H : _ /\ _ |- _ => destruct H end.
  intros Ha.
  repeat match goal with H : _ \/ _ |- _ => destruct H end;
    match goal with
    | Hx : ?get a = true, Hi : implb (?get a) (?get b) = true |- _ =>
        rewrite Hx in Hi; cbn in Hi; rewrite Hi
    end; rewrite ?orb_true_r; auto 12.
Qed.

(** A scene that is marked as changed stays so in every later state. *)
Lemma marked_later (s t : Q3DScenePrivate) :
  neverCleared s t ->
  m_sceneDirty s = true /\ anyChange (m_changeTracker s) = true ->
  m_sceneDirty t = true /\ anyChange (m_changeTracker t) = true.
Proof.
  intros (B & D & _) (Hd & Ha). split.
  - rewrite Hd in D. exact D.
  - exact (anyChange_le _ _ B Ha).
Qed.

Lemma marked_track (bit : bool -> Q3DSceneChangeBitField -> Q3DSceneChangeBitField)
    (s : Q3DScenePrivate) :
  (forall b, anyChange (bit true b) = true) ->
  m_sceneDirty (set_m_sceneDirty true (track bit true s)) = true /\
  anyChange (m_changeTracker (set_m_sceneDirty true (track bit true s))) = true.
Proof. intros H. destruct s. split; [reflexivity|apply H]. Qed.

Lemma marked_updateGLViewport (s : Q3DScenePrivate) :
  m_sceneDirty (updateGLViewport s) = true /\
  anyChange (m_changeTracker (updateGLViewport s)) = true.
Proof. open_scene s. split; reflexivity. Qed.

Lemma marked_calculateSubViewports (s : Q3DScenePrivate) :
  m_sceneDirty (calculateSubViewports s) = true /\
  anyChange (m_changeTracker (calculateSubViewports s)) = true.
Proof. unfold calculateSubViewports. cbv zeta. apply marked_updateGLViewport. Qed.

(** The state after the last step of a changing setter, which is
    [emit needRender]. *)
Lemma tracked_at_needRender (s t : Q3DScenePrivate) :
  neverCleared s t ->
  m_sceneDirty t = true /\ anyChange (m_changeTracker t) = true ->
  m_sceneDirty (emit Signal.needRender t) = true /\
  anyChange (m_changeTracker (emit Signal.needRender t)) = true /\
  exists new, emitted (emit Signal.needRender t) = emitted s ++ new ++ [Signal.needRender].
Proof.
  intros (_ & _ & l & E) (Hd & Ha).
  rewrite dirty_emit, tracker_emit, emitted_emit, E.
  split; [exact Hd|]. split; [exact Ha|].
  exists l. rewrite app_assoc. reflexivity.
Qed.

Ltac marked :=
  repeat lazymatch goal with
         | |- m_sceneDirty (emit _ ?t) = true /\ _ =>
             apply (marked_later t); [nc_steps|]
         | |- m_sceneDirty (set_m_sceneDirty true (track _ true _)) = true /\ _ =>
             apply marked_track; bit_set
         | |- m_sceneDirty (updateGLViewport _) = true /\ _ => apply marked_updateGLViewport
         | |- m_sceneDirty (calculateSubViewports _) = true /\ _ =>
             apply marked_calculateSubViewports
         end.

(** X2.  A setter either returns the scene as it was (the new value is the
    stored one), or it leaves [m_sceneDirty] set, some dirty bit set, and
    its last signal is [needRender]. *)
Theorem setter_change_is_tracked (c : Setter) (s : Q3DScenePrivate) :
  applySetter c s = s \/
  (m_sceneDirty (applySetter c s) = true /\
   anyChange (m_changeTracker (applySetter c s)) = true /\
   exists new, emitted (applySetter c s) = emitted s ++ new ++ [Signal.needRender]).
Proof.
  destruct c; cbn [applySetter].
  - unfold setViewport. cbv zeta. destruct (negb _); [right|left; reflexivity].
    apply tracked_at_needRender; [nc_steps|marked].
  - unfold setViewportSize. cbv zeta. destruct (_ || _); [right|left; reflexivity].
    apply tracked_at_needRender; [nc_steps|marked].
  - unfold setWindowSize. cbv zeta. destruct (negb _); [right|left; reflexivity].
    apply tracked_at_needRender; [nc_steps|marked].
  - unfold setPrimarySubViewport. cbv zeta. destruct (negb _); [right|left; reflexivity].
    apply tracked_at_needRender; [nc_steps|marked].
  - unfold setSecondarySubViewport. cbv zeta. destruct (negb _); [right|left; reflexivity].
    apply tracked_at_needRender; [nc_steps|marked].
  - unfold setSelectionQueryPosition. cbv zeta.
    destruct (negb _); [right|left; reflexivity].
    apply tracked_at_needRender; [nc_steps|marked].
  - unfold setSlicingActive. cbv zeta. destruct (negb _); [right|left; reflexivity].
    apply tracked_at_needRender; [nc_steps|marked].
  - unfold setSecondarySubviewOnTop. cbv zeta.
    destruct (negb _); [right|left; reflexivity].
    apply tracked_at_needRender; [nc_steps|marked].
  - unfold setDevicePixelRatio. cbv zeta. destruct (negb _); [right|left; reflexivity].
    apply tracked_at_needRender; [nc_steps|marked].
Qed.

(** ** Setting the same value again *)

Lemma Float32_eqb_refl (r : float) : r <> S754_nan -> Float32.eqb r r = true.
Proof.
  intros H. destruct r as [[]|[]| |[] m e]; try reflexivity; try contradiction;
    unfold Float32.eqb, SFeqb, SFcompare; rewrite Z.compare_refl, Pos.compare_cont_refl;
    reflexivity.
Qed.

Lemma setViewportSize_size (w h : Z) (s : Q3DScenePrivate) :
  QRect.width (m_viewport (setViewportSize w h s)) = w /\
  QRect.height (m_viewport (setViewportSize w h s)) = h.
Proof.
  unfold setViewportSize. cbv zeta.
  destruct (negb (_ =? w) || negb (_ =? h)) eqn:E.
  - rewrite emit_viewport, calculateSubViewports_viewport.
    destruct s as [q bits [x1 y1 x2 y2] p sec top ratio cam lgt under slicing sel ws gv gp gs
                     d em].
    unfold QRect.width, QRect.height. cbn. lia.
  - apply orb_false_iff in E as [Ew Eh]. apply negb_false_iff in Ew, Eh.
    apply Z.eqb_eq in Ew, Eh. split; assumption.
Qed.

Lemma Bool_eqb_refl (b : bool) : Bool.eqb b b = true.
Proof. destruct b; reflexivity. Qed.

(** X3.  Setting the value that was just set changes nothing: for every
    setter of the scene, the second of two calls with the same argument
    returns the scene of the first, with no further signal.  (A pixel ratio
    that is a NaN is excepted: it differs from itself.) *)
Theorem setter_twice (c : Setter) (s : Q3DScenePrivate) :
  passesNaN c = false ->
  applySetter c (applySetter c s) = applySetter c s.
Proof.
  intros Hnan. destruct c as [v|w h|sz|R|R|p|b|b|r]; cbn [applySetter].
  - unfold setViewport at 1. rewrite setViewport_value, QRect_eqb_refl. reflexivity.
  - unfold setViewportSize at 1. destruct (setViewportSize_size w h s) as [-> ->].
    rewrite !Z.eqb_refl. reflexivity.
  - unfold setWindowSize at 1. rewrite setWindowSize_value.
    rewrite (proj2 (QSize_eqb_eq sz sz) eq_refl). reflexivity.
  - unfold setPrimarySubViewport at 1. cbv zeta.
    rewrite setPrimarySubViewport_viewport, setPrimarySubViewport_stored, QRect_eqb_refl.
    reflexivity.
  - unfold setSecondarySubViewport at 1. cbv zeta.
    rewrite setSecondarySubViewport_viewport, setSecondarySubViewport_stored,
      QRect_eqb_refl.
    reflexivity.
  - unfold setSelectionQueryPosition at 1. rewrite setSelectionQueryPosition_value.
    rewrite (proj2 (QPoint_eqb_eq p p) eq_refl). reflexivity.
  - unfold setSlicingActive at 1. rewrite setSlicingActive_value, Bool_eqb_refl.
    reflexivity.
  - unfold setSecondarySubviewOnTop at 1.
    rewrite setSecondarySubviewOnTop_value, Bool_eqb_refl. reflexivity.
  - unfold setDevicePixelRatio at 1. rewrite setDevicePixelRatio_value.
    destruct (Float32.eqb (m_devicePixelRatio s) r) eqn:E.
    + cbv iota. rewrite E. reflexivity.
    + rewrite Float32_eqb_refl; [reflexivity|].
      intros ->. discriminate Hnan.
Qed.

Lemma setter_twice_witness :
  applySetter (SetDevicePixelRatio Float32.two)
    (applySetter (SetDevicePixelRatio Float32.two) scene_offset)
  = applySetter (SetDevicePixelRatio Float32.two) scene_offset.
Proof. apply (setter_twice (SetDevicePixelRatio Float32.two) scene_offset). reflexivity. Defined.

(** ** The comparison of pixel ratios *)

Lemma emitted_updateGLViewport (s : Q3DScenePrivate) :
  emitted (updateGLViewport s) = emitted s ++ [Signal.viewportChanged (m_viewport s)].
Proof. destruct s. reflexivity. Qed.

Lemma setDevicePixelRatio_changed (r : float) (s : Q3DScenePrivate) :
  Float32.eqb (m_devicePixelRatio s) r = false ->
  m_devicePixelRatio (setDevicePixelRatio r s) = r /\
  devicePixelRatioChanged (m_changeTracker (setDevicePixelRatio r s)) = true /\
  emitted (setDevicePixelRatio r s)
  = emitted s ++ [Signal.devicePixelRatioChanged r; Signal.viewportChanged (m_viewport s);
                  Signal.needRender].
Proof.
  intros E. unfold setDevicePixelRatio. rewrite E. cbn [negb]. open_scene s.
  repeat split.
  rewrite emitted_emit, emitted_updateGLViewport. cbn. rewrite <- !app_assoc. reflexivity.
Qed.

(** X4.  [setDevicePixelRatio] compares floats with [!=].  A NaN differs
    from every float, itself included: each call with a NaN stores it, sets
    the dirty bit and emits [devicePixelRatioChanged], [viewportChanged] and
    [needRender] again, also when the stored ratio is that NaN already.  The
    two zeros are equal: a call with a zero on a scene whose ratio is a zero
    returns the scene as it is, whatever the signs. *)
Theorem setDevicePixelRatio_compares_floats (s : Q3DScenePrivate) :
  let nan := S754_nan in
  let s1 := setDevicePixelRatio nan s in
  let s2 := setDevicePixelRatio nan s1 in
  let new (t : Q3DScenePrivate) :=
    [Signal.devicePixelRatioChanged nan; Signal.viewportChanged (m_viewport t);
     Signal.needRender] in
  (m_devicePixelRatio s1 = nan /\
   devicePixelRatioChanged (m_changeTracker s1) = true /\
   emitted s1 = emitted s ++ new s) /\
  (emitted s2 = emitted s1 ++ new s1 /\ s2 <> s1) /\
  (forall a b, m_devicePixelRatio s = S754_zero a ->
     setDevicePixelRatio (S754_zero b) s = s).
Proof.
  intros nan s1 s2 new.
  assert (Hne : forall f, Float32.eqb f nan = false) by (intros [[]|[]| |[] m e]; reflexivity).
  split; [apply setDevicePixelRatio_changed, Hne|]. split.
  - destruct (setDevicePixelRatio_changed nan s1 (Hne _)) as (_ & _ & E).
    split; [exact E|].
    intros Heq. fold s2 in E. rewrite Heq in E.
    apply (f_equal (@length _)) in E. rewrite length_app in E. cbn in E. lia.
  - intros a b Hz. unfold setDevicePixelRatio. rewrite Hz. reflexivity.
Qed.

Lemma setDevicePixelRatio_compares_floats_witness :
  setDevicePixelRatio (S754_zero true)
    (setDevicePixelRatio (S754_zero false) scene_offset)
  = setDevicePixelRatio (S754_zero false) scene_offset.
Proof.
  destruct (setDevicePixelRatio_compares_floats
              (setDevicePixelRatio (S754_zero false) scene_offset)) as (_ & _ & H).
  apply (H false true). vm_compute. reflexivity.
Defined.

(** ** The size of the viewport *)

Lemma set_m_viewport_twice (a b : QRect) (s : Q3DScenePrivate) :
  set_m_viewport b (set_m_viewport a s) = set_m_viewport b s.
Proof. destruct s. reflexivity. Qed.

Lemma set_m_viewport_value (a : QRect) (s : Q3DScenePrivate) :
  m_viewport (set_m_viewport a s) = a.
Proof. destruct s. reflexivity. Qed.

(** X5.  [setViewportSize] is [setViewport] with the viewport resized at
    its place: the same scene, dirty bits and signals result from both,
    and [setViewportSize] returns the scene as it is when the viewport has
    that size already. *)
Theorem setViewportSize_as_setViewport (width height : Z) (s : Q3DScenePrivate) :
  setViewportSize width height s
  = setViewport (QRect.setHeight height (QRect.setWidth width (m_viewport s))) s /\
  (QRect.width (m_viewport s) = width /\ QRect.height (m_viewport s) = height ->
   setViewportSize width height s = s).
Proof.
  split.
  - unfold setViewportSize, setViewport. cbv zeta.
    rewrite set_m_viewport_twice, set_m_viewport_value.
    replace (QRect.eqb (m_viewport s) _)
      with ((QRect.width (m_viewport s) =? width)
            && (QRect.height (m_viewport s) =? height)).
    + rewrite negb_andb.
      destruct (negb _ || negb _); reflexivity.
    + destruct (m_viewport s) as [x1 y1 x2 y2].
      unfold QRect.eqb, QRect.width, QRect.height, QRect.setHeight, QRect.setWidth.
      cbn [QRect.x1 QRect.x2 QRect.y1 QRect.y2]. rewrite !Z.eqb_refl.
      cbn [andb]. rewrite andb_true_r.
      f_equal; apply eq_iff_eq_true; rewrite !Z.eqb_eq; lia.
  - intros [Hw Hh]. unfold setViewportSize. rewrite Hw, Hh, !Z.eqb_refl. reflexivity.
Qed.

Lemma setViewportSize_as_setViewport_witness :
  setViewportSize 800 600 scene_offset = scene_offset.
Proof.
  apply (setViewportSize_as_setViewport 800 600 scene_offset).
  split; vm_compute; reflexivity.
Defined.

(** ** Leaving the slice view and entering it again *)

Lemma setSlicingActive_viewport (b : bool) (s : Q3DScenePrivate) :
  m_viewport (setSlicingActive b s) = m_viewport s.
Proof.
  unfold setSlicingActive. cbv zeta. destruct (negb _); [|reflexivity].
  rewrite !emit_viewport, calculateSubViewports_viewport. destruct s. reflexivity.
Qed.

Lemma Bool_eqb_negb (b : bool) : Bool.eqb (negb b) b = false.
Proof. destruct b; reflexivity. Qed.

(** X6.  Toggling the slice view twice gives the default layout of the
    mode the scene is in: on a scene in the mode [b], after
    [setSlicingActive (negb b)] and [setSlicingActive b] the mode is [b]
    again, the viewport is as before, and the two sub-viewports are the
    ones [calculateSubViewports] lays out for [b], whatever they were.  So
    a scene that had entered the mode [b] by [setSlicingActive] gets back
    the sub-viewports it had, and sub-viewports set by hand are lost. *)
Theorem slicing_round_trip (b : bool) (s : Q3DScenePrivate) :
  m_isSlicingActive s = b ->
  let s2 := setSlicingActive b (setSlicingActive (negb b) s) in
  (m_isSlicingActive s2 = b /\
   m_viewport s2 = m_viewport s /\
   m_primarySubViewport s2 = layoutPrimary b (m_viewport s) /\
   m_secondarySubViewport s2 = layoutSecondary b (m_viewport s)) /\
  (forall s0, m_isSlicingActive s0 = negb b -> s = setSlicingActive b s0 ->
     m_primarySubViewport s2 = m_primarySubViewport s /\
     m_secondarySubViewport s2 = m_secondarySubViewport s).
Proof.
  intros Hb s2.
  assert (Hp : m_primarySubViewport s2 = layoutPrimary b (m_viewport s)).
  { unfold s2. rewrite setSlicingActive_primary_eqb, setSlicingActive_value,
      Bool_eqb_negb, setSlicingActive_viewport. reflexivity. }
  assert (Hs : m_secondarySubViewport s2 = layoutSecondary b (m_viewport s)).
  { unfold s2. rewrite setSlicingActive_secondary_eqb, setSlicingActive_value,
      Bool_eqb_negb, setSlicingActive_viewport. reflexivity. }
  split.
  - split; [apply setSlicingActive_value|]. split; [|split; assumption].
    unfold s2. rewrite !setSlicingActive_viewport. reflexivity.
  - intros s0 H0 ->. rewrite Hp, Hs.
    rewrite setSlicingActive_primary_eqb, setSlicingActive_secondary_eqb, H0,
      Bool_eqb_negb, setSlicingActive_viewport.
    split; reflexivity.
Qed.

Lemma slicing_round_trip_witness :
  m_primarySubViewport (setSlicingActive true (setSlicingActive false scene_offset))
  = QRect.make 0 0 160 120 /\
  m_secondarySubViewport (setSlicingActive true (setSlicingActive false scene_offset))
  = QRect.make 0 0 800 600.
Proof.
  destruct (slicing_round_trip true scene_offset) as [(_ & _ & Hp & Hs) _];
    [vm_compute; reflexivity|].
  cbn [negb] in Hp, Hs. rewrite Hp, Hs. split; vm_compute; reflexivity.
Defined.

(** ** The signals of a new layout *)

Lemma emitted_setPrimarySubViewport (R : QRect) (s : Q3DScenePrivate) :
  emitted (setPrimarySubViewport R s)
  = emitted s
    ++ subViewportSignals Signal.primarySubViewportChanged (m_primarySubViewport s)
         (QRect.intersected R (clipBox (m_viewport s))).
Proof.
  unfold setPrimarySubViewport, subViewportSignals, clipBox. cbv zeta.
  destruct (QRect.eqb _ _); cbn [negb].
  - symmetry. apply app_nil_r.
  - rewrite !emitted_emit, <- app_assoc. destruct s. reflexivity.
Qed.

Lemma emitted_setSecondarySubViewport (R : QRect) (s : Q3DScenePrivate) :
  emitted (setSecondarySubViewport R s)
  = emitted s
    ++ subViewportSignals Signal.secondarySubViewportChanged (m_secondarySubViewport s)
         (QRect.intersected R (clipBox (m_viewport s))).
Proof.
  unfold setSecondarySubViewport, subViewportSignals, clipBox. cbv zeta.
  destruct (QRect.eqb _ _); cbn [negb].
  - symmetry. apply app_nil_r.
  - rewrite !emitted_emit, <- app_assoc. destruct s. reflexivity.
Qed.

Lemma emitted_calculateSubViewports (s : Q3DScenePrivate) :
  emitted (calculateSubViewports s)
  = emitted s
    ++ layoutSignals (m_isSlicingActive s) (m_viewport s) (m_primarySubViewport s)
         (m_secondarySubViewport s).
Proof.
  unfold calculateSubViewports, layoutSignals. cbv zeta.
  rewrite emitted_updateGLViewport.
  destruct (m_isSlicingActive s);
    rewrite emitted_setSecondarySubViewport, emitted_setPrimarySubViewport,
      setSecondarySubViewport_viewport, !setPrimarySubViewport_viewport,
      setPrimarySubViewport_secondary, <- !app_assoc; reflexivity.
Qed.

(** X7.  A new layout and its signals.  [calculateSubViewports] emits the
    signals of the sub-viewports it replaces first (each followed by
    [needRender], none for a sub-viewport that stays), and
    [viewportChanged] after them, in every call.  So [setViewport] with a
    new viewport replaces the sub-viewports, also those set by hand, by the
    default layout for the new viewport, and ends its signals with
    [viewportChanged] and [needRender]; and [setSlicingActive] with a new
    mode emits [viewportChanged] for a viewport it has not changed, before
    [slicingActiveChanged] and [needRender]. *)
Theorem layout_signals (s : Q3DScenePrivate) :
  let V := m_viewport s in
  let p := m_primarySubViewport s in
  let q := m_secondarySubViewport s in
  emitted (calculateSubViewports s)
  = emitted s ++ layoutSignals (m_isSlicingActive s) V p q /\
  (forall v, v <> V ->
     m_primarySubViewport (setViewport v s) = layoutPrimary (m_isSlicingActive s) v /\
     m_secondarySubViewport (setViewport v s) = layoutSecondary (m_isSlicingActive s) v /\
     emitted (setViewport v s)
     = emitted s ++ layoutSignals (m_isSlicingActive s) v p q ++ [Signal.needRender]) /\
  (forall b, b <> m_isSlicingActive s ->
     m_viewport (setSlicingActive b s) = V /\
     emitted (setSlicingActive b s)
     = emitted s ++ layoutSignals b V p q
       ++ [Signal.slicingActiveChanged b; Signal.needRender]).
Proof.
  intros V p q. split; [apply emitted_calculateSubViewports|]. split.
  - intros v Hv.
    assert (E : QRect.eqb (m_viewport s) v = false)
      by (apply QRect_eqb_neq; intros E; apply Hv; symmetry; exact E).
    rewrite setViewport_primary, setViewport_secondary, E.
    split; [reflexivity|]. split; [reflexivity|].
    unfold setViewport. rewrite E. cbn [negb].
    rewrite emitted_emit, emitted_calculateSubViewports, <- !app_assoc. destruct s.
    reflexivity.
  - intros b Hb. split; [apply setSlicingActive_viewport|].
    rewrite setSlicingActive_changed
      by (destruct b, (m_isSlicingActive s); try reflexivity; contradiction).
    rewrite !emitted_emit, emitted_calculateSubViewports, <- !app_assoc. destruct s.
    reflexivity.
Qed.

Lemma layout_signals_witness :
  emitted (setSlicingActive false scene_offset)
  = emitted scene_offset
    ++ [Signal.primarySubViewportChanged (QRect.make 0 0 800 600); Signal.needRender;
        Signal.secondarySubViewportChanged QRect.null; Signal.needRender;
        Signal.viewportChanged (QRect.make 100 50 800 600);
        Signal.slicingActiveChanged false; Signal.needRender].
Proof.
  destruct (layout_signals scene_offset) as (_ & _ & H).
  destruct (H false) as [_ E]; [vm_compute; discriminate|].
  rewrite E. vm_compute. reflexivity.
Defined.

(** ** The sub-viewports stay in the box of the viewport *)

Lemma withinBox_intersected (R V : QRect) : withinBox (QRect.intersected R (clipBox V)) V.
Proof. intros px py. rewrite intersected_contains, andb_true_iff. tauto. Qed.

Lemma withinBox_null (V : QRect) : withinBox QRect.null V.
Proof.
  intros px py H. apply contains_span in H.
  unfold QRect.null, span_lo, span_hi in H. cbn in H.
  assert (E : (-1 <? 0 - 1) = false) by reflexivity. rewrite E in H. lia.
Qed.

Lemma clipped_new (q : objid) (bits : Q3DSceneChangeBitField) (dirty : bool) :
  subViewportsClipped (Q3DScenePrivate_new q bits dirty).
Proof. split; apply withinBox_null. Qed.

Lemma clipped_sameGeometry (s t : Q3DScenePrivate) :
  sameGeometry s t -> subViewportsClipped s -> subViewportsClipped t.
Proof. intros (Hv & Hp & Hs). unfold subViewportsClipped. rewrite Hv, Hp, Hs. auto. Qed.

Lemma clipped_emit (sig : Signal.t) (s : Q3DScenePrivate) :
  subViewportsClipped s -> subViewportsClipped (emit sig s).
Proof. destruct s. exact (fun H => H). Qed.

Lemma clipped_calculateSubViewports (s : Q3DScenePrivate) :
  subViewportsClipped (calculateSubViewports s).
Proof.
  unfold subViewportsClipped.
  rewrite calculateSubViewports_primary, calculateSubViewports_secondary,
    calculateSubViewports_viewport.
  split; apply withinBox_intersected.
Qed.

Lemma clipped_setPrimarySubViewport (R : QRect) (s : Q3DScenePrivate) :
  subViewportsClipped s -> subViewportsClipped (setPrimarySubViewport R s).
Proof.
  intros [_ Hs]. unfold subViewportsClipped.
  rewrite setPrimarySubViewport_viewport, setPrimarySubViewport_stored,
    setPrimarySubViewport_secondary.
  split; [apply withinBox_intersected|exact Hs].
Qed.

Lemma clipped_setSecondarySubViewport (R : QRect) (s : Q3DScenePrivate) :
  subViewportsClipped s -> subViewportsClipped (setSecondarySubViewport R s).
Proof.
  intros [Hp _]. unfold subViewportsClipped.
  rewrite setSecondarySubViewport_viewport, setSecondarySubViewport_stored,
    setSecondarySubViewport_primary.
  split; [exact Hp|apply withinBox_intersected].
Qed.

Lemma sameGeometry_setWindowSize v s : sameGeometry s (setWindowSize v s).
Proof. split; [|split]; frame. Qed.

Lemma sameGeometry_setSelectionQueryPosition v s :
  sameGeometry s (setSelectionQueryPosition v s).
Proof. split; [|split]; frame. Qed.

Lemma sameGeometry_setSecondarySubviewOnTop v s :
  sameGeometry s (setSecondarySubviewOnTop v s).
Proof. split; [|split]; frame. Qed.

Lemma sameGeometry_setDevicePixelRatio v s : sameGeometry s (setDevicePixelRatio v s).
Proof. split; [|split]; frame. Qed.

Lemma sameGeometry_setActiveCamera camera w w' s s' :
  setActiveCamera camera w s = Ok (w', s') -> sameGeometry s s'.
Proof.
  unfold setActiveCamera. destruct camera as [c|]; [|discriminate]. cbv zeta.
  destruct (negb (ptr_eqb _ (m_camera s))); intros [= _ <-]; destruct s;
    split; [|split| |split]; reflexivity.
Qed.

Lemma sameGeometry_setActiveLight light w w' s s' :
  setActiveLight light w s = Ok (w', s') -> sameGeometry s s'.
Proof.
  unfold setActiveLight. destruct light as [l|]; [|discriminate]. cbv zeta.
  destruct (negb (ptr_eqb _ (m_light s))); intros [= _ <-]; destruct s;
    split; [|split| |split]; reflexivity.
Qed.

Lemma clipped_applySetter (c : Setter) (s : Q3DScenePrivate) :
  subViewportsClipped s -> subViewportsClipped (applySetter c s).
Proof.
  intros H. destruct c; cbn [applySetter].
  - unfold setViewport. destruct (negb _); [|exact H].
    apply clipped_emit, clipped_calculateSubViewports.
  - unfold setViewportSize. destruct (_ || _); [|exact H].
    apply clipped_emit, clipped_calculateSubViewports.
  - exact (clipped_sameGeometry _ _ (sameGeometry_setWindowSize _ s) H).
  - apply clipped_setPrimarySubViewport, H.
  - apply clipped_setSecondarySubViewport, H.
  - exact (clipped_sameGeometry _ _ (sameGeometry_setSelectionQueryPosition _ s) H).
  - unfold setSlicingActive. destruct (negb _); [|exact H].
    do 2 apply clipped_emit. apply clipped_calculateSubViewports.
  - exact (clipped_sameGeometry _ _ (sameGeometry_setSecondarySubviewOnTop _ s) H).
  - exact (clipped_sameGeometry _ _ (sameGeometry_setDevicePixelRatio _ s) H).
Qed.

Lemma clipped_call (c : Call) (w : QObjects) (s : Q3DScenePrivate)
    (y : QObjects * Q3DScenePrivate) :
  subViewportsClipped s -> call c (w, s) = Ok y -> subViewportsClipped (snd y).
Proof.
  intros H. destruct y as [w' s']. destruct c as [c|camera|light]; cbn [call fst snd].
  - intros [= _ <-]. apply clipped_applySetter, H.
  - intros E. exact (clipped_sameGeometry _ _ (sameGeometry_setActiveCamera _ _ _ _ _ E) H).
  - intros E. exact (clipped_sameGeometry _ _ (sameGeometry_setActiveLight _ _ _ _ _ E) H).
Qed.

(** X8.  The sub-viewports never leave the box of the viewport.  Both
    sub-viewports of a newly constructed scene lie in the box
    [(0, 0, width, height)] of its viewport (no point of them is outside),
    and every call keeps them there: a setter of a sub-viewport clips, a
    change of the viewport or of the slicing mode lays them out anew, and
    the other calls change neither the viewport nor the sub-viewports. *)
Theorem sub_viewports_stay_clipped :
  (forall q bits dirty, subViewportsClipped (Q3DScenePrivate_new q bits dirty)) /\
  (forall cs w s y,
     subViewportsClipped s -> run cs (w, s) = Ok y -> subViewportsClipped (snd y)).
Proof.
  split; [exact clipped_new|].
  intros cs. induction cs as [|c cs IH]; intros w s y H; cbn [run].
  - intros [= <-]. exact H.
  - destruct (call c (w, s)) as [[w1 s1]|] eqn:E; [|discriminate].
    apply IH. exact (clipped_call c w s _ H E).
Qed.

Lemma sub_viewports_stay_clipped_witness :
  run calls_example (world_empty, scene_new) = Ok scene_after_calls /\
  m_primarySubViewport (snd scene_after_calls) = QRect.make 700 500 100 100 /\
  subViewportsClipped (snd scene_after_calls).
Proof.
  assert (H : run calls_example (world_empty, scene_new) = Ok scene_after_calls)
    by (vm_compute; reflexivity).
  split; [exact H|]. split; [vm_compute; reflexivity|].
  destruct sub_viewports_stay_clipped as [Hnew Hrun].
  exact (Hrun calls_example world_empty scene_new scene_after_calls
           (Hnew 1%positive allChanged true) H).
Defined.

(** ** The point tests in the default layout *)

Lemma QRect_eqb_true (a b : QRect) : QRect.eqb a b = true -> a = b.
Proof. apply QRect_eqb_eq. Qed.

(** X9.  The point tests on a scene whose sub-viewports are the default
    layout.  Outside the slice view the secondary sub-viewport is empty and
    [isPointInSecondarySubView] answers false for every point.  In the slice
    view of a viewport of positive size the primary sub-viewport lies in
    the secondary one, which is the whole box: every point for which
    [isPointInPrimarySubView] answers true is also one for which
    [isPointInSecondarySubView] does. *)
Theorem point_tests_in_default_layout (p : QPoint) (s : Q3DScenePrivate) :
  defaultLayout s = true ->
  (m_isSlicingActive s = false -> isPointInSecondarySubView p s = false) /\
  (m_isSlicingActive s = true ->
   0 < QRect.width (m_viewport s) -> 0 < QRect.height (m_viewport s) ->
   isPointInPrimarySubView p s = true -> isPointInSecondarySubView p s = true).
Proof.
  unfold defaultLayout. rewrite andb_true_iff. intros [Hp Hs].
  apply QRect_eqb_true in Hp, Hs. split.
  - intros Hoff. rewrite Hoff in Hs. unfold layoutSecondary in Hs.
    rewrite intersected_null_l in Hs.
    apply not_true_is_false. rewrite isPointInSecondarySubView_bounds, Hs.
    unfold QRect.null, QRect.x, QRect.y, QRect.width, QRect.height. cbn. lia.
  - intros Hon Hw Hh. rewrite Hon in Hp, Hs.
    unfold layoutSecondary in Hs. rewrite intersected_inside in Hs by lia.
    rewrite isPointInPrimarySubView_bounds, isPointInSecondarySubView_bounds, Hs, Hp.
    unfold layoutPrimary.
    pose proof (intersected_within
                  (QRect.make 0 0
                     (Float32.scale (QRect.width (m_viewport s)) Float32.c0_2)
                     (Float32.scale (QRect.height (m_viewport s)) Float32.c0_2))
                  (QRect.width (m_viewport s)) (QRect.height (m_viewport s))
                  ltac:(lia) ltac:(lia)) as [Hx Hy].
    cbv zeta in Hx, Hy.
    set (c := QRect.intersected _ _) in *.
    destruct (QRect_make_size 0 0 (QRect.width (m_viewport s))
                (QRect.height (m_viewport s))) as (-> & -> & -> & ->).
    lia.
Qed.

Lemma point_tests_in_default_layout_witness :
  isPointInPrimarySubView (mkPoint 150 100) scene_offset = true /\
  isPointInSecondarySubView (mkPoint 150 100) scene_offset = true.
Proof.
  split; [vm_compute; reflexivity|].
  destruct (point_tests_in_default_layout (mkPoint 150 100) scene_offset) as [_ H];
    [vm_compute; reflexivity|].
  apply H; vm_compute; reflexivity.
Defined.

(** ** The camera and the light of a scene *)

Lemma applySetter_objects (c : Setter) (s : Q3DScenePrivate) :
  q_ptr (applySetter c s) = q_ptr s /\
  m_camera (applySetter c s) = m_camera s /\
  m_light (applySetter c s) = m_light s.
Proof. destruct c; cbn [applySetter]; (split; [|split]); frame. Qed.

Lemma count_reparent (d : Connection) (o q : objid) (w : QObjects) :
  countConnections d (if negb (ptr_eqb (parent o w) (Some q)) then setParent o q w else w)
  = countConnections d w.
Proof. destruct (negb _); reflexivity. Qed.

(** The connections after the three [disconnect] of the previous camera. *)
Lemma count_disconnected (o old q : objid) (sig : CameraSignal) (w : QObjects) :
  countConnections (mkConn o sig q)
    (disconnect (mkConn old zoomLevelChanged q)
       (disconnect (mkConn old yRotationChanged q)
          (disconnect (mkConn old xRotationChanged q) w)))
  = if Pos.eqb old o then 0%nat else countConnections (mkConn o sig q) w.
Proof.
  rewrite !count_disconnect. unfold Connection_eqb. cbn [conn_sender conn_signal conn_receiver].
  rewrite Pos.eqb_refl, !andb_true_r.
  destruct (Pos.eqb old o); destruct sig; reflexivity.
Qed.

(** The connections after the three [connect] of the new camera. *)
Lemma count_connected (o c q : objid) (sig : CameraSignal) (w : QObjects) :
  countConnections (mkConn o sig q)
    (connect (mkConn c zoomLevelChanged q)
       (connect (mkConn c yRotationChanged q)
          (connect (mkConn c xRotationChanged q) w)))
  = (countConnections (mkConn o sig q) w + if Pos.eqb o c then 1 else 0)%nat.
Proof.
  rewrite !count_connect. unfold Connection_eqb. cbn [conn_sender conn_signal conn_receiver].
  rewrite Pos.eqb_refl, !andb_true_r.
  destruct (Pos.eqb o c); destruct sig; cbn; lia.
Qed.

(** What a call of [setActiveCamera] that returns has done. *)
Lemma setActiveCamera_effect (camera : ptr) (w w' : QObjects) (s s' : Q3DScenePrivate) :
  setActiveCamera camera w s = Ok (w', s') ->
  exists c, camera = Some c /\
    q_ptr s' = q_ptr s /\ m_camera s' = Some c /\ m_light s' = m_light s /\
    parent c w' = Some (q_ptr s) /\
    (forall o, c <> o -> parent o w' = parent o w) /\
    (connectedOnce w s -> connectedOnce w' s').
Proof.
  unfold setActiveCamera. destruct camera as [c|]; [|discriminate]. cbv zeta.
  intros H. exists c. split; [reflexivity|].
  destruct (reparent_parent c (q_ptr s) w) as (Hpc & Hpo & _). cbv zeta in Hpc, Hpo.
  pose proof (fun d => count_reparent d c (q_ptr s) w) as Hcount.
  set (w1 := if negb (ptr_eqb (parent c w) (Some (q_ptr s)))
             then setParent c (q_ptr s) w else w) in *.
  destruct (ptr_eqb (Some c) (m_camera s)) eqn:E; cbn [negb] in H.
  - injection H as <- <-. apply ptr_eqb_eq in E.
    repeat (split; [first [reflexivity|assumption|symmetry; assumption]|]).
    intros Hinv o sig. rewrite Hcount. apply Hinv.
  - injection H as <- <-.
    destruct s as [q bits v p sec top ratio cam lgt under slicing sel ws gv gp gs d em].
    cbn [q_ptr m_camera m_light set_m_camera track set_m_changeTracker set_m_sceneDirty
         emit set_emitted emitted m_changeTracker] in *.
    split; [reflexivity|]. split; [reflexivity|]. split; [reflexivity|].
    split; [destruct cam; exact Hpc|]. split; [destruct cam; exact Hpo|].
    intros Hinv o sig. unfold connectedOnce in Hinv.
    cbn [q_ptr m_camera] in Hinv |- *.
    rewrite count_connected. cbn [ptr_eqb].
    destruct cam as [old|].
    + rewrite count_disconnected, Hcount, Hinv. cbn [ptr_eqb].
      rewrite (Pos.eqb_sym old o). destruct (Pos.eqb o old), (Pos.eqb o c); reflexivity.
    + rewrite Hcount, Hinv. cbn [ptr_eqb]. destruct (Pos.eqb o c); reflexivity.
Qed.

(** What a call of [setActiveLight] that returns has done. *)
Lemma setActiveLight_effect (light : ptr) (w w' : QObjects) (s s' : Q3DScenePrivate) :
  setActiveLight light w s = Ok (w', s') ->
  exists l, light = Some l /\
    q_ptr s' = q_ptr s /\ m_camera s' = m_camera s /\ m_light s' = Some l /\
    parent l w' = Some (q_ptr s) /\
    (forall o, l <> o -> parent o w' = parent o w) /\
    (connectedOnce w s -> connectedOnce w' s').
Proof.
  unfold setActiveLight. destruct light as [l|]; [|discriminate]. cbv zeta.
  intros H. exists l. split; [reflexivity|].
  destruct (reparent_parent l (q_ptr s) w) as (Hpc & Hpo & _). cbv zeta in Hpc, Hpo.
  pose proof (fun d => count_reparent d l (q_ptr s) w) as Hcount.
  set (w1 := if negb (ptr_eqb (parent l w) (Some (q_ptr s)))
             then setParent l (q_ptr s) w else w) in *.
  destruct (ptr_eqb (Some l) (m_light s)) eqn:E; cbn [negb] in H.
  - injection H as <- <-. apply ptr_eqb_eq in E.
    repeat (split; [first [reflexivity|assumption|symmetry; assumption]|]).
    intros Hinv o sig. rewrite Hcount. apply Hinv.
  - injection H as <- <-.
    destruct s as [q bits v p sec top ratio cam lgt under slicing sel ws gv gp gs d em].
    cbn [q_ptr m_camera m_light set_m_light track set_m_changeTracker set_m_sceneDirty
         emit set_emitted emitted m_changeTracker] in *.
    repeat (split; [first [reflexivity|assumption]|]).
    intros Hinv o sig. rewrite Hcount. apply Hinv.
Qed.

(** The parent of an object that is a child of the scene, after another
    object has been made one. *)
Lemma parent_still (c l q : objid) (w w' : QObjects) :
  parent c w' = Some q -> (forall o, c <> o -> parent o w' = parent o w) ->
  parent l w = Some q -> parent l w' = Some q.
Proof.
  intros Hc Ho Hl. destruct (Pos.eq_dec c l) as [<-|Hne]; [exact Hc|].
  rewrite (Ho l Hne). exact Hl.
Qed.

Lemma objects_call (c : Call) (w : QObjects) (s : Q3DScenePrivate)
    (y : QObjects * Q3DScenePrivate) :
  hasCameraAndLight w s -> connectedOnce w s -> call c (w, s) = Ok y ->
  hasCameraAndLight (fst y) (snd y) /\ connectedOnce (fst y) (snd y) /\
  q_ptr (snd y) = q_ptr s.
Proof.
  intros [(cam & Hcam & Hpcam) (lgt & Hlgt & Hplgt)] Hconn.
  destruct y as [w' s']. destruct c as [c|camera|light]; cbn [call fst snd].
  - intros [= <- <-]. destruct (applySetter_objects c s) as (Hq & Hc & Hl).
    unfold hasCameraAndLight, connectedOnce. rewrite Hq, Hc, Hl.
    split; [split; [exists cam|exists lgt]; split; assumption|].
    split; [exact Hconn|reflexivity].
  - intros E. destruct (setActiveCamera_effect _ _ _ _ _ E)
      as (c & _ & Hq & Hc & Hl & Hpc & Hpo & Hkeep).
    unfold hasCameraAndLight. rewrite Hq, Hc, Hl.
    split; [split|split; [exact (Hkeep Hconn)|reflexivity]].
    + exists c. split; [reflexivity|exact Hpc].
    + exists lgt. split; [exact Hlgt|]. exact (parent_still c lgt _ w w' Hpc Hpo Hplgt).
  - intros E. destruct (setActiveLight_effect _ _ _ _ _ E)
      as (l & _ & Hq & Hc & Hl & Hpl & Hpo & Hkeep).
    unfold hasCameraAndLight. rewrite Hq, Hc, Hl.
    split; [split|split; [exact (Hkeep Hconn)|reflexivity]].
    + exists cam. split; [exact Hcam|]. exact (parent_still l cam _ w w' Hpl Hpo Hpcam).
    + exists l. split; [reflexivity|exact Hpl].
Qed.

Lemma call_fails (c : Call) (x : QObjects * Q3DScenePrivate) :
  call c x = AssertionFailed <-> passesNull c = true.
Proof.
  destruct c as [c|[c|]|[l|]]; cbn [call passesNull].
  - split; discriminate.
  - unfold setActiveCamera. cbv zeta. destruct (negb (ptr_eqb _ (m_camera _)));
      split; discriminate.
  - split; reflexivity.
  - unfold setActiveLight. cbv zeta. destruct (negb (ptr_eqb _ (m_light _)));
      split; discriminate.
  - split; reflexivity.
Qed.

(** The scene as [Q3DScene::Q3DScene] leaves it. *)
Lemma Q3DScene_new_effect (q camera light : objid) (bits : Q3DSceneChangeBitField)
    (dirty : bool) (w : QObjects) (y : QObjects * Q3DScenePrivate) :
  (forall o sig, countConnections (mkConn o sig q) w = 0%nat) ->
  Q3DScene_new q camera light bits dirty w = Ok y ->
  q_ptr (snd y) = q /\
  m_camera (snd y) = Some camera /\ m_light (snd y) = Some light /\
  parent camera (fst y) = Some q /\ parent light (fst y) = Some q /\
  connectedOnce (fst y) (snd y).
Proof.
  intros Hfresh. unfold Q3DScene_new.
  destruct (setActiveCamera (Some camera) w (Q3DScenePrivate_new q bits dirty))
    as [[w1 s1]|] eqn:E1; [|discriminate].
  destruct y as [w2 s2]. intros E2. cbn [fst snd].
  destruct (setActiveCamera_effect _ _ _ _ _ E1)
    as (c & [= <-] & Hq1 & Hc1 & Hl1 & Hpc1 & Hpo1 & Hkeep1).
  destruct (setActiveLight_effect _ _ _ _ _ E2)
    as (l & [= <-] & Hq2 & Hc2 & Hl2 & Hpl2 & Hpo2 & Hkeep2).
  cbn [q_ptr Q3DScenePrivate_new] in Hq1, Hpc1. rewrite Hq1 in *.
  split; [exact Hq2|]. split; [rewrite Hc2; exact Hc1|]. split; [exact Hl2|].
  split; [exact (parent_still light camera q w1 w2 Hpl2 Hpo2 Hpc1)|].
  split; [exact Hpl2|].
  apply Hkeep2, Hkeep1. intros o sig. cbn [q_ptr m_camera Q3DScenePrivate_new ptr_eqb].
  apply Hfresh.
Qed.

(** X10.  The constructor of [Q3DScene] returns for every two new objects:
    it stops at no assertion.  The scene then has the new camera and the
    new light as active camera and light, both are children of the scene,
    each of the three signals of the camera is connected to [needRender]
    once (when nothing was connected to the new scene before), the dirty
    bits of the camera and of the light and [m_sceneDirty] are set, and the
    signals emitted are [activeCameraChanged], [needRender] and
    [activeLightChanged]. *)
Theorem scene_construction (q camera light : objid) (bits : Q3DSceneChangeBitField)
    (dirty : bool) (w : QObjects) :
  exists w' s,
    Q3DScene_new q camera light bits dirty w = Ok (w', s) /\
    (q_ptr s = q /\ m_camera s = Some camera /\ m_light s = Some light /\
     parent camera w' = Some q /\ parent light w' = Some q) /\
    ((forall o sig, countConnections (mkConn o sig q) w = 0%nat) -> connectedOnce w' s) /\
    (cameraChanged (m_changeTracker s) = true /\ lightChanged (m_changeTracker s) = true /\
     m_sceneDirty s = true) /\
    emitted s = [Signal.activeCameraChanged (Some camera); Signal.needRender;
                 Signal.activeLightChanged (Some light)].
Proof.
  destruct (Q3DScene_new q camera light bits dirty w) as [[w' s]|] eqn:E.
  - exists w', s. split; [reflexivity|].
    assert (Hrest :
      (cameraChanged (m_changeTracker s) = true /\ lightChanged (m_changeTracker s) = true /\
       m_sceneDirty s = true) /\
      emitted s = [Signal.activeCameraChanged (Some camera); Signal.needRender;
                   Signal.activeLightChanged (Some light)]).
    { revert E. unfold Q3DScene_new, setActiveCamera, setActiveLight. cbv zeta.
      cbn [m_camera m_light Q3DScenePrivate_new ptr_eqb negb q_ptr set_m_camera track
           set_m_changeTracker set_m_sceneDirty emit set_emitted emitted
           m_changeTracker].
      intros [= _ <-]. destruct bits. repeat split. }
    split; [|split; [|exact Hrest]].
    + unfold Q3DScene_new in E.
      destruct (setActiveCamera (Some camera) w (Q3DScenePrivate_new q bits dirty))
        as [[w1 s1]|] eqn:E1; [|discriminate].
      destruct (setActiveCamera_effect _ _ _ _ _ E1)
        as (c & [= <-] & Hq1 & Hc1 & Hl1 & Hpc1 & Hpo1 & _).
      destruct (setActiveLight_effect _ _ _ _ _ E)
        as (l & [= <-] & Hq2 & Hc2 & Hl2 & Hpl2 & Hpo2 & _).
      cbn [q_ptr Q3DScenePrivate_new] in Hq1, Hpc1. rewrite Hq1 in *.
      split; [exact Hq2|]. split; [rewrite Hc2; exact Hc1|]. split; [exact Hl2|].
      split; [exact (parent_still light camera q w1 w' Hpl2 Hpo2 Hpc1)|exact Hpl2].
    + intros Hfresh.
      exact (proj2 (proj2 (proj2 (proj2 (proj2
               (Q3DScene_new_effect q camera light bits dirty w (w', s) Hfresh E)))))).
  - exfalso. revert E. unfold Q3DScene_new, setActiveCamera, setActiveLight. cbv zeta.
    cbn [m_camera m_light Q3DScenePrivate_new ptr_eqb negb set_m_camera track
         set_m_changeTracker set_m_sceneDirty emit set_emitted].
    discriminate.
Qed.

Lemma scene_construction_witness :
  Q3DScene_new 1%positive 2%positive 3%positive allChanged true world_empty = Ok scene_built /\
  connectedOnce (fst scene_built) (snd scene_built).
Proof.
  assert (H : Q3DScene_new 1%positive 2%positive 3%positive allChanged true world_empty
              = Ok scene_built)
    by (vm_compute; reflexivity).
  split; [exact H|].
  destruct (scene_construction 1%positive 2%positive 3%positive allChanged true world_empty)
    as (w' & s & E & _ & Hconn & _).
  assert (E' : scene_built = (w', s)) by congruence. rewrite E'. cbn [fst snd].
  apply Hconn. intros o sig. reflexivity.
Defined.

(** X11.  A sequence of calls on a scene stops at an assertion exactly when
    one of its calls passes the null pointer to [setActiveCamera] or
    [setActiveLight].  When it returns, a scene that had a camera and a
    light still has both, neither pointer is null and both objects are
    children of the scene; the scene is the same object; and if the three
    signals of the active camera, and of no other object, were connected to
    [needRender] of the scene once each, this holds for the camera that is
    active afterwards: no connection is duplicated and none is left from a
    former camera. *)
Theorem camera_and_light_stay (cs : list Call) (w : QObjects) (s : Q3DScenePrivate) :
  (run cs (w, s) = AssertionFailed <-> existsb passesNull cs = true) /\
  (hasCameraAndLight w s -> connectedOnce w s ->
   forall y, run cs (w, s) = Ok y ->
     hasCameraAndLight (fst y) (snd y) /\ connectedOnce (fst y) (snd y) /\
     q_ptr (snd y) = q_ptr s).
Proof.
  split.
  - generalize (w, s). induction cs as [|c cs IH]; intros x; cbn [run existsb].
    + split; discriminate.
    + rewrite orb_true_iff, <- (call_fails c x).
      destruct (call c x) as [y|].
      * rewrite IH. split; [auto|]. intros [H|H]; [discriminate|exact H].
      * split; auto.
  - revert w s. induction cs as [|c cs IH]; intros w s Hobj Hconn y; cbn [run].
    + intros [= <-]. cbn [fst snd]. auto.
    + destruct (call c (w, s)) as [[w1 s1]|] eqn:E; [|discriminate].
      destruct (objects_call c w s _ Hobj Hconn E) as (Hobj1 & Hconn1 & Hq1).
      cbn [fst snd] in Hobj1, Hconn1, Hq1. intros H.
      destruct (IH w1 s1 Hobj1 Hconn1 y H) as (? & ? & Hq). rewrite Hq, Hq1. auto.
Qed.

Lemma camera_and_light_stay_witness :
  run calls_example (fst scene_built, snd scene_built) = Ok scene_built_after_calls /\
  m_camera (snd scene_built_after_calls) = Some 2%positive /\
  connectedOnce (fst scene_built_after_calls) (snd scene_built_after_calls).
Proof.
  assert (H : run calls_example (fst scene_built, snd scene_built)
              = Ok scene_built_after_calls) by (vm_compute; reflexivity).
  split; [exact H|]. split; [vm_compute; reflexivity|].
  assert (H0 : Q3DScene_new 1%positive 2%positive 3%positive allChanged true world_empty
               = Ok scene_built)
    by (vm_compute; reflexivity).
  destruct (Q3DScene_new_effect 1%positive 2%positive 3%positive allChanged true
              world_empty scene_built (fun o sig => eq_refl) H0)
    as (Hq & Hc & Hl & Hpc & Hpl & Hconn).
  destruct (camera_and_light_stay calls_example (fst scene_built) (snd scene_built))
    as [_ Hinv].
  apply Hinv.
  - rewrite <- Hq in Hpc, Hpl. split; [exists 2%positive|exists 3%positive]; split; assumption.
  - exact Hconn.
  - exact H.
Defined.

(** ** The two sub-viewport setters are independent *)

Lemma setPrimarySubViewport_same (R : QRect) (s : Q3DScenePrivate) :
  QRect.eqb (m_primarySubViewport s) (QRect.intersected R (clipBox (m_viewport s))) = true ->
  setPrimarySubViewport R s = s.
Proof.
  intros E. unfold setPrimarySubViewport. cbv zeta. unfold clipBox in E. rewrite E.
  reflexivity.
Qed.

Lemma setSecondarySubViewport_same (R : QRect) (s : Q3DScenePrivate) :
  QRect.eqb (m_secondarySubViewport s) (QRect.intersected R (clipBox (m_viewport s))) = true ->
  setSecondarySubViewport R s = s.
Proof.
  intros E. unfold setSecondarySubViewport. cbv zeta. unfold clipBox in E. rewrite E.
  reflexivity.
Qed.

Lemma setPrimarySubViewport_new (R : QRect) (s : Q3DScenePrivate) :
  QRect.eqb (m_primarySubViewport s) (QRect.intersected R (clipBox (m_viewport s))) = false ->
  setPrimarySubViewport R s
  = emit Signal.needRender
      (emit (Signal.primarySubViewportChanged
               (QRect.intersected R (clipBox (m_viewport s))))
         (set_m_sceneDirty true
            (track set_primarySubViewportChanged true
               (updateGLSubViewports
                  (set_m_primarySubViewport
                     (QRect.intersected R (clipBox (m_viewport s))) s))))).
Proof.
  intros E. unfold setPrimarySubViewport. cbv zeta. unfold clipBox in *. rewrite E.
  reflexivity.
Qed.

Lemma setSecondarySubViewport_new (R : QRect) (s : Q3DScenePrivate) :
  QRect.eqb (m_secondarySubViewport s) (QRect.intersected R (clipBox (m_viewport s))) = false ->
  setSecondarySubViewport R s
  = emit Signal.needRender
      (emit (Signal.secondarySubViewportChanged
               (QRect.intersected R (clipBox (m_viewport s))))
         (set_m_sceneDirty true
            (track set_secondarySubViewportChanged true
               (updateGLSubViewports
                  (set_m_secondarySubViewport
                     (QRect.intersected R (clipBox (m_viewport s))) s))))).
Proof.
  intros E. unfold setSecondarySubViewport. cbv zeta. unfold clipBox in *. rewrite E.
  reflexivity.
Qed.

(** X12.  [setPrimarySubViewport] and [setSecondarySubViewport] do not
    depend on each other: called in either order they leave the same
    scene, the derived rectangles and the dirty bits included, and they
    emit the same signals, in a different order. *)
Theorem sub_viewport_setters_commute (a b : QRect) (s : Q3DScenePrivate) :
  sameButLog (setPrimarySubViewport a (setSecondarySubViewport b s))
    (setSecondarySubViewport b (setPrimarySubViewport a s)) /\
  Permutation (emitted (setPrimarySubViewport a (setSecondarySubViewport b s)))
    (emitted (setSecondarySubViewport b (setPrimarySubViewport a s))).
Proof.
  split.
  - unfold sameButLog.
    assert (Gp : QRect.eqb (m_primarySubViewport (setSecondarySubViewport b s))
                   (QRect.intersected a (clipBox (m_viewport (setSecondarySubViewport b s))))
                 = QRect.eqb (m_primarySubViewport s)
                     (QRect.intersected a (clipBox (m_viewport s))))
      by (rewrite setSecondarySubViewport_primary, setSecondarySubViewport_viewport;
          reflexivity).
    assert (Gs : QRect.eqb (m_secondarySubViewport (setPrimarySubViewport a s))
                   (QRect.intersected b (clipBox (m_viewport (setPrimarySubViewport a s))))
                 = QRect.eqb (m_secondarySubViewport s)
                     (QRect.intersected b (clipBox (m_viewport s))))
      by (rewrite setPrimarySubViewport_secondary, setPrimarySubViewport_viewport;
          reflexivity).
    destruct (QRect.eqb (m_primarySubViewport s)
                (QRect.intersected a (clipBox (m_viewport s)))) eqn:EP;
      destruct (QRect.eqb (m_secondarySubViewport s)
                  (QRect.intersected b (clipBox (m_viewport s)))) eqn:ES.
    + rewrite (setPrimarySubViewport_same a _ Gp), (setSecondarySubViewport_same b _ Gs).
      rewrite (setPrimarySubViewport_same a s EP), (setSecondarySubViewport_same b s ES).
      reflexivity.
    + rewrite (setPrimarySubViewport_same a _ Gp), (setPrimarySubViewport_same a s EP).
      reflexivity.
    + rewrite (setSecondarySubViewport_same b _ Gs), (setSecondarySubViewport_same b s ES).
      reflexivity.
    + rewrite (setPrimarySubViewport_new a _ Gp), (setSecondarySubViewport_new b _ Gs).
      rewrite (setPrimarySubViewport_new a s EP), (setSecondarySubViewport_new b s ES).
      destruct s as [q [] v p sec top ratio cam lgt under slicing sel ws gv gp gs d em].
      reflexivity.
  - rewrite emitted_setPrimarySubViewport, !emitted_setSecondarySubViewport,
      emitted_setPrimarySubViewport.
    rewrite setSecondarySubViewport_primary, setSecondarySubViewport_viewport,
      setPrimarySubViewport_secondary, setPrimarySubViewport_viewport, <- !app_assoc.
    apply Permutation_app_head, Permutation_app_comm.
Qed.

(** ** What [sync] keeps *)

Lemma glDerived_track bit v (s : Q3DScenePrivate) : glDerived s -> glDerived (track bit v s).
Proof. destruct s. exact (fun H => H). Qed.

Lemma glDerived_dirty d (s : Q3DScenePrivate) :
  glDerived s -> glDerived (set_m_sceneDirty d s).
Proof. destruct s. exact (fun H => H). Qed.

Lemma glDerived_applySetter (c : Setter) (s : Q3DScenePrivate) :
  glDerived s -> glDerived (applySetter c s).
Proof.
  intros G. destruct c; cbn [applySetter].
  - unfold setViewport. destruct (negb _); [|exact G].
    apply glDerived_emit, glDerived_calculateSubViewports.
  - unfold setViewportSize. destruct (_ || _); [|exact G].
    apply glDerived_emit, glDerived_calculateSubViewports.
  - unfold setWindowSize. destruct (negb _); [|exact G].
    apply glDerived_emit, glDerived_mark, glDerived_updateGLViewport.
  - apply glDerived_setPrimarySubViewport, G.
  - apply glDerived_setSecondarySubViewport, G.
  - unfold setSelectionQueryPosition. destruct (negb _); [|exact G].
    do 2 apply glDerived_emit. apply glDerived_mark, glDerived_selection, G.
  - unfold setSlicingActive. destruct (negb _); [|exact G].
    do 2 apply glDerived_emit. apply glDerived_calculateSubViewports.
  - unfold setSecondarySubviewOnTop. destruct (negb _); [|exact G].
    do 2 apply glDerived_emit. apply glDerived_mark, glDerived_order, G.
  - unfold setDevicePixelRatio. destruct (negb _); [|exact G].
    apply glDerived_emit, glDerived_updateGLViewport.
Qed.

Lemma clipped_track bit v (s : Q3DScenePrivate) :
  subViewportsClipped s -> subViewportsClipped (track bit v s).
Proof. destruct s. exact (fun H => H). Qed.

Lemma clipped_dirty d (s : Q3DScenePrivate) :
  subViewportsClipped s -> subViewportsClipped (set_m_sceneDirty d s).
Proof. destruct s. exact (fun H => H). Qed.

Lemma emitted_track bit v (s : Q3DScenePrivate) : emitted (track bit v s) = emitted s.
Proof. destruct s. reflexivity. Qed.

Lemma emitted_dirty d (s : Q3DScenePrivate) : emitted (set_m_sceneDirty d s) = emitted s.
Proof. destruct s. reflexivity. Qed.

(** A property that the setters and the writes of the dirty bits keep is
    kept by [sync] in the other scene. *)
Lemma syncedOther_keeps (P : Q3DScenePrivate -> Prop) (s o : Q3DScenePrivate) :
  (forall bit v t, P t -> P (track bit v t)) ->
  (forall d t, P t -> P (set_m_sceneDirty d t)) ->
  (forall c t, P t -> P (applySetter c t)) ->
  P o -> P (syncedOther s o).
Proof.
  intros Htrack Hdirty Hset Ho.
  assert (Hpush : forall flag bit c t, P t -> P (pushed flag bit (applySetter c) t)).
  { intros flag bit c t Ht. unfold pushed. destruct flag; [|exact Ht].
    apply Htrack, Hset, Ht. }
  assert (Hid : forall flag bit t, P t -> P (pushed flag bit (fun o => o) t)).
  { intros flag bit t Ht. unfold pushed. destruct flag; [|exact Ht]. apply Htrack, Ht. }
  unfold syncedOther. cbv zeta. apply Hdirty.
  apply (Hpush _ _ (SetDevicePixelRatio _)), (Hpush _ _ (SetSlicingActive _)), Hid, Hid,
    (Hpush _ _ (SetSelectionQueryPosition _)), (Hpush _ _ (SetSecondarySubViewport _)),
    (Hpush _ _ (SetPrimarySubViewport _)), (Hpush _ _ (SetSecondarySubviewOnTop _)),
    (Hpush _ _ (SetViewport _)), (Hpush _ _ (SetWindowSize _)), Ho.
Qed.

Section SyncKeeps.

Variable ObjStore : Type.
Variable camera_setDirty : ptr -> bool -> ObjStore -> ObjStore.
Variable camera_sync : ptr -> ptr -> ObjStore -> ObjStore.
Variable light_setDirty : ptr -> bool -> ObjStore -> ObjStore.
Variable light_sync : ptr -> ptr -> ObjStore -> ObjStore.

(** X13.  [sync] keeps the two scenes well formed.  In the caller and in
    the other scene the sub-viewports stay in the box of the viewport, and
    the three rectangles in GPU space stay the ones derived from the
    attributes, when they were before the call; and the log of the other
    scene is continued, no signal of it is dropped. *)
Theorem sync_keeps_invariants h s o :
  let r := sync ObjStore camera_setDirty camera_sync light_setDirty light_sync h s o in
  (subViewportsClipped s -> subViewportsClipped (snd (fst r))) /\
  (subViewportsClipped o -> subViewportsClipped (snd r)) /\
  (glDerived s -> glDerived (snd (fst r))) /\
  (glDerived o -> glDerived (snd r)) /\
  (exists new, emitted (snd r) = emitted o ++ new).
Proof.
  intros r.
  destruct (sync_scenes ObjStore camera_setDirty camera_sync light_setDirty light_sync
              h s o) as [Hs Ho].
  fold r in Hs, Ho. rewrite Hs, Ho.
  split; [|split; [|split; [|split]]].
  - destruct s. exact (fun H => H).
  - apply syncedOther_keeps;
      [apply clipped_track|apply clipped_dirty|apply clipped_applySetter].
  - destruct s. exact (fun H => H).
  - apply syncedOther_keeps;
      [apply glDerived_track|apply glDerived_dirty|apply glDerived_applySetter].
  - apply (syncedOther_keeps (fun t => exists new, emitted t = emitted o ++ new)).
    + intros bit v t H. rewrite emitted_track. exact H.
    + intros d t H. rewrite emitted_dirty. exact H.
    + intros c t [l E]. destruct (nc_applySetter c t) as (_ & _ & l' & E').
      exists (l ++ l'). rewrite E', E, app_assoc. reflexivity.
    + exists []. symmetry. apply app_nil_r.
Qed.

End SyncKeeps.

Lemma sync_keeps_invariants_witness :
  glDerived
    (snd (sync unit (fun _ _ h => h) (fun _ _ h => h) (fun _ _ h => h) (fun _ _ h => h)
            tt scene_user scene_plain)) /\
  subViewportsClipped
    (snd (sync unit (fun _ _ h => h) (fun _ _ h => h) (fun _ _ h => h) (fun _ _ h => h)
            tt scene_user scene_plain)).
Proof.
  destruct (sync_keeps_invariants unit (fun _ _ h => h) (fun _ _ h => h) (fun _ _ h => h)
              (fun _ _ h => h) tt scene_user scene_plain) as (_ & Hc & _ & Hg & _).
  split.
  - apply Hg. split; [|split]; vm_compute; reflexivity.
  - apply Hc. unfold scene_plain.
    apply clipped_applySetter, clipped_applySetter, clipped_new.
Defined.

(** ** [sync] mirrors the attributes of the caller *)

Lemma bits_le_spec (a b : Q3DSceneChangeBitField) :
  bits_le a b = true ->
  (windowSizeChanged a = true -> windowSizeChanged b = true) /\
  (viewportChanged a = true -> viewportChanged b = true) /\
  (subViewportOrderChanged a = true -> subViewportOrderChanged b = true) /\
  (selectionQueryPositionChanged a = true -> selectionQueryPositionChanged b = true) /\
  (slicingActivatedChanged a = true -> slicingActivatedChanged b = true) /\
  (devicePixelRatioChanged a = true -> devicePixelRatioChanged b = true).
Proof.
  unfold bits_le. rewrite !andb_true_iff. intros H.
  repeat match goal with H : _ /\ _ |- _ => destruct H end.
  repeat split; intros Hx;
    match goal with
    | Hi : implb (?get a) (?get b) = true |- ?get b = true =>
        rewrite Hx in Hi; exact Hi
    end.
Qed.

(** Unfolds a setter, takes its conditions apart, and closes each part of
    [changesFlagged] by the member that is left or by the bit that is
    set. *)
Ltac flagged :=
  intros;
  repeat match goal with s : Q3DScenePrivate |- _ => open_scene s end;
  unfold changesFlagged, setSlicingActive, setViewport, setViewportSize,
    calculateSubViewports, setWindowSize, setDevicePixelRatio, setSecondarySubviewOnTop,
    setSelectionQueryPosition, setPrimarySubViewport, setSecondarySubViewport;
  repeat match goal with
         | |- context [if ?c then _ else _] => destruct c
         end;
  repeat split; first [left; reflexivity | right; reflexivity].

Lemma changesFlagged_applySetter (c : Setter) (s : Q3DScenePrivate) :
  changesFlagged s (applySetter c s).
Proof. destruct c; cbn [applySetter]; flagged. Qed.

Lemma flaggedOrEqual_applySetter (c : Setter) (s o : Q3DScenePrivate) :
  flaggedOrEqual s o -> flaggedOrEqual (applySetter c s) o.
Proof.
  intros (Hw & Hv & Ho & Hp & Hs & Hr).
  destruct (changesFlagged_applySetter c s) as (Cw & Cv & Co & Cp & Cs & Cr).
  destruct (nc_applySetter c s) as (B & _ & _).
  destruct (bits_le_spec _ _ B) as (Bw & Bv & Bo & Bp & Bs & Br).
  unfold flaggedOrEqual.
  repeat split;
    match goal with
    | |- ?bit (m_changeTracker _) = true \/ _ =>
        match goal with
        | H : bit (m_changeTracker s) = true \/ _ |- _ =>
            destruct H as [H|H]; [left; auto|];
            match goal with
            | C : _ \/ bit (m_changeTracker _) = true |- _ =>
                destruct C as [C|C]; [right; rewrite C; exact H|left; exact C]
            end
        end
    end.
Qed.

Lemma flaggedOrEqual_applySetters (cs : list Setter) (s o : Q3DScenePrivate) :
  flaggedOrEqual s o -> flaggedOrEqual (applySetters cs s) o.
Proof.
  unfold applySetters. revert s. induction cs as [|c cs IH]; intros s H; cbn [foldl].
  - exact H.
  - apply IH, flaggedOrEqual_applySetter, H.
Qed.

Lemma mirrors_syncedOther (s o : Q3DScenePrivate) :
  flaggedOrEqual s o -> mirrors s (syncedOther s o).
Proof.
  intros (Hw & Hv & Ho & Hp & Hs & Hr).
  destruct (syncedOther_values s o) as (_ & Vw & Vv & Vo & Vp & Vs & Vr & _).
  cbv zeta in Vw, Vv, Vo, Vp, Vs, Vr.
  unfold mirrors. rewrite Vw, Vv, Vo, Vp, Vs, Vr.
  split; [|split; [|split; [|split; [|split]]]].
  - destruct Hw as [->|Hw]; [reflexivity|]. destruct (windowSizeChanged _); auto.
  - destruct Hv as [->|Hv]; [reflexivity|]. destruct (viewportChanged _); auto.
  - destruct Ho as [->|Ho]; [reflexivity|]. destruct (subViewportOrderChanged _); auto.
  - destruct Hp as [->|Hp]; [reflexivity|].
    destruct (selectionQueryPositionChanged _); auto.
  - destruct Hs as [->|Hs]; [reflexivity|]. destruct (slicingActivatedChanged _); auto.
  - destruct (devicePixelRatioChanged _).
    + destruct (Float32.eqb (m_devicePixelRatio o) (m_devicePixelRatio s)) eqn:E;
        [right; exact E|left; reflexivity].
    + destruct Hr as [Hr|Hr]; [discriminate|exact Hr].
Qed.

Section SyncMirrors.

Variable ObjStore : Type.
Variable camera_setDirty : ptr -> bool -> ObjStore -> ObjStore.
Variable camera_sync : ptr -> ptr -> ObjStore -> ObjStore.
Variable light_setDirty : ptr -> bool -> ObjStore -> ObjStore.
Variable light_sync : ptr -> ptr -> ObjStore -> ObjStore.

(** X14.  [sync] makes the other scene mirror the caller.  Let every
    attribute of the caller among window size, viewport, sub-viewport
    order, selection position, slicing mode and pixel ratio have its dirty
    bit set or the value of the other scene (as after the construction,
    when every bit is set, and after each [sync]).  Then after any setters
    called on the caller and a [sync], the other scene has the caller's
    values of these six attributes (the pixel ratio up to the equality of
    floats), and the condition holds again: the setters flag what they
    change, and [sync] copies what is flagged.  The sub-viewports are not
    part of this. *)
Theorem sync_mirrors_attributes h (cs : list Setter) (s o : Q3DScenePrivate) :
  flaggedOrEqual s o ->
  let r := sync ObjStore camera_setDirty camera_sync light_setDirty light_sync h
             (applySetters cs s) o in
  mirrors (applySetters cs s) (snd r) /\
  mirrors (snd (fst r)) (snd r) /\
  flaggedOrEqual (snd (fst r)) (snd r).
Proof.
  intros H r.
  destruct (sync_scenes ObjStore camera_setDirty camera_sync light_setDirty light_sync
              h (applySetters cs s) o) as [Hs Ho].
  fold r in Hs, Ho.
  pose proof (mirrors_syncedOther _ o (flaggedOrEqual_applySetters cs s o H)) as M.
  rewrite <- Ho in M.
  assert (M' : mirrors (snd (fst r)) (snd r)).
  { rewrite Hs. destruct (applySetters cs s). exact M. }
  split; [exact M|]. split; [exact M'|].
  destruct M' as (Mw & Mv & Mo & Mp & Ms & Mr). unfold flaggedOrEqual.
  repeat split; right; first [symmetry; assumption|assumption].
Qed.

End SyncMirrors.

Lemma sync_mirrors_attributes_witness :
  mirrors (applySetters setters_example scene_new)
    (snd (sync unit (fun _ _ h => h) (fun _ _ h => h) (fun _ _ h => h) (fun _ _ h => h)
            tt (applySetters setters_example scene_new) scene_render)).
Proof.
  assert (H : flaggedOrEqual scene_new scene_render)
    by (unfold flaggedOrEqual; repeat split; left; reflexivity).
  exact (proj1 (sync_mirrors_attributes unit (fun _ _ h => h) (fun _ _ h => h)
                  (fun _ _ h => h) (fun _ _ h => h) tt setters_example scene_new
                  scene_render H)).
Defined.

(** ** The rectangles in GPU space at the pixel ratio 1 *)

Lemma scale_one_checked :
  allFrom (Z.to_nat 65536) 0 (fun w => Float32.scale w Float32.one =? w) = true.
Proof. vm_compute. reflexivity. Qed.

Lemma scale_one (w : Z) : 0 <= w < 65536 -> Float32.scale w Float32.one = w.
Proof.
  intros Hw. apply Z.eqb_eq.
  apply (allFrom_spec (Z.to_nat 65536) 0 (fun w => Float32.scale w Float32.one =? w)
           scale_one_checked).
  rewrite Z2Nat.id; lia.
Qed.

(** X15.  At the pixel ratio [1.f], the ratio of a new scene, the
    products in single precision are exact: in a scene whose derived
    rectangles are up to date, the rectangle of the viewport in GPU space
    is the viewport itself with the Y axis turned over at the window
    height, and the one of the primary sub-viewport is the sub-viewport
    moved by the offset of the viewport and turned over in the same way,
    for coordinates and sizes from 0 to 65535. *)
Theorem gl_rectangles_at_ratio_one (s : Q3DScenePrivate) :
  let H := sz_height (m_windowSize s) in
  let V := m_viewport s in
  let R := m_primarySubViewport s in
  glDerived s ->
  m_devicePixelRatio s = Float32.one ->
  (0 <= QRect.x V < 65536 -> 0 <= H - (QRect.y V + QRect.height V) < 65536 ->
   0 <= QRect.width V < 65536 -> 0 <= QRect.height V < 65536 ->
   m_glViewport s
   = QRect.make (QRect.x V) (H - (QRect.y V + QRect.height V)) (QRect.width V)
       (QRect.height V)) /\
  (0 <= QRect.x R + QRect.x V < 65536 ->
   0 <= H - (QRect.y R + QRect.y V + QRect.height R) < 65536 ->
   0 <= QRect.width R < 65536 -> 0 <= QRect.height R < 65536 ->
   m_glPrimarySubViewport s
   = QRect.make (QRect.x R + QRect.x V) (H - (QRect.y R + QRect.y V + QRect.height R))
       (QRect.width R) (QRect.height R)).
Proof.
  intros H V R (Gv & Gp & _) Hone. split.
  - intros Hx Hy Hw Hh. rewrite Gv. unfold specGLRect. rewrite Hone.
    fold V H. rewrite !scale_one by assumption. reflexivity.
  - intros Hx Hy Hw Hh. rewrite Gp. unfold offsetGLRect. rewrite Hone.
    fold V H R. rewrite !scale_one by assumption. reflexivity.
Qed.

Lemma gl_rectangles_at_ratio_one_witness :
  m_glViewport scene_offset = QRect.make 100 50 800 600 /\
  m_glPrimarySubViewport scene_offset = QRect.make 100 530 160 120.
Proof.
  destruct (gl_rectangles_at_ratio_one scene_offset) as [Hv Hp];
    [split; [|split]; vm_compute; reflexivity|vm_compute; reflexivity|].
  split.
  - rewrite Hv; [vm_compute; reflexivity|vm_compute; split; [discriminate|reflexivity]..].
  - rewrite Hp; [vm_compute; reflexivity|vm_compute; split; [discriminate|reflexivity]..].
Defined.
